(** * notes-to-notion: figure extraction from note images

    A shallow embedding of the two extraction scripts,
    [extract-images-openai.py] (regions from a remote vision model, given as
    percentages) and [find-image.py] (layout model with an OpenCV contour
    fallback), and the verification of their region arithmetic, of the
    response clean-up, and of what they write to disk.

    Python numbers are embedded with their own arithmetic: [int] is [Z];
    [float] is IEEE-754 binary64, whose finite values are embedded as the
    rationals they denote and whose operations round the exact result to
    the nearest binary64 value, ties to even.  External libraries (OpenCV,
    requests, layoutparser, the json parser) are inputs of the model. *)

From Stdlib Require Import ZArith QArith Qround Qpower Lia Lqa.
From Stdlib Require Import List Bool String Ascii DecimalString DecimalNat.
From Stdlib Require Import SpecFloat.
Import ListNotations.

Local Open Scope Z_scope.

(* ===================================================================== *)
(** * Part I. The embedding *)
(* ===================================================================== *)

(** ** binary64 arithmetic *)

Module Binary64.

Local Open Scope Q_scope.

Definition pow2 (e : Z) : Q := 2 ^ e.

(** A Python [float]: a finite binary64 value, an infinity or a NaN.  The
    sign of a zero is not kept: no operation of the scripts observes it. *)
Inductive float64 : Type :=
| Finite (q : Q)
| PInf
| NInf
| NaN.

(** [floor (log2 x)] for a positive rational. *)
Definition ilog2 (x : Q) : Z :=
  let k := (Z.log2 (Qnum x) - Z.log2 (Zpos (Qden x)))%Z in
  if Qle_bool (pow2 k) x then k else (k - 1)%Z.

(** Nearest integer, ties to the even one. *)
Definition rne (y : Q) : Z :=
  let q := Qfloor y in
  match Qcompare (y - inject_Z q) (1 # 2) with
  | Lt => q
  | Gt => (q + 1)%Z
  | Eq => if Z.even q then q else (q + 1)%Z
  end.

(** Rounding of a positive rational to 53 significant bits, the exponent
    of the last bit being at least that of the subnormals. *)
Definition round_pos (x : Q) : Q :=
  let e := Z.max (ilog2 x - 52) (-1074) in
  inject_Z (rne (x * pow2 (- e))) * pow2 e.

(** The binary64 value of an exact result. *)
Definition fl (x : Q) : float64 :=
  match Qcompare x 0 with
  | Eq => Finite 0
  | Gt => let r := round_pos x in
          if Qle_bool (pow2 1024) r then PInf else Finite r
  | Lt => let r := round_pos (- x) in
          if Qle_bool (pow2 1024) r then NInf else Finite (- r)
  end.

Definition fneg (a : float64) : float64 :=
  match a with
  | Finite q => Finite (- q)
  | PInf => NInf
  | NInf => PInf
  | NaN => NaN
  end.

(** An infinity multiplied by a finite value [p]: NaN when [p] is zero. *)
Definition signed_inf (i : float64) (p : Q) : float64 :=
  match Qcompare p 0 with
  | Eq => NaN
  | Gt => i
  | Lt => fneg i
  end.

Definition fmul (a b : float64) : float64 :=
  match a, b with
  | NaN, _ | _, NaN => NaN
  | Finite p, Finite q => fl (p * q)
  | Finite p, PInf | PInf, Finite p => signed_inf PInf p
  | Finite p, NInf | NInf, Finite p => signed_inf NInf p
  | PInf, PInf | NInf, NInf => PInf
  | PInf, NInf | NInf, PInf => NInf
  end.

(** Division by a divisor that is not zero (Python raises on zero before
    dividing). *)
Definition fdiv (a b : float64) : float64 :=
  match a, b with
  | NaN, _ | _, NaN => NaN
  | Finite p, Finite q => fl (p / q)
  | Finite _, (PInf | NInf) => Finite 0
  | PInf, Finite q => if Qle_bool 0 q then PInf else NInf
  | NInf, Finite q => if Qle_bool 0 q then NInf else PInf
  | (PInf | NInf), (PInf | NInf) => NaN
  end.

Definition Qlt_bool (p q : Q) : bool :=
  match Qcompare p q with Lt => true | _ => false end.

(** [a < b] on floats; every comparison with a NaN is false. *)
Definition flt (a b : float64) : bool :=
  match a, b with
  | NaN, _ | _, NaN => false
  | Finite p, Finite q => Qlt_bool p q
  | NInf, (Finite _ | PInf) => true
  | Finite _, PInf => true
  | _, _ => false
  end.

Definition is_zero (a : float64) : bool :=
  match a with
  | Finite q => Qeq_bool q 0
  | _ => false
  end.

(** Truncation toward zero. *)
Definition Qtrunc (q : Q) : Z := Z.quot (Qnum q) (Zpos (Qden q)).

(** The value denoted by a float of the Standard Library's IEEE-754
    specification, to compare [fl] with it. *)
Definition of_spec_float (f : spec_float) : float64 :=
  match f with
  | S754_zero _ => Finite 0
  | S754_infinity false => PInf
  | S754_infinity true => NInf
  | S754_nan => NaN
  | S754_finite s m e =>
      Finite (inject_Z (if s then Zneg m else Zpos m) * pow2 e)
  end.

Definition same_value (a b : float64) : bool :=
  match a, b with
  | Finite p, Finite q => Qeq_bool p q
  | PInf, PInf | NInf, NInf | NaN, NaN => true
  | _, _ => false
  end.

(** Correctly rounded quotient and rounded scaled integer, as the Standard
    Library's specification computes them. *)
Definition spec_quotient (n d : Z) : float64 :=
  of_spec_float
    (SFdiv 53 1024 (binary_normalize 53 1024 n 0 false)
                   (binary_normalize 53 1024 d 0 false)).

Definition spec_scaled (m e : Z) : float64 :=
  of_spec_float (binary_normalize 53 1024 m e false).

Definition agree_on_quotients (ns ds : list Z) : bool :=
  forallb (fun n => forallb (fun d =>
    same_value (fl (inject_Z n / inject_Z d)) (spec_quotient n d)) ds) ns.

Definition agree_on_scaled (l : list (Z * Z)) : bool :=
  forallb (fun p => same_value (fl (inject_Z (fst p) * pow2 (snd p)))
                               (spec_scaled (fst p) (snd p))) l.

(** Values of the binary64 grid: at most 53 significant bits, exponent of
    the last bit not below that of the subnormals. *)
Definition representable (g : Q) : Prop :=
  exists G e, (Z.abs G <= 2 ^ 53)%Z /\ (-1074 <= e)%Z /\ g == inject_Z G * pow2 e.

(** [r] lies between any two grid values that enclose the exact value
    [x]: what the proofs use of a rounded result. *)
Definition enclosed (x r : Q) : Prop :=
  (forall g, representable g -> g <= x -> g <= r)
  /\ (forall g, representable g -> x <= g -> r <= g).

End Binary64.

(** ** Python values, exceptions and arithmetic *)

Module Py.

Import Binary64.

Inductive exn : Type :=
| TypeError
| ValueError
| OverflowError
| ZeroDivisionError
| AttributeError
| KeyError
| ImportError
| OtherError.

Inductive result (A : Type) : Type :=
| Ok (a : A)
| Raise (e : exn).
Arguments Ok {A} a.
Arguments Raise {A} e.

Definition rbind {A B} (r : result A) (k : A -> result B) : result B :=
  match r with
  | Ok a => k a
  | Raise e => Raise e
  end.

(** The two numeric types of the scripts. *)
Inductive num : Type :=
| Int (z : Z)
| Float (f : float64).

(** Conversion of an [int] operand of a mixed operation: the nearest
    float, [OverflowError] beyond the range. *)
Definition float_of_int (z : Z) : result float64 :=
  match fl (inject_Z z) with
  | Finite q => Ok (Finite q)
  | _ => Raise OverflowError
  end.

Definition as_float (a : num) : result float64 :=
  match a with
  | Int z => float_of_int z
  | Float f => Ok f
  end.

(** [a * b] *)
Definition mul (a b : num) : result num :=
  match a, b with
  | Int x, Int y => Ok (Int (x * y))
  | _, _ =>
      rbind (as_float a) (fun fa =>
      rbind (as_float b) (fun fb => Ok (Float (fmul fa fb))))
  end.

(** [a / b]: true division.  On two ints it is the correctly rounded
    quotient, [OverflowError] when that is out of range. *)
Definition truediv (a b : num) : result num :=
  match a, b with
  | Int x, Int y =>
      if y =? 0 then Raise ZeroDivisionError
      else match fl (inject_Z x / inject_Z y)%Q with
           | Finite q => Ok (Float (Finite q))
           | _ => Raise OverflowError
           end
  | _, _ =>
      rbind (as_float a) (fun fa =>
      rbind (as_float b) (fun fb =>
        if is_zero fb then Raise ZeroDivisionError
        else Ok (Float (fdiv fa fb))))
  end.

(** [int(a)] *)
Definition int (a : num) : result Z :=
  match a with
  | Int z => Ok z
  | Float (Finite q) => Ok (Qtrunc q)
  | Float NaN => Raise ValueError
  | Float _ => Raise OverflowError
  end.

(** [a < b]: exact, also between an int and a float. *)
Definition exact (a : num) : float64 :=
  match a with
  | Int z => Finite (inject_Z z)
  | Float f => f
  end.

Definition lt (a b : num) : bool := flt (exact a) (exact b).

(** Float literals of the scripts: the binary64 value nearest to the
    decimal. *)
Definition literal (q : Q) : num := Float (fl q).

End Py.

(** ** Parsed JSON, as [json.loads] returns it *)

Module Json.

Import Binary64 Py.

#[warnings="-register-all"]
Inductive value : Type :=
| Null
| Bool (b : bool)
| Num (n : num)
| Str (s : string)
| Arr (l : list value)
| Obj (kv : list (string * value)).

Fixpoint lookup (k : string) (kv : list (string * value)) : option value :=
  match kv with
  | [] => None
  | (k', v) :: kv' => if String.eqb k k' then Some v else lookup k kv'
  end.

(** [d.get(k, default)]; only a dict has the method. *)
Definition get (d : value) (k : string) (default : value) : result value :=
  match d with
  | Obj kv => Ok (match lookup k kv with Some v => v | None => default end)
  | _ => Raise AttributeError
  end.

(** The operand of arithmetic: a number, or a boolean as 0 or 1.  Every
    other value makes [v * n / 100] raise [TypeError]. *)
Definition as_num (v : value) : result num :=
  match v with
  | Num n => Ok n
  | Bool b => Ok (Int (if b then 1 else 0))
  | _ => Raise TypeError
  end.

(** Truth value, as [not v] tests it. *)
Definition truthy (v : value) : bool :=
  match v with
  | Null => false
  | Bool b => b
  | Num (Int z) => negb (z =? 0)
  | Num (Float f) => negb (is_zero f)
  | Str s => negb (String.eqb s "")
  | Arr l => negb (Nat.eqb (List.length l) 0)
  | Obj kv => negb (Nat.eqb (List.length kv) 0)
  end.

Definition chars (s : string) : list value :=
  map (fun c => Str (String c EmptyString)) (list_ascii_of_string s).

(** The items a [for] loop sees: the elements of a list, the characters
    of a string, the keys of a dict. *)
Definition iterate (v : value) : result (list value) :=
  match v with
  | Arr l => Ok l
  | Str s => Ok (chars s)
  | Obj kv => Ok (map (fun p => Str (fst p)) kv)
  | _ => Raise TypeError
  end.

End Json.

(** ** [os.path] on POSIX, and [str] of a loop index *)

Module OsPath.

Local Open Scope string_scope.

Definition is_sep (c : ascii) : bool := Ascii.eqb c "/".
Definition is_dot (c : ascii) : bool := Ascii.eqb c ".".

Definition starts_with_sep (s : string) : bool :=
  match s with
  | String c _ => is_sep c
  | EmptyString => false
  end.

Fixpoint ends_with_sep (s : string) : bool :=
  match s with
  | EmptyString => false
  | String c EmptyString => is_sep c
  | String _ s' => ends_with_sep s'
  end.

(** [os.path.join(a, b)] *)
Definition join (a b : string) : string :=
  if starts_with_sep b then b
  else if String.eqb a "" || ends_with_sep a then a ++ b
  else a ++ "/" ++ b.

Fixpoint take_while (f : ascii -> bool) (l : list ascii) : list ascii :=
  match l with
  | [] => []
  | c :: l' => if f c then c :: take_while f l' else []
  end.

(** [os.path.basename(p)]: what follows the last separator. *)
Definition basename (p : string) : string :=
  string_of_list_ascii
    (rev (take_while (fun c => negb (is_sep c)) (rev (list_ascii_of_string p)))).

(** Split at the first dot of a list: what precedes it and what follows. *)
Fixpoint split_dot (l : list ascii) : option (list ascii * list ascii) :=
  match l with
  | [] => None
  | c :: l' =>
      if is_dot c then Some ([], l')
      else match split_dot l' with
           | Some (a, b) => Some (c :: a, b)
           | None => None
           end
  end.

(** [os.path.splitext(p)[0]]: the extension starts at the last dot, when
    that dot follows the last separator and the file name has a character
    other than a dot before it. *)
Definition splitext_root (p : string) : string :=
  match split_dot (rev (list_ascii_of_string p)) with
  | None => p
  | Some (ext_rev, root_rev) =>
      if existsb is_sep ext_rev then p
      else if existsb (fun c => negb (is_dot c))
                      (take_while (fun c => negb (is_sep c)) root_rev)
           then string_of_list_ascii (rev root_rev)
           else p
  end.

(** [os.path.splitext(os.path.basename(p))[0]] *)
Definition base_filename (p : string) : string := splitext_root (basename p).

(** [str(i)] for a loop index. *)
Definition str (i : nat) : string := NilEmpty.string_of_uint (Nat.to_uint i).

(** [os.path.join(folder, f'{base}_figure_{i}.jpg')] *)
Definition figure_path (folder base : string) (i : nat) : string :=
  join folder (base ++ "_figure_" ++ str i ++ ".jpg").

(** A file named as the crops are: [{base}_figure_{index}.jpg] inside the
    output folder. *)
Definition is_crop_file (output_folder path : string) : Prop :=
  exists base i, path = figure_path output_folder base i.

(** Whether [p] occurs in [s]. *)
Fixpoint prefix_of (p s : string) : bool :=
  match p, s with
  | EmptyString, _ => true
  | String c p', String d s' => Ascii.eqb c d && prefix_of p' s'
  | String _ _, EmptyString => false
  end.

Fixpoint occurs (p s : string) : bool :=
  prefix_of p s ||
  match s with
  | EmptyString => false
  | String _ s' => occurs p s'
  end.

(** A name without a separator. *)
Definition no_sep (l : list ascii) : bool := forallb (fun c => negb (is_sep c)) l.

(** [path] is the file [name] directly inside [folder]: the folder, a
    separator unless the folder is empty or ends with one, and a name
    that is not empty and holds no separator. *)
Definition in_folder (folder name path : string) : Prop :=
  no_sep (list_ascii_of_string name) = true
  /\ name <> ""
  /\ (path = folder ++ name \/ path = folder ++ "/" ++ name).

(** [f'{base}_figure_{i}.jpg'] *)
Definition figure_name (base : string) (i : nat) : string :=
  base ++ "_figure_" ++ str i ++ ".jpg".

End OsPath.

(** ** Python [str] operations on the response text *)

Module Text.

Local Open Scope N_scope.

(** A Python [str]: its Unicode code points. *)
Definition text : Type := list N.

Definition of_string (s : string) : text :=
  map N_of_ascii (list_ascii_of_string s).

Fixpoint starts_with (p s : text) : bool :=
  match p, s with
  | [], _ => true
  | c :: p', d :: s' => N.eqb c d && starts_with p' s'
  | _ :: _, [] => false
  end.

(** The scan of [s.replace(old, new)] for a non-empty [old]: leftmost
    occurrences, which do not overlap; [skip] characters of a replaced
    occurrence are still to pass. *)
Fixpoint replace_from (old new : text) (skip : nat) (s : text) : text :=
  match s with
  | [] => []
  | c :: s' =>
      match skip with
      | S k => replace_from old new k s'
      | O => if starts_with old s
             then new ++ replace_from old new (List.length old - 1) s'
             else c :: replace_from old new 0 s'
      end
  end.

(** [s.replace(old, new)]; an empty [old] matches before every character
    and at the end. *)
Definition replace (old new s : text) : text :=
  match old with
  | [] => new ++ flat_map (fun c => c :: new) s
  | _ :: _ => replace_from old new 0 s
  end.

(** [c.isspace()] *)
Definition is_space (c : N) : bool :=
  ((9 <=? c) && (c <=? 13)) || ((28 <=? c) && (c <=? 32))
  || (c =? 133) || (c =? 160) || (c =? 5760)
  || ((8192 <=? c) && (c <=? 8202))
  || (c =? 8232) || (c =? 8233) || (c =? 8239) || (c =? 8287) || (c =? 12288).

Fixpoint lstrip (s : text) : text :=
  match s with
  | [] => []
  | c :: s' => if is_space c then lstrip s' else s
  end.

Definition rstrip (s : text) : text := rev (lstrip (rev s)).

(** [s.strip()] *)
Definition strip (s : text) : text := rstrip (lstrip s).

(** White space only. *)
Definition spaces (ws : text) : Prop := Forall (fun c => is_space c = true) ws.

(** The backtick, and the two fences that line 99 deletes. *)
Definition tick : N := 96.
Definition fence : text := [tick; tick; tick].
Definition fence_json : text := [tick; tick; tick; 106; 115; 111; 110].

(** [s.replace('```json', '')] and [s.replace('```', '')] *)
Definition unfence_json (s : text) : text := replace_from fence_json [] 0 s.
Definition unfence (s : text) : text := replace_from fence [] 0 s.

(** Whether [old] occurs in [s]. *)
Fixpoint contains (old s : text) : bool :=
  starts_with old s
  || match s with
     | [] => false
     | _ :: s' => contains old s'
     end.

End Text.

(** ** Effects: what a run does to the disk and to its output streams *)

Module Effects.

Import Py.

(** What [cv2.imwrite] is given: the whole image or a slice of it,
    [image[y:y+h, x:x+w]]. *)
Inductive content : Type :=
| WholeImage
| Crop (x y w h : Z).

Inductive diagnostic : Type :=
| Analyzing
| Extracted (i : nat) (type description : Json.value)
| FallbackNotice (e : exn).

(** The JSON object printed at the end of a run. *)
Inductive report : Type :=
| Success (extracted_count : nat) (extracted_images : list string)
| Failure (error : exn).

(** What a run does that can be observed: [os.makedirs(path,
    exist_ok=True)] has returned, [cv2.imwrite] is called, a line is
    printed on standard error, a JSON object on standard output. *)
Inductive event : Type :=
| MakeDirs (path : string)
| ImWrite (path : string) (c : content)
| Stderr (d : diagnostic)
| Stdout (r : report).

(** A computation: the events it performed, in order, and its result or
    the exception that ended it. *)
Definition M (A : Type) : Type := (list event * result A)%type.

Definition ret {A} (a : A) : M A := ([], Ok a).
Definition raise {A} (e : exn) : M A := ([], Raise e).
Definition emit (ev : event) : M unit := ([ev], Ok tt).
Definition lift {A} (r : result A) : M A := ([], r).

Definition bind {A B} (m : M A) (k : A -> M B) : M B :=
  match m with
  | (l, Ok a) => let (l', r) := k a in (l ++ l', r)
  | (l, Raise e) => (l, Raise e)
  end.

Definition events {A} (m : M A) : list event := fst m.
Definition outcome {A} (m : M A) : result A := snd m.

(** The calls of [cv2.imwrite] during a run, and the paths they write. *)
Fixpoint imwrites (l : list event) : list (string * content) :=
  match l with
  | [] => []
  | ImWrite p c :: l' => (p, c) :: imwrites l'
  | _ :: l' => imwrites l'
  end.

Definition written (l : list event) : list string := map fst (imwrites l).

(** The JSON objects printed on standard output during a run. *)
Fixpoint reports (l : list event) : list report :=
  match l with
  | [] => []
  | Stdout r :: l' => r :: reports l'
  | _ :: l' => reports l'
  end.

(** The indices announced on standard error by [Extracted figure {i}: ...]. *)
Fixpoint announced (l : list event) : list nat :=
  match l with
  | [] => []
  | Stderr (Extracted i _ _) :: l' => i :: announced l'
  | _ :: l' => announced l'
  end.

End Effects.

Declare Scope py_scope.
Delimit Scope py_scope with py.
Notation "x <- m ;; k" := (Effects.bind m (fun x => k))
  (at level 61, m at next level, right associativity) : py_scope.
Notation "m ;;; k" := (Effects.bind m (fun _ => k))
  (at level 61, right associativity) : py_scope.
Notation "x <~ r ;; k" := (Py.rbind r (fun x => k))
  (at level 61, r at next level, right associativity) : py_scope.

(** ** [extract-images-openai.py] *)

Module ExtractImagesOpenai.

Import Binary64 Py Json OsPath Text Effects.
Local Open Scope string_scope.
Local Open Scope Z_scope.
Local Open Scope py_scope.

(** What the script reads from its environment. *)
Record world : Type := {
  (** [os.getenv('OPENAI_API_KEY')] *)
  api_key : option string;
  (** [open(image_path, 'rb').read()] succeeds or raises *)
  open_image : string -> result unit;
  (** [requests.post(...)]: the status code, and
      [response.json()['choices'][0]['message']['content']] *)
  post : result (Z * result text);
  (** [json.loads] *)
  loads : text -> result value;
  (** [cv2.imread(path)]: [None], or an image of shape (height, width) *)
  imread : string -> option (Z * Z)
}.

(** A pixel rectangle [(x, y, w, h)]. *)
Record region : Type := Region { x : Z; y : Z; w : Z; h : Z }.

(** Line 99: the markdown fences are deleted, then the ends are stripped. *)
Definition clean_content (content : text) : text :=
  strip (replace (of_string "```") [] (replace (of_string "```json") [] content)).

(** A content wrapped in markdown fences: the opening fence with its
    language tag, the closing fence, and the white space (line breaks)
    between the fences and the content. *)
Definition fenced (before after content : text) : text :=
  (of_string "```json" ++ before ++ content ++ after ++ of_string "```")%list.

(** Lines 99-101: what is returned for a response content. *)
Definition parse_content (loads : text -> result value) (content : text)
  : result value :=
  loads (clean_content content).

Definition detect_figure_regions_with_openai (W : world) (image_path : string)
  : result value :=
  match api_key W with
  | None | Some EmptyString => Raise ValueError
  | Some _ =>
      _ <~ open_image W image_path ;;
      response <~ post W ;;
      if negb (Z.eqb (fst response) 200) then Raise OtherError
      else content <~ snd response ;; parse_content (loads W) content
  end.

(** Lines 136-139: [int(v * dim / 100)] *)
Definition to_pixels (v : value) (dim : Z) : result Z :=
  n <~ as_num v ;;
  p <~ mul n (Int dim) ;;
  q <~ truediv p (Int 100) ;;
  int q.

Definition percent_to_pixels (bbox : value) (img_width img_height : Z)
  : result region :=
  vx <~ get bbox "x" (Num (Int 0)) ;;
  x <~ to_pixels vx img_width ;;
  vy <~ get bbox "y" (Num (Int 0)) ;;
  y <~ to_pixels vy img_height ;;
  vw <~ get bbox "width" (Num (Int 100)) ;;
  w <~ to_pixels vw img_width ;;
  vh <~ get bbox "height" (Num (Int 100)) ;;
  h <~ to_pixels vh img_height ;;
  Ok (Region x y w h).

(** Lines 142-143: [int(size * padding_percent / 100)] *)
Definition padding (size : Z) (padding_percent : num) : result Z :=
  p <~ mul (Int size) padding_percent ;;
  q <~ truediv p (Int 100) ;;
  int q.

(** Lines 142-149 *)
Definition apply_padding (r : region) (padding_percent : num) : result region :=
  padding_x <~ padding (w r) padding_percent ;;
  padding_y <~ padding (h r) padding_percent ;;
  Ok (Region (x r - padding_x) (y r - padding_y)
             (w r + padding_x * 2) (h r + padding_y * 2)).

(** Lines 152-155 *)
Definition clamp (r : region) (img_width img_height : Z) : region :=
  let x' := Z.max 0 (x r) in
  let y' := Z.max 0 (y r) in
  Region x' y' (Z.min (w r) (img_width - x')) (Z.min (h r) (img_height - y')).

(** Lines 142-155 on a pixel rectangle. *)
Definition pad_and_clamp (r : region) (padding_percent : num)
  (img_width img_height : Z) : result region :=
  r' <~ apply_padding r padding_percent ;;
  Ok (clamp r' img_width img_height).

(** Lines 133-155 for one figure. *)
Definition normalize (figure : value) (img_width img_height : Z)
  (padding_percent : num) : result region :=
  bbox <~ get figure "bbox" (Obj []) ;;
  r <~ percent_to_pixels bbox img_width img_height ;;
  pad_and_clamp r padding_percent img_width img_height.

(** Line 158 *)
Definition survives (r : region) : bool := (0 <? w r) && (0 <? h r).

(** Lines 132-163: the loop over [enumerate(figures)], from index [i]. *)
Fixpoint extract_loop (img_width img_height : Z) (padding_percent : num)
  (output_folder base : string) (i : nat) (figures : list value)
  (extracted_paths : list string) : M (list string) :=
  match figures with
  | [] => ret extracted_paths
  | figure :: rest =>
      r <- lift (normalize figure img_width img_height padding_percent) ;;
      if survives r then
        let output_path := figure_path output_folder base i in
        emit (ImWrite output_path (Crop (x r) (y r) (w r) (h r))) ;;;
        type <- lift (get figure "type" (Str "unknown")) ;;
        description <- lift (get figure "description" (Str "no description")) ;;
        emit (Stderr (Extracted i type description)) ;;;
        extract_loop img_width img_height padding_percent output_folder base
                     (S i) rest (extracted_paths ++ [output_path])
      else
        extract_loop img_width img_height padding_percent output_folder base
                     (S i) rest extracted_paths
  end.

(** Lines 112-165, in a run where [os.makedirs] of line 112 returns;
    [script] below has the run where it raises. *)
Definition extract_figures_from_image (W : world) (image_path : string)
  (output_folder : string) (padding_percent : num) : M (list string) :=
  emit (MakeDirs output_folder) ;;;
  emit (Stderr Analyzing) ;;;
  result <- lift (detect_figure_regions_with_openai W image_path) ;;
  figures <- lift (get result "figures" (Arr [])) ;;
  if negb (truthy figures) then ret []
  else
    match imread W image_path with
    | None => raise ValueError
    | Some (img_height, img_width) =>
        items <- lift (iterate figures) ;;
        extract_loop img_width img_height padding_percent output_folder
                     (base_filename image_path) 0 items []
    end.

(** The conversion as the specification words it,
    [round(pct * dim / 100)]: the integer nearest to the exact quotient. *)
Definition rounded_pixels (pct dim : Z) : Z :=
  rne (inject_Z (pct * dim) / 100).

(** A bbox with the defaults of lines 136-139 written out. *)
Definition or_default (k : string) (default : value) (kv : list (string * value))
  : value :=
  match lookup k kv with
  | Some v => v
  | None => default
  end.

Definition with_defaults (kv : list (string * value)) : list (string * value) :=
  [("x", or_default "x" (Num (Int 0)) kv);
   ("y", or_default "y" (Num (Int 0)) kv);
   ("width", or_default "width" (Num (Int 100)) kv);
   ("height", or_default "height" (Num (Int 100)) kv)].

(** The figures the loop crops, with their indices: those that survive,
    up to the first figure whose normalization raises. *)
Fixpoint kept (img_width img_height : Z) (padding_percent : num) (i : nat)
  (figures : list value) : list (nat * region) :=
  match figures with
  | [] => []
  | figure :: rest =>
      match normalize figure img_width img_height padding_percent with
      | Ok r =>
          if survives r
          then (i, r) :: kept img_width img_height padding_percent (S i) rest
          else kept img_width img_height padding_percent (S i) rest
      | Raise _ => []
      end
  end.

(** The figures the provider returned for an image, as the loop sees them;
    none when the answer could not be obtained or iterated. *)
Definition provided (W : world) (image_path : string) : list value :=
  match detect_figure_regions_with_openai W image_path with
  | Ok result =>
      match get result "figures" (Arr []) with
      | Ok figures =>
          match iterate figures with
          | Ok items => items
          | Raise _ => []
          end
      | Raise _ => []
      end
  | Raise _ => []
  end.

(** Lines 181-195: the report and the exit status. *)
Definition main (W : world) (input_path output_folder : string)
  (padding_percent : Z) : list event * Z :=
  match extract_figures_from_image W input_path output_folder (Int padding_percent) with
  | (evs, Ok extracted) =>
      ((evs ++ [Stdout (Success (List.length extracted) extracted)])%list, 0)
  | (evs, Raise e) => ((evs ++ [Stdout (Failure e)])%list, 1)
  end.

(** What the process is given besides the [world] of the extraction. *)
Record host : Type := {
  (** [int(s)] on a command-line argument *)
  int_of_str : string -> result Z;
  (** [os.makedirs(path, exist_ok=True)] on a path that is not empty *)
  makedirs : string -> result unit
}.

(** [os.makedirs(path, exist_ok=True)]: the empty path always raises
    ([FileNotFoundError]). *)
Definition os_makedirs (H : host) (path : string) : result unit :=
  if String.eqb path "" then Raise OtherError else makedirs H path.

(** How the script ends. *)
Inductive ending : Type :=
| Usage
  (** lines 168-175: the usage text on standard output, [sys.exit(1)] *)
| Uncaught (e : exn)
  (** an exception outside the [try]: a traceback, no report *)
| Ended (evs : list event) (status : Z).

(** Lines 167-195, [argv] being [sys.argv]: the arguments are read, the
    third one converted, before the [try]; a failing [os.makedirs] is
    caught by the [except] of line 189. *)
Definition script (H : host) (W : world) (argv : list string) : ending :=
  match argv with
  | [] | [_] => Usage
  | _ :: input_path :: options =>
      let output_folder :=
        match options with
        | folder :: _ => folder
        | [] => "temp_image_storage"
        end in
      match (match options with
             | _ :: padding :: _ => int_of_str H padding
             | _ => Ok 8
             end) with
      | Raise e => Uncaught e
      | Ok padding_percent =>
          match os_makedirs H output_folder with
          | Raise e => Ended [Stdout (Failure e)] 1
          | Ok _ =>
              let (evs, status) :=
                main W input_path output_folder padding_percent in
              Ended evs status
          end
      end
  end.

(** A figure whose normalization does not raise. *)
Definition normalizes (img_width img_height : Z) (padding_percent : num)
  (figure : value) : Prop :=
  exists r, normalize figure img_width img_height padding_percent = Ok r.

(** A figure that the loop crops: it normalizes to a region that survives. *)
Definition keeps (img_width img_height : Z) (padding_percent : num)
  (figure : value) : bool :=
  match normalize figure img_width img_height padding_percent with
  | Ok r => survives r
  | Raise _ => false
  end.

End ExtractImagesOpenai.

(** ** [find-image.py] *)

Module FindImage.

Import Binary64 Py Json OsPath Text Effects.
Local Open Scope string_scope.
Local Open Scope Z_scope.
Local Open Scope py_scope.

(** A block of the detected layout: its label, and what [crop_image] cuts. *)
Record block : Type := { block_type : string; block_crop : content }.

(** A bounding rectangle [(x, y, w, h)] of [cv2.boundingRect]. *)
Definition rect : Type := (Z * Z * Z * Z)%type.

Record world : Type := {
  (** lines 24-44: importing layoutparser and building the model *)
  layout_model : result unit;
  (** [model.detect(image)] for the image at a path *)
  detect : string -> result (list block);
  (** [cv2.imread(path)]: [None], or an image of shape (height, width) *)
  imread : string -> option (Z * Z);
  (** the bounding rectangles of the external contours of the Canny edges
      of the image at a path, in the order [cv2.findContours] gives them *)
  bounding_rects : string -> list rect;
  (** lines 146-148: decoding the base64 data to an image *)
  imdecode : string -> result (option (Z * Z));
  (** whether [cv2.imwrite] stores the file at a path; it returns [False],
      without raising, when it cannot (a folder of the path is missing) *)
  imwrite_ok : string -> bool
}.

(** The binary64 values of the literals [0.02], [0.8], [0.3] and [3.0]. *)
Definition c002 : Q := 5764607523034235 # 288230376151711744.
Definition c08 : Q := 7205759403792794 # 9007199254740992.
Definition c03 : Q := 5404319552844595 # 18014398509481984.
Definition c3 : Q := 6755399441055744 # 2251799813685248.

(** Lines 104-105 *)
Definition area_limits (img_width img_height : Z) : result (num * num) :=
  min_area <~ mul (Int (img_width * img_height)) (literal 0.02) ;;
  max_area <~ mul (Int (img_width * img_height)) (literal 0.8) ;;
  Ok (min_area, max_area).

(** Lines 114-120: the filter on a bounding rectangle. *)
Definition accepts (min_area max_area : num) (w h : Z) : result bool :=
  let area := Int (w * h) in
  if lt min_area area && lt area max_area then
    aspect_ratio <~ truediv (Int w) (Int h) ;;
    Ok (lt (literal 0.3) aspect_ratio && lt aspect_ratio (literal 3.0))
  else Ok false.

(** The filter as the specification words it, in exact arithmetic:
    [0.02 * imageArea < w*h < 0.8 * imageArea] and [0.3 < w/h < 3.0]. *)
Definition within_thresholds (img_width img_height w h : Z) : Prop :=
  (0.02 * inject_Z (img_width * img_height) < inject_Z (w * h)
   /\ inject_Z (w * h) < 0.8 * inject_Z (img_width * img_height)
   /\ 0.3 < inject_Z w / inject_Z h
   /\ inject_Z w / inject_Z h < 3.0)%Q.

(** Lines 104-120 for one rectangle. *)
Definition filter_rect (img_width img_height w h : Z) : result bool :=
  rbind (area_limits img_width img_height)
        (fun limits => accepts (fst limits) (snd limits) w h).

(** Lines 110-126 *)
Fixpoint fallback_loop (min_area max_area : num) (output_folder base : string)
  (figure_count : nat) (contours : list rect) (extracted_paths : list string)
  : M (list string) :=
  match contours with
  | [] => ret extracted_paths
  | (x, y, w, h) :: rest =>
      ok <- lift (accepts min_area max_area w h) ;;
      if ok : bool then
        let output_path := figure_path output_folder base figure_count in
        emit (ImWrite output_path (Crop x y w h)) ;;;
        fallback_loop min_area max_area output_folder base (S figure_count)
                      rest (extracted_paths ++ [output_path])
      else
        fallback_loop min_area max_area output_folder base figure_count
                      rest extracted_paths
  end.

(** Lines 86-128, in a run where [os.makedirs] returns. *)
Definition extract_images_opencv_fallback (W : world) (input_image_path : string)
  (output_folder : string) : M (list string) :=
  emit (MakeDirs output_folder) ;;;
  match imread W input_image_path with
  | None => raise ValueError
  | Some (img_height, img_width) =>
      limits <- lift (area_limits img_width img_height) ;;
      fallback_loop (fst limits) (snd limits) output_folder
                    (base_filename input_image_path) 0
                    (bounding_rects W input_image_path) []
  end.

(** Lines 61-65, where [crop_image] and [cv2.imwrite] return for every
    block. *)
Fixpoint write_blocks (output_folder base : string) (i : nat)
  (image_blocks : list block) (extracted_paths : list string) : M (list string) :=
  match image_blocks with
  | [] => ret extracted_paths
  | b :: rest =>
      let output_path := figure_path output_folder base i in
      emit (ImWrite output_path (block_crop b)) ;;;
      write_blocks output_folder base (S i) rest (extracted_paths ++ [output_path])
  end.

Definition is_figure (b : block) : bool := String.eqb (block_type b) "Figure".

(** Lines 23-67: the body of the [try]. *)
Definition with_layout_model (W : world) (input_image_path : string)
  (output_folder : string) : M (list string) :=
  lift (layout_model W) ;;;
  match imread W input_image_path with
  | None => raise ValueError
  | Some _ =>
      layout <- lift (detect W input_image_path) ;;
      write_blocks output_folder (base_filename input_image_path) 0
                   (filter is_figure layout) []
  end.

(** Lines 20-72, in a run where [os.makedirs] returns. *)
Definition extract_images_from_note (W : world) (input_image_path : string)
  (output_folder : string) : M (list string) :=
  emit (MakeDirs output_folder) ;;;
  match with_layout_model W input_image_path output_folder with
  | (evs, Raise ((ImportError | AttributeError) as e)) =>
      ((evs, Ok tt) : M unit) ;;;
      emit (Stderr (FallbackNotice e)) ;;;
      extract_images_opencv_fallback W input_image_path output_folder
  | m => m
  end.

(** The world once [cv2.imwrite] has been called on [path] with an image
    of shape [dims]: the image can be read back from there when the call
    stored it; when it did not, what was at [path] before is still there. *)
Definition after_imwrite (W : world) (path : string) (dims : Z * Z) : world :=
  {| layout_model := layout_model W;
     detect := detect W;
     imread := fun p => if String.eqb p path && imwrite_ok W path
                        then Some dims else imread W p;
     bounding_rects := bounding_rects W;
     imdecode := imdecode W;
     imwrite_ok := imwrite_ok W |}.

(** Lines 143-158, in a run where [os.makedirs] returns. *)
Definition extract_from_base64 (W : world) (base64_data : string)
  (output_folder : string) (filename : string) : M (list string) :=
  emit (MakeDirs output_folder) ;;;
  image <- lift (imdecode W base64_data) ;;
  match image with
  | None => raise ValueError
  | Some dims =>
      let temp_path := join output_folder (filename ++ "_original.jpg") in
      emit (ImWrite temp_path WholeImage) ;;;
      extract_images_from_note (after_imwrite W temp_path dims) temp_path output_folder
  end.

(** Lines 169-183 *)
Definition main (W : world) (input_path output_folder : string) : list event * Z :=
  match extract_images_from_note W input_path output_folder with
  | (evs, Ok extracted) =>
      ((evs ++ [Stdout (Success (List.length extracted) extracted)])%list, 0)
  | (evs, Raise e) => ((evs ++ [Stdout (Failure e)])%list, 1)
  end.

(** Whether the fallback keeps a bounding rectangle, on an image of the
    given size. *)
Definition accepted (img_width img_height : Z) (r : rect) : bool :=
  match r with
  | (_, _, w, h) =>
      match filter_rect img_width img_height w h with
      | Ok b => b
      | Raise _ => false
      end
  end.

(** The slice that lines 122-124 write for a rectangle. *)
Definition crop_of_rect (r : rect) : content :=
  match r with (x, y, w, h) => Crop x y w h end.

(** Figure files written one after the other, numbered from [i]. *)
Fixpoint numbered (output_folder base : string) (i : nat) (crops : list content)
  : list event :=
  match crops with
  | [] => []
  | c :: rest =>
      ImWrite (figure_path output_folder base i) c
      :: numbered output_folder base (S i) rest
  end.

(** A bounding rectangle that fits in the image. *)
Definition fits (img_width img_height : Z) (r : rect) : Prop :=
  match r with (_, _, w, h) => 0 <= w <= img_width /\ 0 <= h <= img_height end.

End FindImage.

(** ** Sample inputs *)

Module Samples.

Import Py Json Text Effects.
Local Open Scope string_scope.
Local Open Scope Z_scope.

(** The bbox of the prompt's example answer. *)
Definition bbox_10_20_30_40 : value :=
  Obj [("x", Num (Int 10)); ("y", Num (Int 20));
       ("width", Num (Int 30)); ("height", Num (Int 40))].

Definition chart : value :=
  Obj [("type", Str "bar_chart"); ("description", Str "sales by month");
       ("bbox", bbox_10_20_30_40)].

(** A figure without a bbox, and one whose width is zero. *)
Definition no_bbox : value := Obj [("type", Str "table")].

Definition empty_width : value :=
  Obj [("bbox", Obj [("x", Num (Int 50)); ("width", Num (Int 0))])].

(** A run of the remote script in which the provider's answer parses to
    [answer] and the image is 1000 by 1000. *)
Definition remote_world (answer : value) : ExtractImagesOpenai.world :=
  {| ExtractImagesOpenai.api_key := Some "sk-test";
     ExtractImagesOpenai.open_image := fun _ => Ok tt;
     ExtractImagesOpenai.post := Ok (200, Ok (of_string "{}"));
     ExtractImagesOpenai.loads := fun _ => Ok answer;
     ExtractImagesOpenai.imread := fun _ => Some (1000, 1000) |}.

(** The base64 encoding of a PNG file of one red pixel: the signature, an
    IHDR chunk (1 by 1, 8-bit RGB), one IDAT chunk and the IEND chunk. *)
Definition one_pixel_png : string :=
  "iVBORw0KGgoAAAANSUhEUgAAAAEAAAABCAIAAACQd1PeAAAADElEQVR42mP4z8AAAAMBAQD3A0FDAAAAAElFTkSuQmCC".

(** Decoding in the sample worlds: the pixel above is an image of shape
    (1, 1); the other strings used in the examples hold no image. *)
Definition decode_sample (base64_data : string) : result (option (Z * Z)) :=
  if String.eqb base64_data one_pixel_png then Ok (Some (1, 1)) else Ok None.

(** A run of the local script without layoutparser, on a 1000 by 1000
    image with the given contour rectangles. *)
Definition local_world (rects : list FindImage.rect) : FindImage.world :=
  {| FindImage.layout_model := Raise ImportError;
     FindImage.detect := fun _ => Ok [];
     FindImage.imread := fun _ => Some (1000, 1000);
     FindImage.bounding_rects := fun _ => rects;
     FindImage.imdecode := decode_sample;
     FindImage.imwrite_ok := fun _ => true |}.

(** A parser that knows one document, the empty object: what
    [json.loads] does on [{}] and on a text that is no JSON. *)
Fixpoint same_text (a b : text) : bool :=
  match a, b with
  | [], [] => true
  | c :: a', d :: b' => N.eqb c d && same_text a' b'
  | _, _ => false
  end.

Definition loads_empty_object (content : text) : result value :=
  if same_text content (of_string "{}") then Ok (Obj []) else Raise ValueError.

(** A run without an API key, and one whose request is answered with the
    given status. *)
Definition no_key_world : ExtractImagesOpenai.world :=
  {| ExtractImagesOpenai.api_key := None;
     ExtractImagesOpenai.open_image := fun _ => Ok tt;
     ExtractImagesOpenai.post := Ok (200, Ok (of_string "{}"));
     ExtractImagesOpenai.loads := fun _ => Ok (Obj [("figures", Arr [chart])]);
     ExtractImagesOpenai.imread := fun _ => Some (1000, 1000) |}.

Definition status_world (status : Z) : ExtractImagesOpenai.world :=
  {| ExtractImagesOpenai.api_key := Some "sk-test";
     ExtractImagesOpenai.open_image := fun _ => Ok tt;
     ExtractImagesOpenai.post := Ok (status, Ok (of_string "{}"));
     ExtractImagesOpenai.loads := fun _ => Ok (Obj [("figures", Arr [chart])]);
     ExtractImagesOpenai.imread := fun _ => Some (1000, 1000) |}.

(** A run of the local script with layoutparser, which detects [layout]. *)
Definition layout_world (layout : list FindImage.block) : FindImage.world :=
  {| FindImage.layout_model := Ok tt;
     FindImage.detect := fun _ => Ok layout;
     FindImage.imread := fun _ => Some (1000, 1000);
     FindImage.bounding_rects := fun _ => [];
     FindImage.imdecode := decode_sample;
     FindImage.imwrite_ok := fun _ => true |}.

(** A run of the local script on a file that is not an image, where
    building the layout model ends as [model] says. *)
Definition unreadable_world (model : result unit) : FindImage.world :=
  {| FindImage.layout_model := model;
     FindImage.detect := fun _ => Ok [];
     FindImage.imread := fun _ => None;
     FindImage.bounding_rects := fun _ => [];
     FindImage.imdecode := fun _ => Ok None;
     FindImage.imwrite_ok := fun _ => true |}.

End Samples.

(* ===================================================================== *)
(** * Part II. Verification *)
(* ===================================================================== *)

(** ** Rounding to binary64 *)

Module Binary64Facts.

Import Binary64.
Local Open Scope Q_scope.

Lemma pow2_pos e : 0 < pow2 e.
Proof. apply Qpower_0_lt. reflexivity. Qed.

Lemma pow2_add a b : pow2 (a + b) == pow2 a * pow2 b.
Proof. apply Qpower_plus. discriminate. Qed.

Lemma pow2_cancel e : pow2 (- e) * pow2 e == 1.
Proof. rewrite <- pow2_add. replace (- e + e)%Z with 0%Z by lia. reflexivity. Qed.

Lemma pow2_Z e : (0 <= e)%Z -> pow2 e == inject_Z (2 ^ e).
Proof. intros H. symmetry. apply (Zpower_Qpower 2 e H). Qed.

Lemma pow2_le a b : (a <= b)%Z -> pow2 a <= pow2 b.
Proof. intros H. apply Qpower_le_compat_l; [exact H | discriminate]. Qed.

Lemma pow2_lt a b : (a < b)%Z -> pow2 a < pow2 b.
Proof. intros H. apply Qpower_lt_compat_l; [exact H | reflexivity]. Qed.

Lemma pow2_lt_inv a b : pow2 a < pow2 b -> (a < b)%Z.
Proof.
  intros H. destruct (Z_lt_le_dec a b) as [L | L]; [exact L |].
  apply pow2_le in L. lra.
Qed.

Lemma Qmake_mult_den n d : (n # d) * inject_Z (Zpos d) == inject_Z n.
Proof. unfold Qeq, Qmult, inject_Z; simpl. lia. Qed.

Lemma Qmult_le_cancel_pos x y z : 0 < z -> x * z <= y * z -> x <= y.
Proof. intros Hz H. apply Qmult_le_r in H; assumption. Qed.

Lemma Qmult_lt_cancel_pos x y z : 0 < z -> x * z < y * z -> x < y.
Proof. intros Hz H. apply Qmult_lt_r in H; assumption. Qed.

Lemma log2_bounds_Q n : (0 < n)%Z ->
  pow2 (Z.log2 n) <= inject_Z n /\ inject_Z n < pow2 (Z.log2 n + 1).
Proof.
  intros Hn. destruct (Z.log2_spec n Hn) as [L U].
  pose proof (Z.log2_nonneg n) as Hl.
  rewrite !pow2_Z by lia. split.
  - rewrite <- Zle_Qle. exact L.
  - rewrite <- Zlt_Qlt. replace (Z.log2 n + 1)%Z with (Z.succ (Z.log2 n)) by lia. exact U.
Qed.

Lemma ilog2_spec x : 0 < x -> pow2 (ilog2 x) <= x /\ x < pow2 (ilog2 x + 1).
Proof.
  destruct x as [n d]. intros Hx.
  assert (Hn : (0 < n)%Z) by (unfold Qlt in Hx; simpl in Hx; lia).
  unfold ilog2. cbn [Qnum Qden].
  destruct (log2_bounds_Q n Hn) as [Ln Un].
  destruct (log2_bounds_Q (Zpos d) eq_refl) as [Ld Ud].
  set (a := Z.log2 n) in *. set (b := Z.log2 (Zpos d)) in *.
  pose proof (Qmake_mult_den n d) as Hnd.
  assert (Hd : 0 < inject_Z (Zpos d)) by reflexivity.
  destruct (Qle_bool (pow2 (a - b)) (n # d)) eqn:E.
  - apply Qle_bool_iff in E. split; [exact E |].
    apply (Qmult_lt_cancel_pos _ _ (inject_Z (Zpos d)) Hd). rewrite Hnd.
    apply Qlt_le_trans with (1 := Un).
    replace (a + 1)%Z with ((a - b + 1) + b)%Z by lia. rewrite pow2_add.
    apply Qmult_le_l; [apply pow2_pos | exact Ld].
  - assert (E' : n # d < pow2 (a - b)).
    { apply Qnot_le_lt. intros C. apply Qle_bool_iff in C. congruence. }
    split.
    + apply (Qmult_le_cancel_pos _ _ (inject_Z (Zpos d)) Hd). rewrite Hnd.
      apply Qle_trans with (2 := Ln).
      replace a with ((a - b - 1) + (b + 1))%Z at 2 by lia. rewrite pow2_add.
      apply Qmult_le_l; [apply pow2_pos | apply Qlt_le_weak; exact Ud].
    + replace (a - b - 1 + 1)%Z with (a - b)%Z by lia. exact E'.
Qed.

Lemma ilog2_unique x k : pow2 k <= x -> x < pow2 (k + 1) -> ilog2 x = k.
Proof.
  intros L U.
  assert (Hx : 0 < x) by (pose proof (pow2_pos k); lra).
  destruct (ilog2_spec x Hx) as [L' U'].
  assert (pow2 k < pow2 (ilog2 x + 1)) by lra.
  assert (pow2 (ilog2 x) < pow2 (k + 1)) by lra.
  apply pow2_lt_inv in H, H0. lia.
Qed.

Lemma rne_cases y :
  rne y = Qfloor y \/
  (rne y = (Qfloor y + 1)%Z /\ 1 # 2 <= y - inject_Z (Qfloor y)).
Proof.
  unfold rne.
  destruct (Qcompare (y - inject_Z (Qfloor y)) (1 # 2)) eqn:E.
  - apply Qeq_alt in E. destruct (Z.even (Qfloor y)); [left; reflexivity |].
    right. split; [reflexivity | lra].
  - left; reflexivity.
  - apply Qgt_alt in E. right. split; [reflexivity | lra].
Qed.

Lemma rne_down y : y - inject_Z (Qfloor y) < 1 # 2 -> rne y = Qfloor y.
Proof. intros H. destruct (rne_cases y) as [E | [_ E]]; [exact E | lra]. Qed.

Lemma Qfloor_ge_int K y : inject_Z K <= y -> (K <= Qfloor y)%Z.
Proof. intros H. apply Qfloor_resp_le in H. rewrite Qfloor_Z in H. exact H. Qed.

Lemma Qfloor_unique K y : inject_Z K <= y -> y < inject_Z K + 1 -> Qfloor y = K.
Proof.
  intros L U. pose proof (Qfloor_ge_int K y L) as H1.
  pose proof (Qfloor_le y) as H2.
  assert (H3 : inject_Z (Qfloor y) < inject_Z (K + 1)).
  { rewrite inject_Z_plus. change (inject_Z 1) with 1. lra. }
  rewrite <- Zlt_Qlt in H3. lia.
Qed.

Lemma rne_ge_int K y : inject_Z K <= y -> (K <= rne y)%Z.
Proof.
  intros H. apply Qfloor_ge_int in H.
  destruct (rne_cases y) as [E | [E _]]; lia.
Qed.

Lemma rne_le_int K y : y <= inject_Z K -> (rne y <= K)%Z.
Proof.
  intros H. destruct (rne_cases y) as [E | [E F]].
  - rewrite E. pose proof (Qfloor_le y) as L.
    assert (inject_Z (Qfloor y) <= inject_Z K) by lra.
    rewrite <- Zle_Qle in H0. exact H0.
  - rewrite E.
    assert (inject_Z (Qfloor y) < inject_Z K) by lra.
    rewrite <- Zlt_Qlt in H0. lia.
Qed.

Lemma scale_back x e : x * pow2 (- e) * pow2 e == x.
Proof. rewrite <- Qmult_assoc, pow2_cancel. ring. Qed.

Lemma grid_shift G e e' : (e <= e')%Z ->
  inject_Z G * pow2 e' * pow2 (- e) == inject_Z (G * 2 ^ (e' - e)).
Proof.
  intros H. rewrite inject_Z_mult, <- pow2_Z by lia.
  replace (e' - e)%Z with (e' + - e)%Z by lia. rewrite pow2_add. ring.
Qed.

Lemma round_pos_normal x :
  0 < x -> (-1074 < ilog2 x - 52)%Z -> pow2 52 <= x * pow2 (- (ilog2 x - 52)).
Proof.
  intros Hx _. destruct (ilog2_spec x Hx) as [L _].
  apply (Qmult_le_cancel_pos _ _ (pow2 (ilog2 x - 52)) (pow2_pos _)).
  rewrite scale_back, <- pow2_add.
  replace (52 + (ilog2 x - 52))%Z with (ilog2 x) by lia. exact L.
Qed.

Lemma round_pos_lower x g : 0 < x -> representable g -> g <= x -> g <= round_pos x.
Proof.
  intros Hx (G & e' & HG & He' & Eg) Hle. unfold round_pos.
  set (e := Z.max (ilog2 x - 52) (-1074)).
  set (y := x * pow2 (- e)).
  pose proof (pow2_pos e) as Pe. pose proof (pow2_pos (- e)) as Pne.
  destruct (Z_le_gt_dec e e') as [C | C].
  - assert (Hy : inject_Z (G * 2 ^ (e' - e)) <= y).
    { rewrite <- grid_shift by exact C. rewrite <- Eg. unfold y.
      apply Qmult_le_compat_r; [exact Hle | apply Qlt_le_weak, Pne]. }
    apply rne_ge_int in Hy. rewrite Zle_Qle in Hy.
    apply (Qmult_le_compat_r _ _ (pow2 e)) in Hy; [| apply Qlt_le_weak, Pe].
    rewrite <- grid_shift in Hy by exact C. rewrite scale_back in Hy.
    rewrite Eg. exact Hy.
  - assert (He : e = (ilog2 x - 52)%Z) by lia.
    assert (Hy : inject_Z (2 ^ 52) <= y).
    { rewrite <- pow2_Z by lia. unfold y. rewrite He. apply round_pos_normal; [exact Hx | lia]. }
    apply rne_ge_int in Hy. rewrite Zle_Qle in Hy.
    apply (Qmult_le_compat_r _ _ (pow2 e)) in Hy; [| apply Qlt_le_weak, Pe].
    apply Qle_trans with (2 := Hy). rewrite Eg.
    apply Qle_trans with (inject_Z (2 ^ 53) * pow2 e').
    + apply Qmult_le_compat_r; [| apply Qlt_le_weak, pow2_pos].
      rewrite <- Zle_Qle. lia.
    + rewrite <- !pow2_Z by lia. rewrite <- !pow2_add. apply pow2_le. lia.
Qed.

Lemma round_pos_upper x g : 0 < x -> representable g -> x <= g -> round_pos x <= g.
Proof.
  intros Hx (G & e' & HG & He' & Eg) Hle. unfold round_pos.
  set (e := Z.max (ilog2 x - 52) (-1074)).
  set (y := x * pow2 (- e)).
  pose proof (pow2_pos e) as Pe. pose proof (pow2_pos (- e)) as Pne.
  destruct (Z_le_gt_dec e e') as [C | C].
  - assert (Hy : y <= inject_Z (G * 2 ^ (e' - e))).
    { rewrite <- grid_shift by exact C. rewrite <- Eg. unfold y.
      apply Qmult_le_compat_r; [exact Hle | apply Qlt_le_weak, Pne]. }
    apply rne_le_int in Hy. rewrite Zle_Qle in Hy.
    apply (Qmult_le_compat_r _ _ (pow2 e)) in Hy; [| apply Qlt_le_weak, Pe].
    rewrite <- grid_shift in Hy by exact C. rewrite scale_back in Hy.
    rewrite Eg. exact Hy.
  - assert (He : e = (ilog2 x - 52)%Z) by lia.
    assert (Hy : inject_Z (2 ^ 52) <= y).
    { rewrite <- pow2_Z by lia. unfold y. rewrite He. apply round_pos_normal; [exact Hx | lia]. }
    assert (Hg : g <= inject_Z (2 ^ 52) * pow2 e).
    { rewrite Eg. apply Qle_trans with (inject_Z (2 ^ 53) * pow2 e').
      - apply Qmult_le_compat_r; [| apply Qlt_le_weak, pow2_pos].
        rewrite <- Zle_Qle. lia.
      - rewrite <- !pow2_Z by lia. rewrite <- !pow2_add. apply pow2_le. lia. }
    assert (Hx' : inject_Z (2 ^ 52) * pow2 e <= x).
    { rewrite <- (scale_back x e). fold y.
      apply Qmult_le_compat_r; [exact Hy | apply Qlt_le_weak, Pe]. }
    assert (Hy' : y <= inject_Z (2 ^ 52)).
    { apply (Qmult_le_cancel_pos _ _ (pow2 e) Pe). unfold y. rewrite scale_back. lra. }
    apply rne_le_int in Hy'. rewrite Zle_Qle in Hy'.
    apply (Qmult_le_compat_r _ _ (pow2 e)) in Hy'; [| apply Qlt_le_weak, Pe].
    lra.
Qed.

(** A value less than half a grid step above a grid point rounds down to it. *)
Lemma round_pos_near x G e :
  (-1074 <= e)%Z ->
  ((2 ^ 52 <= G < 2 ^ 53) \/ (e = -1074 /\ 0 < G < 2 ^ 52))%Z ->
  inject_Z G * pow2 e <= x -> x - inject_Z G * pow2 e < pow2 (e - 1) ->
  round_pos x == inject_Z G * pow2 e.
Proof.
  intros He HG L U.
  pose proof (pow2_pos e) as Pe. pose proof (pow2_pos (- e)) as Pne.
  assert (Hhalf : pow2 (e - 1) * pow2 (- e) == 1 # 2).
  { rewrite <- pow2_add. replace (e - 1 + - e)%Z with (-1)%Z by lia. reflexivity. }
  assert (Hexp : Z.max (ilog2 x - 52) (-1074) = e).
  { destruct HG as [HG | [E HG]].
    - assert (ilog2 x = (e + 52)%Z); [| lia].
      apply ilog2_unique.
      + apply Qle_trans with (2 := L). rewrite pow2_add, Qmult_comm.
        apply Qmult_le_compat_r; [| apply Qlt_le_weak, Pe].
        rewrite pow2_Z by lia. rewrite <- Zle_Qle. lia.
      + assert (inject_Z G * pow2 e <= inject_Z (2 ^ 53 - 1) * pow2 e).
        { apply Qmult_le_compat_r; [| apply Qlt_le_weak, Pe]. rewrite <- Zle_Qle. lia. }
        assert (pow2 (e - 1) <= (1 # 2) * pow2 e).
        { replace (e - 1)%Z with (-1 + e)%Z by lia. rewrite pow2_add.
          change (pow2 (-1)) with (/ 2). apply Qle_refl. }
        replace (e + 52 + 1)%Z with (53 + e)%Z by lia. rewrite pow2_add.
        rewrite (pow2_Z 53) by lia.
        assert (inject_Z (2 ^ 53 - 1) == inject_Z (2 ^ 53) - 1).
        { unfold Z.sub. rewrite inject_Z_plus. reflexivity. }
        rewrite H1 in H. nra.
    - assert (Hx : 0 < x).
      { apply Qlt_le_trans with (2 := L). apply Qmult_lt_0_compat; [| exact Pe].
        change 0 with (inject_Z 0). rewrite <- Zlt_Qlt. lia. }
      destruct (ilog2_spec x Hx) as [Lx _].
      assert (x < pow2 (52 + e)).
      { rewrite pow2_add, pow2_Z by lia.
        assert (inject_Z G * pow2 e <= inject_Z (2 ^ 52 - 1) * pow2 e).
        { apply Qmult_le_compat_r; [| apply Qlt_le_weak, Pe]. rewrite <- Zle_Qle. lia. }
        assert (pow2 (e - 1) <= (1 # 2) * pow2 e).
        { replace (e - 1)%Z with (-1 + e)%Z by lia. rewrite pow2_add.
          change (pow2 (-1)) with (/ 2). apply Qle_refl. }
        assert (inject_Z (2 ^ 52 - 1) == inject_Z (2 ^ 52) - 1).
        { unfold Z.sub. rewrite inject_Z_plus. reflexivity. }
        rewrite H1 in H. nra. }
      assert (pow2 (ilog2 x) < pow2 (52 + e)) by lra.
      apply pow2_lt_inv in H0. lia. }
  unfold round_pos. rewrite Hexp.
  set (y := x * pow2 (- e)).
  assert (Ly : inject_Z G <= y).
  { apply (Qmult_le_cancel_pos _ _ (pow2 e) Pe). unfold y. rewrite scale_back. exact L. }
  assert (Uy : y - inject_Z G < 1 # 2).
  { rewrite <- Hhalf. unfold y.
    assert (x * pow2 (- e) - inject_Z G == (x - inject_Z G * pow2 e) * pow2 (- e)).
    { assert (E : (x - inject_Z G * pow2 e) * pow2 (- e)
                  == x * pow2 (- e) - inject_Z G * (pow2 (- e) * pow2 e)) by ring.
      rewrite E, pow2_cancel. ring. }
    rewrite H. apply Qmult_lt_compat_r; [exact Pne | exact U]. }
  assert (Fy : Qfloor y = G) by (apply Qfloor_unique; lra).
  rewrite rne_down by (rewrite Fy; exact Uy). rewrite Fy. reflexivity.
Qed.

(** Distribute [inject_Z] over the operations of an integer fact. *)
Ltac push_inject H :=
  repeat (rewrite inject_Z_plus in H || rewrite inject_Z_mult in H
          || rewrite inject_Z_opp in H).

Lemma representable_scaled G e :
  (Z.abs G <= 2 ^ 53)%Z -> (-1074 <= e)%Z -> representable (inject_Z G * pow2 e).
Proof. intros HG He. exists G, e. repeat split; try assumption. Qed.

Lemma representable_int K : (Z.abs K <= 2 ^ 53)%Z -> representable (inject_Z K).
Proof.
  intros HK. exists K, 0%Z. repeat split; [exact HK | lia |].
  change (pow2 0) with 1. ring.
Qed.

Lemma representable_eq g g' : g == g' -> representable g -> representable g'.
Proof.
  intros E (G & e & HG & He & Eg). exists G, e. repeat split; try assumption.
  rewrite <- E. exact Eg.
Qed.

(** [round_pos] returns a value of the grid. *)
Lemma round_pos_representable x : 0 < x -> representable (round_pos x).
Proof.
  intros Hx. unfold round_pos.
  set (e := Z.max (ilog2 x - 52) (-1074)).
  destruct (ilog2_spec x Hx) as [_ U].
  pose proof (pow2_pos (- e)) as Pne.
  assert (Hy : x * pow2 (- e) <= inject_Z (2 ^ 53)).
  { rewrite <- pow2_Z by lia.
    apply Qle_trans with (pow2 (ilog2 x + 1) * pow2 (- e)).
    - apply Qmult_le_compat_r; [apply Qlt_le_weak, U | apply Qlt_le_weak, Pne].
    - rewrite <- pow2_add. apply pow2_le. lia. }
  assert (Hy0 : inject_Z 0 <= x * pow2 (- e)).
  { change (inject_Z 0) with 0. apply Qmult_le_0_compat; apply Qlt_le_weak; assumption. }
  apply rne_le_int in Hy. apply rne_ge_int in Hy0.
  apply representable_scaled; lia.
Qed.

Lemma pow2_1023_representable : representable (pow2 1023).
Proof.
  apply (representable_eq (inject_Z (2 ^ 52) * pow2 971)).
  - rewrite <- (pow2_Z 52) by lia. rewrite <- pow2_add. reflexivity.
  - apply representable_scaled; lia.
Qed.

(** Below the overflow threshold [fl] is [round_pos], with the sign put
    back. *)
Lemma fl_pos x : 0 < x -> x <= pow2 1023 -> fl x = Finite (round_pos x).
Proof.
  intros Hx Hb. unfold fl.
  assert (E : Qcompare x 0 = Gt) by (apply Qgt_alt; exact Hx).
  rewrite E.
  pose proof (round_pos_upper x _ Hx pow2_1023_representable Hb) as Hr.
  destruct (Qle_bool (pow2 1024) (round_pos x)) eqn:C; [| reflexivity].
  apply Qle_bool_iff in C. pose proof (pow2_lt 1023 1024 eq_refl). lra.
Qed.

Lemma fl_neg x : x < 0 -> - x <= pow2 1023 -> fl x = Finite (- round_pos (- x)).
Proof.
  intros Hx Hb. unfold fl.
  assert (E : Qcompare x 0 = Lt) by (apply Qlt_alt; exact Hx).
  rewrite E.
  assert (Hx' : 0 < - x) by lra.
  pose proof (round_pos_upper (- x) _ Hx' pow2_1023_representable Hb) as Hr.
  destruct (Qle_bool (pow2 1024) (round_pos (- x))) eqn:C; [| reflexivity].
  apply Qle_bool_iff in C. pose proof (pow2_lt 1023 1024 eq_refl). lra.
Qed.

Lemma fl_zero x : x == 0 -> fl x = Finite 0.
Proof.
  intros Hx. unfold fl.
  assert (E : Qcompare x 0 = Eq) by (apply Qeq_alt; exact Hx).
  rewrite E. reflexivity.
Qed.

(** A value of the grid is its own rounding. *)
Lemma round_pos_exact x : 0 < x -> representable x -> round_pos x == x.
Proof.
  intros Hx Hr. apply Qle_antisym.
  - apply round_pos_upper; [exact Hx | exact Hr | apply Qle_refl].
  - apply round_pos_lower; [exact Hx | exact Hr | apply Qle_refl].
Qed.

Lemma Qtrunc_nonneg K q :
  (0 <= K)%Z -> inject_Z K <= q -> q < inject_Z K + 1 -> Qtrunc q = K.
Proof.
  intros HK L U. unfold Qtrunc.
  assert (Hn : (0 <= Qnum q)%Z).
  { assert (H0 : 0 <= q).
    { apply Qle_trans with (2 := L). change 0 with (inject_Z 0).
      rewrite <- Zle_Qle. exact HK. }
    unfold Qle in H0. simpl in H0. lia. }
  rewrite Z.quot_div_nonneg by lia.
  destruct q as [n d]. cbn [Qnum Qden].
  change (n / Zpos d)%Z with (Qfloor (n # d)). apply Qfloor_unique; assumption.
Qed.

Lemma Qtrunc_opp q : Qtrunc (- q) = (- Qtrunc q)%Z.
Proof. unfold Qtrunc. destruct q as [n d]. simpl. apply Z.quot_opp_l. discriminate. Qed.

(** The model against the Standard Library's IEEE-754 specification, on
    quotients of small integers and at the edges of the format. *)
Example fl_agrees_with_SFdiv :
  agree_on_quotients
    (map Z.of_nat (seq 0 40)
     ++ [99; 160; 199; 300; 1000; 2400; 30000; -1; -7; -160; 9007199254740991]%Z)%list
    [1; 2; 3; 7; 10; 50; 100; 1000]%Z = true.
Proof. vm_compute. reflexivity. Qed.

Example fl_agrees_at_the_edges :
  agree_on_scaled
    [(3, -1075); (1, -1075); (1, -1074); (5, -1076); (7, -1076);
     (9007199254740993, 0); (9007199254740995, 0); (9007199254740991, 971);
     (18014398509481983, 970); (18014398509481982, 970); (1, 1024);
     (-3, -1075); (-18014398509481983, 970); (9007199254740993, -1074);
     (9007199254740993, -1076); (9007199254740991, -1075)]%Z = true.
Proof. vm_compute. reflexivity. Qed.

End Binary64Facts.

(** ** Python arithmetic of the scripts *)

Module PyFacts.

Import Binary64 Binary64Facts Py.
Local Open Scope Q_scope.

Lemma pow2_m7 : pow2 (-7) == 1 # 128.
Proof. reflexivity. Qed.

(** The rounded hundredth of a positive integer below [2^52] has the same
    integer part as the exact quotient. *)
Lemma round_pos_hundredth m x :
  (0 < m < 2 ^ 52)%Z -> x == inject_Z m / 100 ->
  inject_Z (m / 100) <= round_pos x /\ round_pos x < inject_Z (m / 100) + 1.
Proof.
  intros Hm Ex.
  pose proof (Z.div_mod m 100 ltac:(lia)) as Hdm.
  pose proof (Z.mod_pos_bound m 100 ltac:(lia)) as Hmod.
  assert (HK : (0 <= m / 100 < 2 ^ 46)%Z).
  { split; [apply Z.div_pos; lia | apply Z.div_lt_upper_bound; lia]. }
  remember (m / 100)%Z as K eqn:EK.
  assert (Em : inject_Z m == 100 * x) by (rewrite Ex; field).
  assert (L : (100 * K <= m)%Z) by lia.
  assert (U : (m <= 100 * K + 99)%Z) by lia.
  rewrite Zle_Qle in L, U. push_inject L. push_inject U.
  change (inject_Z 100) with 100 in L, U. change (inject_Z 99) with 99 in U.
  assert (Hx : 0 < x).
  { assert (0 < inject_Z m) by (change 0 with (inject_Z 0); rewrite <- Zlt_Qlt; lia). lra. }
  split.
  - apply round_pos_lower; [exact Hx | apply representable_int; lia | lra].
  - set (G := ((K + 1) * 128 - 1)%Z).
    assert (EG : inject_Z G == (inject_Z K + 1) * 128 - 1).
    { unfold G, Z.sub. rewrite inject_Z_plus, inject_Z_mult, inject_Z_plus. reflexivity. }
    apply Qle_lt_trans with (inject_Z G * pow2 (-7)).
    + apply round_pos_upper; [exact Hx | apply representable_scaled; unfold G; lia |].
      rewrite pow2_m7, EG. lra.
    + rewrite pow2_m7, EG. lra.
Qed.

(** [int(n / 100)] truncates the exact quotient toward zero, for every
    integer of magnitude below [2^52]. *)
Lemma int_truediv_100 n :
  (Z.abs n < 2 ^ 52)%Z ->
  rbind (truediv (Int n) (Int 100)) int = Ok (Z.quot n 100).
Proof.
  intros Hn. unfold truediv. change (100 =? 0)%Z with false. cbv iota.
  assert (B : pow2 52 <= pow2 1023) by (apply pow2_le; lia).
  destruct (Z.lt_trichotomy n 0) as [Neg | [Zero | Pos]].
  - set (m := (- n)%Z).
    assert (Hm : (0 < m < 2 ^ 52)%Z) by (unfold m; lia).
    assert (Ex : - (inject_Z n / inject_Z 100) == inject_Z m / 100).
    { unfold m. rewrite inject_Z_opp. change (inject_Z 100) with 100. field. }
    destruct (round_pos_hundredth m _ Hm Ex) as [L U].
    assert (Hx : inject_Z n / inject_Z 100 < 0).
    { assert (0 < inject_Z m) by (change 0 with (inject_Z 0); rewrite <- Zlt_Qlt; lia).
      assert (0 < inject_Z m / 100) by (apply Qlt_shift_div_l; lra). lra. }
    rewrite fl_neg.
    + cbn [rbind int]. rewrite Qtrunc_opp.
      rewrite (Qtrunc_nonneg (m / 100)); try assumption.
      * f_equal. unfold m. rewrite <- Z.quot_div_nonneg by lia.
        rewrite Z.quot_opp_l by lia. lia.
      * apply Z.div_pos; lia.
    + exact Hx.
    + rewrite Ex. apply Qle_trans with (2 := B). rewrite pow2_Z by lia.
      apply Qle_shift_div_r; [reflexivity |].
      assert (inject_Z m <= inject_Z (2 ^ 52)) by (rewrite <- Zle_Qle; lia).
      assert (0 <= inject_Z (2 ^ 52)) by (change 0 with (inject_Z 0); rewrite <- Zle_Qle; lia).
      lra.
  - subst n. reflexivity.
  - assert (Hm : (0 < n < 2 ^ 52)%Z) by lia.
    assert (Ex : inject_Z n / inject_Z 100 == inject_Z n / 100) by reflexivity.
    destruct (round_pos_hundredth n _ Hm Ex) as [L U].
    assert (Hx : 0 < inject_Z n / inject_Z 100).
    { assert (0 < inject_Z n) by (change 0 with (inject_Z 0); rewrite <- Zlt_Qlt; lia).
      apply Qlt_shift_div_l; [reflexivity | lra]. }
    rewrite fl_pos.
    + cbn [rbind int]. rewrite (Qtrunc_nonneg (n / 100)); try assumption.
      * f_equal. rewrite Z.quot_div_nonneg by lia. reflexivity.
      * apply Z.div_pos; lia.
    + exact Hx.
    + apply Qle_trans with (2 := B). rewrite pow2_Z by lia.
      apply Qle_shift_div_r; [reflexivity |].
      assert (inject_Z n <= inject_Z (2 ^ 52)) by (rewrite <- Zle_Qle; lia).
      assert (0 <= inject_Z (2 ^ 52)) by (change 0 with (inject_Z 0); rewrite <- Zle_Qle; lia).
      change (inject_Z 100) with 100. lra.
Qed.

End PyFacts.

(** ** Events of a computation *)

Module EffectsFacts.

Import Py Effects.

Lemma events_bind {A B} (m : M A) (k : A -> M B) :
  events (bind m k) =
  match outcome m with
  | Ok a => (events m ++ events (k a))%list
  | Raise _ => events m
  end.
Proof.
  destruct m as [l [a | e]]; simpl; [| reflexivity].
  destruct (k a); reflexivity.
Qed.

Lemma outcome_bind {A B} (m : M A) (k : A -> M B) :
  outcome (bind m k) =
  match outcome m with
  | Ok a => outcome (k a)
  | Raise e => Raise e
  end.
Proof.
  destruct m as [l [a | e]]; simpl; [| reflexivity].
  destruct (k a); reflexivity.
Qed.

Lemma imwrites_app l1 l2 : imwrites (l1 ++ l2) = (imwrites l1 ++ imwrites l2)%list.
Proof.
  induction l1 as [| ev l1 IH]; [reflexivity |].
  destruct ev; simpl; rewrite IH; reflexivity.
Qed.

Lemma written_app l1 l2 : written (l1 ++ l2) = (written l1 ++ written l2)%list.
Proof. unfold written. rewrite imwrites_app, map_app. reflexivity. Qed.

(** Run the binds at the head of a computation. *)
Ltac run_step :=
  repeat (progress
    (rewrite ?events_bind, ?outcome_bind;
     cbn [emit lift ret raise outcome events snd fst negb app imwrites written map])).

Lemma written_bind_in {A B} (m : M A) (k : A -> M B) (p : string) :
  In p (written (events (bind m k))) ->
  In p (written (events m))
  \/ exists a, outcome m = Ok a /\ In p (written (events (k a))).
Proof.
  rewrite events_bind. destruct (outcome m) as [a | e]; [| auto].
  rewrite written_app, in_app_iff.
  intros [H | H]; [left; exact H | right; exists a; auto].
Qed.

End EffectsFacts.

(** ** The remote pipeline *)

Module ExtractImagesOpenaiFacts.

Import Binary64 Binary64Facts Py PyFacts Json OsPath Text Effects EffectsFacts ExtractImagesOpenai.
Local Open Scope string_scope.
Local Open Scope Z_scope.

(** *** Clamping *)

Lemma clamp_within (r : region) (img_width img_height : Z) :
  let c := clamp r img_width img_height in
  0 <= x c /\ 0 <= y c /\ x c + w c <= img_width /\ y c + h c <= img_height.
Proof. destruct r as [x0 y0 w0 h0]. unfold clamp. simpl. lia. Qed.

Lemma normalize_clamped figure img_width img_height padding_percent r :
  normalize figure img_width img_height padding_percent = Ok r ->
  exists r', r = clamp r' img_width img_height.
Proof.
  unfold normalize, pad_and_clamp. intros H.
  destruct (get figure "bbox" (Obj [])) as [bbox |]; [| discriminate].
  cbn [rbind] in H.
  destruct (percent_to_pixels bbox img_width img_height) as [r0 |]; [| discriminate].
  cbn [rbind] in H.
  destruct (apply_padding r0 padding_percent) as [r1 |]; [| discriminate].
  cbn [rbind] in H. injection H as <-. exists r1. reflexivity.
Qed.

Lemma normalize_within figure img_width img_height padding_percent r :
  normalize figure img_width img_height padding_percent = Ok r ->
  0 <= x r /\ 0 <= y r /\ x r + w r <= img_width /\ y r + h r <= img_height.
Proof.
  intros H. apply normalize_clamped in H as [r' ->]. apply clamp_within.
Qed.

Lemma normalize_dict figure img_width img_height padding_percent r :
  normalize figure img_width img_height padding_percent = Ok r ->
  exists kv, figure = Obj kv.
Proof.
  unfold normalize. destruct figure; try discriminate. intros _. eexists; reflexivity.
Qed.

(** *** The loop, through the figures it keeps *)

Definition crop_of (output_folder base : string) (ir : nat * region)
  : string * content :=
  (figure_path output_folder base (fst ir),
   Crop (x (snd ir)) (y (snd ir)) (w (snd ir)) (h (snd ir))).

(** One turn of the loop. *)
Lemma extract_loop_cons img_width img_height padding_percent output_folder base
  i figure rest acc :
  extract_loop img_width img_height padding_percent output_folder base i
               (figure :: rest) acc =
  match normalize figure img_width img_height padding_percent with
  | Raise e => ([], Raise e)
  | Ok r =>
      if survives r then
        let path := figure_path output_folder base i in
        let m := extract_loop img_width img_height padding_percent output_folder
                              base (S i) rest (acc ++ [path]) in
        (ImWrite path (Crop (x r) (y r) (w r) (h r))
         :: Stderr (Extracted i
              (match figure with
               | Obj kv => match lookup "type" kv with Some v => v | None => Str "unknown" end
               | _ => Null
               end)
              (match figure with
               | Obj kv => match lookup "description" kv with
                           | Some v => v
                           | None => Str "no description"
                           end
               | _ => Null
               end))
         :: events m, outcome m)
      else extract_loop img_width img_height padding_percent output_folder
                        base (S i) rest acc
  end.
Proof.
  cbn [extract_loop].
  destruct (normalize figure img_width img_height padding_percent) as [r | e] eqn:N;
    [| reflexivity].
  destruct (normalize_dict _ _ _ _ _ N) as [kv ->].
  unfold lift at 1. cbn [bind].
  destruct (survives r).
  - cbn [get lift emit bind].
    destruct (extract_loop _ _ _ _ _ (S i) rest _) as [l res]. reflexivity.
  - destruct (extract_loop _ _ _ _ _ (S i) rest _) as [l res]. reflexivity.
Qed.

Lemma extract_loop_imwrites img_width img_height padding_percent output_folder base
  figures : forall i acc,
  imwrites (events (extract_loop img_width img_height padding_percent
                                 output_folder base i figures acc)) =
  map (crop_of output_folder base)
      (kept img_width img_height padding_percent i figures).
Proof.
  induction figures as [| figure rest IH]; intros i acc; [reflexivity |].
  rewrite extract_loop_cons. cbn [kept].
  destruct (normalize figure img_width img_height padding_percent) as [r | e];
    [| reflexivity].
  destruct (survives r).
  - cbn [events fst imwrites map]. rewrite IH. reflexivity.
  - apply IH.
Qed.

Lemma extract_loop_outcome img_width img_height padding_percent output_folder base
  figures : forall i acc paths,
  outcome (extract_loop img_width img_height padding_percent
                        output_folder base i figures acc) = Ok paths ->
  paths = (acc ++ written (events (extract_loop img_width img_height padding_percent
                                               output_folder base i figures acc)))%list.
Proof.
  induction figures as [| figure rest IH]; intros i acc paths.
  - cbn. intros [= <-]. rewrite app_nil_r. reflexivity.
  - rewrite extract_loop_cons.
    destruct (normalize figure img_width img_height padding_percent) as [r | e];
      [| discriminate].
    destruct (survives r).
    + cbn [events outcome fst snd]. intros H. rewrite (IH _ _ _ H) at 1.
      unfold written. cbn [imwrites map fst]. rewrite <- app_assoc. reflexivity.
    + apply IH.
Qed.

Lemma kept_length img_width img_height padding_percent figures : forall i,
  (List.length (kept img_width img_height padding_percent i figures)
   <= List.length figures)%nat.
Proof.
  induction figures as [| figure rest IH]; intros i; [apply Nat.le_refl |].
  cbn [kept List.length].
  destruct (normalize figure img_width img_height padding_percent) as [r |];
    [| apply Nat.le_0_l].
  destruct (survives r); cbn [List.length]; specialize (IH (S i)); lia.
Qed.

(** Every kept entry is a figure of the list that normalized to a surviving
    region. *)
Lemma kept_sound img_width img_height padding_percent figures : forall i j r,
  In (j, r) (kept img_width img_height padding_percent i figures) ->
  exists figure,
    (i <= j)%nat /\ nth_error figures (j - i) = Some figure /\
    normalize figure img_width img_height padding_percent = Ok r /\
    survives r = true.
Proof.
  induction figures as [| figure rest IH]; intros i j r; [intros [] |].
  cbn [kept].
  destruct (normalize figure img_width img_height padding_percent) as [r0 |] eqn:N;
    [| intros []].
  destruct (survives r0) eqn:S0.
  - intros [[= <- <-] | H].
    + exists figure. rewrite Nat.sub_diag. repeat split; auto.
    + destruct (IH _ _ _ H) as (f & Hle & Hn & Hr & Hs).
      exists f. repeat split; try assumption; try lia.
      replace (j - i)%nat with (S (j - S i)) by lia. exact Hn.
  - intros H. destruct (IH _ _ _ H) as (f & Hle & Hn & Hr & Hs).
    exists f. repeat split; try assumption; try lia.
    replace (j - i)%nat with (S (j - S i)) by lia. exact Hn.
Qed.

(** *** The whole extraction *)

Lemma falsy_provides_nothing figures :
  truthy figures = false ->
  match iterate figures with Ok items => items | Raise _ => [] end = [].
Proof.
  destruct figures as [| b | n | s | l | kv]; cbn; try reflexivity.
  - destruct s; [reflexivity | discriminate].
  - destruct l; [reflexivity | discriminate].
  - destruct kv; [reflexivity | discriminate].
Qed.

Lemma extract_figures_imwrites W image_path output_folder padding_percent :
  imwrites (events (extract_figures_from_image W image_path output_folder
                                               padding_percent)) =
  match imread W image_path with
  | Some (img_height, img_width) =>
      map (crop_of output_folder (base_filename image_path))
          (kept img_width img_height padding_percent 0 (provided W image_path))
  | None => []
  end.
Proof.
  unfold extract_figures_from_image, provided.
  destruct (imread W image_path) as [[img_height img_width] |];
    run_step;
    (destruct (detect_figure_regions_with_openai W image_path) as [result |];
     run_step; [| reflexivity]);
    (destruct (get result "figures" (Arr [])) as [figures |];
     run_step; [| reflexivity]);
    destruct (truthy figures) eqn:T; run_step;
    try rewrite (falsy_provides_nothing _ T); try reflexivity.
  destruct (iterate figures) as [items |]; run_step; [| reflexivity].
  apply extract_loop_imwrites.
Qed.

Lemma extract_figures_outcome W image_path output_folder padding_percent paths :
  outcome (extract_figures_from_image W image_path output_folder padding_percent)
  = Ok paths ->
  paths = written (events (extract_figures_from_image W image_path output_folder
                                                      padding_percent)).
Proof.
  unfold written. rewrite extract_figures_imwrites.
  unfold extract_figures_from_image, provided.
  destruct (imread W image_path) as [[img_height img_width] |];
    run_step;
    (destruct (detect_figure_regions_with_openai W image_path) as [result |];
     run_step; [| discriminate]);
    (destruct (get result "figures" (Arr [])) as [figures |];
     run_step; [| discriminate]);
    destruct (truthy figures) eqn:T; run_step;
    try rewrite (falsy_provides_nothing _ T);
    try discriminate; try (intros [= <-]; reflexivity).
  destruct (iterate figures) as [items |]; run_step; [| discriminate].
  intros H. apply extract_loop_outcome in H. cbn [app] in H.
  unfold written in H. rewrite extract_loop_imwrites in H. exact H.
Qed.

Lemma survives_true r : survives r = true <-> 0 < w r /\ 0 < h r.
Proof. unfold survives. rewrite andb_true_iff, !Z.ltb_lt. reflexivity. Qed.

(** C1. Every region that the remote pipeline crops lies inside the image:
    for any answer of the provider, any image shape and any padding, a
    crop [(x, y, w, h)] given to [cv2.imwrite] has [0 <= x], [0 <= y],
    [x + w <= img_width] and [y + h <= img_height] (and is not empty). *)
Theorem cropped_region_within_image
  (W : world) (image_path output_folder : string) (padding_percent : num)
  (img_height img_width : Z) (path : string) (x0 y0 w0 h0 : Z) :
  imread W image_path = Some (img_height, img_width) ->
  In (path, Crop x0 y0 w0 h0)
     (imwrites (events (extract_figures_from_image W image_path output_folder
                                                   padding_percent))) ->
  0 <= x0 /\ 0 <= y0 /\ x0 + w0 <= img_width /\ y0 + h0 <= img_height
  /\ 0 < w0 /\ 0 < h0.
Proof.
  intros Him Hin. rewrite extract_figures_imwrites, Him in Hin.
  apply in_map_iff in Hin as [[j r] [E Hk]].
  unfold crop_of in E. cbn [fst snd] in E. injection E as _ <- <- <- <-.
  destruct (kept_sound _ _ _ _ _ _ _ Hk) as (figure & _ & _ & Hn & Hs).
  apply normalize_within in Hn. apply survives_true in Hs. lia.
Qed.

Lemma cropped_region_within_image_witness :
  0 <= 76 /\ 0 <= 168 /\ 76 + 348 <= 1000 /\ 168 + 464 <= 1000 /\ 0 < 348 /\ 0 < 464.
Proof.
  apply (cropped_region_within_image
           (Samples.remote_world (Obj [("figures", Arr [Samples.chart])]))
           "notes.jpg" "out" (Int 8) 1000 1000 "out/notes_figure_0.jpg").
  - reflexivity.
  - vm_compute. left. reflexivity.
Defined.

(** *** Conversion and padding *)

Lemma to_pixels_int pct dim :
  Z.abs (pct * dim) < 2 ^ 52 ->
  to_pixels (Num (Int pct)) dim = Ok (Z.quot (pct * dim) 100).
Proof. intros H. exact (int_truediv_100 _ H). Qed.

Lemma padding_int size p :
  Z.abs (size * p) < 2 ^ 52 -> padding size (Int p) = Ok (Z.quot (size * p) 100).
Proof. intros H. exact (int_truediv_100 _ H). Qed.

(** C6. The worked example: on a 1000 by 1000 image the bbox
    [{x:10, y:20, width:30, height:40}] becomes [(100, 200, 300, 400)] with
    padding 0; with padding 8 the paddings are 24 and 32 and the region is
    [(76, 168, 348, 464)]. *)
Theorem worked_example_1000 :
  percent_to_pixels Samples.bbox_10_20_30_40 1000 1000 = Ok (Region 100 200 300 400)
  /\ normalize Samples.chart 1000 1000 (Int 0) = Ok (Region 100 200 300 400)
  /\ padding 300 (Int 8) = Ok 24
  /\ padding 400 (Int 8) = Ok 32
  /\ normalize Samples.chart 1000 1000 (Int 8) = Ok (Region 76 168 348 464).
Proof. repeat split; vm_compute; reflexivity. Qed.

(** C4. On a rectangle that already lies inside the image, padding by 0
    percent and clamping changes nothing. *)
Theorem pad_and_clamp_idempotent (r : region) (img_width img_height : Z) :
  0 <= x r -> 0 <= y r -> x r + w r <= img_width -> y r + h r <= img_height ->
  pad_and_clamp r (Int 0) img_width img_height = Ok r.
Proof.
  intros Hx Hy Hw Hh. unfold pad_and_clamp, apply_padding.
  assert (P : forall size, padding size (Int 0) = Ok 0).
  { intros size. unfold padding. cbn [mul rbind]. rewrite Z.mul_0_r.
    exact (int_truediv_100 0 eq_refl). }
  rewrite !P. cbn [rbind]. destruct r as [x0 y0 w0 h0]. cbn [x y w h] in *.
  unfold clamp. cbn [x y w h]. f_equal. f_equal; lia.
Qed.

Lemma pad_and_clamp_idempotent_witness :
  pad_and_clamp (Region 76 168 348 464) (Int 0) 1000 1000
  = Ok (Region 76 168 348 464).
Proof.
  apply (pad_and_clamp_idempotent (Region 76 168 348 464) 1000 1000);
    cbn [x y w h]; lia.
Defined.

(** C2, as stated, fails: [int(...)] does not round to the nearest integer.
    1 percent of a width of 160 is 1.6 pixels; the script yields 1, the
    nearest integer is 2. *)
Lemma to_pixels_is_not_rounding :
  to_pixels (Num (Int 1)) 160 = Ok 1 /\ rounded_pixels 1 160 = 2
  /\ to_pixels (Num (Int 1)) 160 <> Ok (rounded_pixels 1 160).
Proof. repeat split; try (vm_compute; reflexivity). vm_compute. discriminate. Qed.

(** C2, amended. For integer percentages and an integer padding percent
    (products below [2^52] in magnitude) every conversion truncates toward
    zero: each bbox field [v] becomes [v * dim / 100] truncated, the
    paddings are [w * p / 100] and [h * p / 100] truncated, and the region is
    expanded by them on both sides. *)
Theorem pixels_and_padding_truncate
  (bbox : list (string * value)) (px py pw ph : Z)
  (img_width img_height : Z) (r : region) (p : Z) :
  lookup "x" bbox = Some (Num (Int px)) ->
  lookup "y" bbox = Some (Num (Int py)) ->
  lookup "width" bbox = Some (Num (Int pw)) ->
  lookup "height" bbox = Some (Num (Int ph)) ->
  Z.abs (px * img_width) < 2 ^ 52 -> Z.abs (py * img_height) < 2 ^ 52 ->
  Z.abs (pw * img_width) < 2 ^ 52 -> Z.abs (ph * img_height) < 2 ^ 52 ->
  Z.abs (w r * p) < 2 ^ 52 -> Z.abs (h r * p) < 2 ^ 52 ->
  percent_to_pixels (Obj bbox) img_width img_height
  = Ok (Region (Z.quot (px * img_width) 100) (Z.quot (py * img_height) 100)
               (Z.quot (pw * img_width) 100) (Z.quot (ph * img_height) 100))
  /\ padding (w r) (Int p) = Ok (Z.quot (w r * p) 100)
  /\ padding (h r) (Int p) = Ok (Z.quot (h r * p) 100)
  /\ apply_padding r (Int p)
     = Ok (Region (x r - Z.quot (w r * p) 100) (y r - Z.quot (h r * p) 100)
                  (w r + Z.quot (w r * p) 100 * 2) (h r + Z.quot (h r * p) 100 * 2)).
Proof.
  intros Lx Ly Lw Lh Bx By Bw Bh Pw Ph.
  split; [| split; [| split]].
  - unfold percent_to_pixels. cbn [get rbind]. rewrite Lx, Ly, Lw, Lh.
    rewrite !to_pixels_int by assumption. reflexivity.
  - apply padding_int; assumption.
  - apply padding_int; assumption.
  - unfold apply_padding. rewrite !padding_int by assumption. reflexivity.
Qed.

Lemma pixels_and_padding_truncate_witness :
  percent_to_pixels (Obj [("x", Num (Int 1)); ("y", Num (Int (-1)));
                          ("width", Num (Int 33)); ("height", Num (Int 99))]) 160 90
  = Ok (Region 1 0 52 89)
  /\ padding 52 (Int 8) = Ok 4
  /\ padding 89 (Int 8) = Ok 7
  /\ apply_padding (Region 1 0 52 89) (Int 8) = Ok (Region (-3) (-7) 60 103).
Proof.
  apply (pixels_and_padding_truncate
           [("x", Num (Int 1)); ("y", Num (Int (-1)));
            ("width", Num (Int 33)); ("height", Num (Int 99))]
           1 (-1) 33 99 160 90 (Region 1 0 52 89) 8);
    try reflexivity; cbn [x y w h]; lia.
Defined.

(** *** Missing fields *)

Lemma percent_to_pixels_defaults (bbox : list (string * value))
  (img_width img_height : Z) :
  percent_to_pixels (Obj bbox) img_width img_height
  = percent_to_pixels (Obj (with_defaults bbox)) img_width img_height.
Proof. reflexivity. Qed.

Lemma to_pixels_full dim : 0 <= dim -> 100 * dim < 2 ^ 52 ->
  to_pixels (Num (Int 100)) dim = Ok dim.
Proof.
  intros H0 H. rewrite to_pixels_int by lia. f_equal.
  rewrite Z.mul_comm. apply Z.quot_mul. lia.
Qed.

Lemma to_pixels_zero dim : to_pixels (Num (Int 0)) dim = Ok 0.
Proof. rewrite to_pixels_int by (cbn; lia). reflexivity. Qed.

(** The full image, padded by a non-negative percent and clamped, is the
    full image. *)
Lemma pad_and_clamp_full_image (img_width img_height p : Z) :
  1 <= img_width -> 1 <= img_height -> 0 <= p ->
  img_width * p < 2 ^ 52 -> img_height * p < 2 ^ 52 ->
  pad_and_clamp (Region 0 0 img_width img_height) (Int p) img_width img_height
  = Ok (Region 0 0 img_width img_height).
Proof.
  intros Hw Hh Hp Bw Bh. unfold pad_and_clamp, apply_padding. cbn [x y w h].
  rewrite !padding_int by (rewrite Z.abs_eq; nia). cbn [rbind].
  assert (0 <= Z.quot (img_width * p) 100) by (apply Z.quot_pos; nia).
  assert (0 <= Z.quot (img_height * p) 100) by (apply Z.quot_pos; nia).
  unfold clamp. cbn [x y w h]. f_equal. f_equal; lia.
Qed.

(** C10. A figure without a bbox, or whose bbox has none of the four
    fields, is not an error: missing fields take the defaults x = 0, y = 0,
    width = 100, height = 100, the figure is normalized to the full image,
    and the loop writes the crop of the whole image for it. *)
Theorem missing_bbox_is_whole_image
  (figure : list (string * value)) (img_width img_height p : Z)
  (output_folder base : string) (i : nat) (rest : list value)
  (extracted_paths : list string) :
  1 <= img_width -> 1 <= img_height -> 0 <= p ->
  100 * img_width < 2 ^ 52 -> 100 * img_height < 2 ^ 52 ->
  img_width * p < 2 ^ 52 -> img_height * p < 2 ^ 52 ->
  lookup "bbox" figure = None \/
  (exists bbox, lookup "bbox" figure = Some (Obj bbox) /\
     lookup "x" bbox = None /\ lookup "y" bbox = None /\
     lookup "width" bbox = None /\ lookup "height" bbox = None) ->
  (forall bbox, percent_to_pixels (Obj bbox) img_width img_height
                = percent_to_pixels (Obj (with_defaults bbox)) img_width img_height)
  /\ normalize (Obj figure) img_width img_height (Int p)
     = Ok (Region 0 0 img_width img_height)
  /\ exists evs,
       events (extract_loop img_width img_height (Int p) output_folder base i
                            (Obj figure :: rest) extracted_paths)
       = ImWrite (figure_path output_folder base i) (Crop 0 0 img_width img_height)
         :: evs.
Proof.
  intros Hw Hh Hp Bw Bh Pw Ph Hmiss.
  assert (N : normalize (Obj figure) img_width img_height (Int p)
              = Ok (Region 0 0 img_width img_height)).
  { assert (E : forall bbox,
               lookup "x" bbox = None -> lookup "y" bbox = None ->
               lookup "width" bbox = None -> lookup "height" bbox = None ->
               percent_to_pixels (Obj bbox) img_width img_height
               = Ok (Region 0 0 img_width img_height)).
    { intros bbox Lx Ly Lw Lh. unfold percent_to_pixels. cbn [get rbind].
      rewrite Lx, Ly, Lw, Lh.
      rewrite !to_pixels_zero, !to_pixels_full by lia. reflexivity. }
    unfold normalize. cbn [get rbind].
    destruct Hmiss as [-> | (bbox & -> & Lx & Ly & Lw & Lh)].
    - rewrite (E []) by reflexivity. cbn [rbind].
      apply pad_and_clamp_full_image; assumption.
    - rewrite (E bbox) by assumption. cbn [rbind].
      apply pad_and_clamp_full_image; assumption. }
  split; [intros bbox; apply percent_to_pixels_defaults |].
  split; [exact N |].
  rewrite extract_loop_cons, N.
  assert (S : survives (Region 0 0 img_width img_height) = true)
    by (apply survives_true; cbn [w h]; lia).
  rewrite S. cbn [events fst x y w h]. eexists. reflexivity.
Qed.

Lemma missing_bbox_is_whole_image_witness :
  normalize Samples.no_bbox 640 480 (Int 8) = Ok (Region 0 0 640 480).
Proof.
  apply (missing_bbox_is_whole_image [("type", Str "table")] 640 480 8
           "out" "notes" 0 [] []); try lia.
  left. reflexivity.
Defined.

(** *** No figures *)

(** C8. An answer without a [figures] key counts as an empty list, not as
    an error; for it, as for [{"figures": []}], nothing is written and the
    report is the success object with [extracted_count] 0. *)
Theorem no_figures_is_empty_success
  (W : world) (image_path output_folder : string) (padding_percent : Z)
  (answer : list (string * value)) :
  detect_figure_regions_with_openai W image_path = Ok (Obj answer) ->
  lookup "figures" answer = None \/ lookup "figures" answer = Some (Arr []) ->
  extract_figures_from_image W image_path output_folder (Int padding_percent)
  = ([MakeDirs output_folder; Stderr Analyzing], Ok [])
  /\ written (events (extract_figures_from_image W image_path output_folder
                                                 (Int padding_percent))) = []
  /\ main W image_path output_folder padding_percent
     = ([MakeDirs output_folder; Stderr Analyzing; Stdout (Success 0 [])], 0).
Proof.
  intros Hd Hf.
  assert (E : extract_figures_from_image W image_path output_folder (Int padding_percent)
              = ([MakeDirs output_folder; Stderr Analyzing], Ok [])).
  { unfold extract_figures_from_image. rewrite Hd. cbn [emit lift bind get].
    destruct Hf as [-> | ->]; reflexivity. }
  split; [exact E |]. split.
  - rewrite E. reflexivity.
  - unfold main. rewrite E. reflexivity.
Qed.

Lemma no_figures_is_empty_success_witness :
  main (Samples.remote_world (Obj [("figures", Arr [])])) "notes.jpg" "out" 8
  = ([MakeDirs "out"; Stderr Analyzing; Stdout (Success 0 [])], 0).
Proof.
  apply (no_figures_is_empty_success
           (Samples.remote_world (Obj [("figures", Arr [])])) "notes.jpg" "out" 8
           [("figures", Arr [])]).
  - reflexivity.
  - right. reflexivity.
Defined.

End ExtractImagesOpenaiFacts.

(** ** Output paths *)

Module OsPathFacts.

Import OsPath.
Local Open Scope string_scope.

Lemma append_inv_head (a b c : string) : a ++ b = a ++ c -> b = c.
Proof.
  induction a as [| ch a IH]; cbn; [auto |].
  intros [= H]. apply IH, H.
Qed.

Lemma list_of_append (a b : string) :
  list_ascii_of_string (a ++ b)
  = (list_ascii_of_string a ++ list_ascii_of_string b)%list.
Proof. induction a as [| ch a IH]; cbn; [reflexivity | rewrite IH; reflexivity]. Qed.

Lemma append_inv_tail (a b c : string) : a ++ c = b ++ c -> a = b.
Proof.
  intros H. apply (f_equal list_ascii_of_string) in H.
  rewrite !list_of_append in H. apply app_inv_tail in H.
  rewrite <- (string_of_list_ascii_of_string a), H.
  apply string_of_list_ascii_of_string.
Qed.

Lemma append_assoc (a b c : string) : (a ++ b) ++ c = a ++ (b ++ c).
Proof. induction a as [| ch a IH]; cbn; [reflexivity | rewrite IH; reflexivity]. Qed.

Lemma str_inj (i j : nat) : str i = str j -> i = j.
Proof.
  unfold str. intros H. apply Unsigned.to_uint_inj.
  pose proof (NilEmpty.usu (Nat.to_uint i)) as Hi.
  rewrite H, NilEmpty.usu in Hi. injection Hi as Hi. symmetry. exact Hi.
Qed.

(** [join] puts a prefix that depends only on the folder and on the first
    character of the name in front of the name. *)
Lemma join_prefix (folder base t : string) :
  exists pre, forall u, join folder (base ++ "_" ++ u) = pre ++ base ++ "_" ++ u.
Proof.
  unfold join.
  assert (S : forall u, starts_with_sep (base ++ "_" ++ u) = starts_with_sep (base ++ "_")).
  { intros u. destruct base; reflexivity. }
  destruct (starts_with_sep (base ++ "_")) eqn:E.
  - exists "". intros u. rewrite S. reflexivity.
  - destruct (String.eqb folder "" || ends_with_sep folder)%bool.
    + exists folder. intros u. rewrite S. reflexivity.
    + exists (folder ++ "/"). intros u. rewrite S.
      rewrite append_assoc. reflexivity.
Qed.

(** Distinct indices give distinct paths. *)
Lemma figure_path_inj (folder base : string) (i j : nat) :
  figure_path folder base i = figure_path folder base j -> i = j.
Proof.
  unfold figure_path.
  destruct (join_prefix folder base "") as [pre Hpre].
  change (base ++ "_figure_" ++ str i ++ ".jpg")
    with (base ++ "_" ++ ("figure_" ++ str i ++ ".jpg")).
  change (base ++ "_figure_" ++ str j ++ ".jpg")
    with (base ++ "_" ++ ("figure_" ++ str j ++ ".jpg")).
  rewrite !Hpre. intros H.
  apply append_inv_head, append_inv_head in H.
  cbn in H. injection H as H.
  apply append_inv_tail in H. apply str_inj, H.
Qed.

(** A crop path contains the marker of figure files. *)
Lemma occurs_append_l (p a s : string) : occurs p s = true -> occurs p (a ++ s) = true.
Proof.
  intros H. induction a as [| ch a IH]; [exact H |].
  cbn [append occurs]. rewrite IH. apply orb_true_r.
Qed.

Lemma prefix_of_append (p s : string) : prefix_of p (p ++ s) = true.
Proof.
  induction p as [| ch p IH]; [reflexivity |].
  cbn. rewrite Ascii.eqb_refl, IH. reflexivity.
Qed.

Lemma occurs_here (p s : string) : occurs p (p ++ s) = true.
Proof.
  pose proof (prefix_of_append p s) as H.
  destruct (p ++ s); cbn [occurs]; rewrite H; reflexivity.
Qed.

Lemma figure_path_marked (folder base : string) (i : nat) :
  occurs "_figure_" (figure_path folder base i) = true.
Proof.
  unfold figure_path.
  destruct (join_prefix folder base "") as [pre Hpre].
  change (base ++ "_figure_" ++ str i ++ ".jpg")
    with (base ++ "_" ++ ("figure_" ++ str i ++ ".jpg")).
  rewrite Hpre. apply occurs_append_l, occurs_append_l.
  apply (occurs_here "_figure_" (str i ++ ".jpg")).
Qed.

End OsPathFacts.

(** ** The local pipeline *)

Module FindImageFacts.

Import Binary64 Binary64Facts Py PyFacts Json OsPath OsPathFacts Text Effects EffectsFacts FindImage.
Local Open Scope string_scope.
Local Open Scope Z_scope.

(** *** The literals and the conversion of the image area *)

Lemma literal_002 : literal 0.02 = Float (Finite c002).
Proof. vm_compute. reflexivity. Qed.

Lemma literal_08 : literal 0.8 = Float (Finite c08).
Proof. vm_compute. reflexivity. Qed.

Lemma literal_03 : literal 0.3 = Float (Finite c03).
Proof. vm_compute. reflexivity. Qed.

Lemma literal_3 : literal 3.0 = Float (Finite c3).
Proof. vm_compute. reflexivity. Qed.

Lemma inject_Z_pos n : 0 < n -> (0 < inject_Z n)%Q.
Proof. intros H. change 0%Q with (inject_Z 0). rewrite <- Zlt_Qlt. exact H. Qed.

Lemma Qlt_bool_iff p q : Qlt_bool p q = true <-> (p < q)%Q.
Proof.
  unfold Qlt_bool. rewrite Qlt_alt.
  destruct (Qcompare p q); split; intros H; congruence.
Qed.

(** An integer up to [2^53] converts exactly. *)
Lemma float_of_int_exact n : 0 < n <= 2 ^ 53 ->
  exists q, float_of_int n = Ok (Finite q) /\ (q == inject_Z n)%Q.
Proof.
  intros Hn. unfold float_of_int.
  pose proof (inject_Z_pos n ltac:(lia)) as Hp.
  assert (Hr : representable (inject_Z n)) by (apply representable_int; lia).
  rewrite fl_pos.
  - eexists. split; [reflexivity |]. apply round_pos_exact; assumption.
  - exact Hp.
  - apply Qle_trans with (pow2 53); [| apply pow2_le; lia].
    rewrite pow2_Z by lia. rewrite <- Zle_Qle. lia.
Qed.

(** The product of a positive integer below [2^53] and a literal in (0, 1]:
    a finite float between any two grid values that enclose the exact
    product. *)
Lemma mul_int_literal n c :
  0 < n <= 2 ^ 53 -> (0 < c)%Q -> (c <= 1)%Q ->
  exists r, mul (Int n) (Float (Finite c)) = Ok (Float (Finite r))
    /\ (exists x, (x == inject_Z n * c)%Q /\ r = round_pos x)
    /\ enclosed (inject_Z n * c) r.
Proof.
  intros Hn Hc0 Hc1.
  destruct (float_of_int_exact n Hn) as (q & Eq & Hq).
  pose proof (inject_Z_pos n ltac:(lia)) as Hp.
  assert (Hx : (0 < q * c)%Q) by (rewrite Hq; apply Qmult_lt_0_compat; assumption).
  assert (Hb : (q * c <= pow2 1023)%Q).
  { apply Qle_trans with (pow2 53); [| apply pow2_le; lia].
    rewrite Hq, pow2_Z by lia.
    assert (inject_Z n <= inject_Z (2 ^ 53))%Q by (rewrite <- Zle_Qle; lia).
    apply Qle_trans with (inject_Z n * 1)%Q; [| lra].
    apply Qmult_le_l; assumption. }
  exists (round_pos (q * c)). unfold mul. cbn [as_float]. rewrite Eq. cbn [rbind fmul].
  rewrite fl_pos by assumption. split; [reflexivity |]. split; [| split].
  - exists (q * c)%Q. split; [rewrite Hq; reflexivity | reflexivity].
  - intros g Hg Hle. apply round_pos_lower; [exact Hx | exact Hg |]. rewrite Hq. exact Hle.
  - intros g Hg Hle. apply round_pos_upper; [exact Hx | exact Hg |]. rewrite Hq. exact Hle.
Qed.

(** Just above an integer the rounding is that integer. *)
Lemma round_pos_int_near a x :
  1 <= a < 2 ^ 53 -> (inject_Z a <= x)%Q ->
  ((x - inject_Z a) * pow2 54 <= inject_Z a)%Q ->
  (round_pos x == inject_Z a)%Q.
Proof.
  intros Ha L U.
  destruct (Z.log2_spec a ltac:(lia)) as [Lk Uk].
  pose proof (Z.log2_nonneg a) as Hk0.
  assert (Hk : Z.log2 a < 53).
  { apply Z.log2_lt_pow2; lia. }
  set (k := Z.log2 a) in *.
  assert (P0 : 0 < 2 ^ (52 - k)) by (apply Z.pow_pos_nonneg; lia).
  assert (P1 : 2 ^ k * 2 ^ (52 - k) = 2 ^ 52).
  { rewrite <- Z.pow_add_r by lia. f_equal. lia. }
  assert (P2 : 2 ^ Z.succ k * 2 ^ (52 - k) = 2 ^ 53).
  { rewrite <- Z.pow_add_r by lia. f_equal. lia. }
  assert (EG : (inject_Z (a * 2 ^ (52 - k)) * pow2 (k - 52) == inject_Z a)%Q).
  { rewrite inject_Z_mult, <- pow2_Z by lia.
    rewrite <- Qmult_assoc, <- pow2_add.
    replace (52 - k + (k - 52)) with 0 by lia. change (pow2 0) with 1%Q. ring. }
  rewrite <- EG. apply round_pos_near.
  - lia.
  - left. nia.
  - rewrite EG. exact L.
  - rewrite EG.
    destruct (log2_bounds_Q a ltac:(lia)) as [_ Ub]. fold k in Ub.
    apply (Qmult_lt_cancel_pos _ _ (pow2 54) (pow2_pos _)).
    rewrite <- pow2_add. replace (k - 52 - 1 + 54) with (k + 1) by lia.
    apply Qle_lt_trans with (1 := U). exact Ub.
Qed.

(** *** The four comparisons of the filter *)

Ltac to_Q H := first [rewrite Zle_Qle in H | rewrite Zlt_Qlt in H]; push_inject H.

(** Read [inject_Z] of a numeral as the rational numeral, for [lra]. *)
Ltac numerals :=
  repeat match goal with
  | |- context [inject_Z (Zpos ?p)] =>
      change (inject_Z (Zpos p)) with (Qmake (Zpos p) 1)
  | H : context [inject_Z (Zpos ?p)] |- _ =>
      change (inject_Z (Zpos p)) with (Qmake (Zpos p) 1) in H
  end.

Lemma min_area_test A a r :
  0 < A < 2 ^ 44 -> 0 < a <= A -> enclosed (inject_Z A * c002) r ->
  ((r < inject_Z a)%Q <-> 2 * A < 100 * a).
Proof.
  intros HA Ha [Lo Up]. unfold c002 in *.
  assert (QA : (inject_Z A < inject_Z (2 ^ 44))%Q) by (rewrite <- Zlt_Qlt; lia).
  assert (Qa : (inject_Z a <= inject_Z A)%Q) by (rewrite <- Zle_Qle; lia).
  assert (Q0 : (0 < inject_Z a)%Q) by (apply inject_Z_pos; lia).
  change (inject_Z (2 ^ 44)) with 17592186044416%Q in QA.
  split.
  - intros Hr. destruct (Z_lt_le_dec (2 * A) (100 * a)) as [C | C]; [exact C | exfalso].
    to_Q C. change (inject_Z 2) with 2%Q in C. change (inject_Z 100) with 100%Q in C.
    assert (inject_Z a <= r)%Q; [| lra].
    apply Lo; [apply representable_int; lia | lra].
  - intros C. assert (C' : A + 1 <= 50 * a) by lia.
    to_Q C'. change (inject_Z 1) with 1%Q in C'. change (inject_Z 50) with 50%Q in C'.
    set (G := 128 * a - 1).
    assert (EG : (inject_Z G == 128 * inject_Z a - 1)%Q).
    { unfold G, Z.sub. rewrite inject_Z_plus, inject_Z_mult. reflexivity. }
    assert (r <= inject_Z G * pow2 (-7))%Q.
    { apply Up; [apply representable_scaled; unfold G; lia |].
      rewrite pow2_m7, EG. lra. }
    rewrite pow2_m7, EG in H. lra.
Qed.

Lemma max_area_test A a x :
  0 < A < 2 ^ 44 -> 0 < a <= A -> (x == inject_Z A * c08)%Q ->
  enclosed (inject_Z A * c08) (round_pos x) ->
  ((inject_Z a < round_pos x)%Q <-> 100 * a < 80 * A).
Proof.
  intros HA Ha Ex [Lo Up]. unfold c08 in *.
  assert (QA : (inject_Z A < inject_Z (2 ^ 44))%Q) by (rewrite <- Zlt_Qlt; lia).
  assert (Qa : (inject_Z a <= inject_Z A)%Q) by (rewrite <- Zle_Qle; lia).
  assert (Q0 : (0 < inject_Z a)%Q) by (apply inject_Z_pos; lia).
  change (inject_Z (2 ^ 44)) with 17592186044416%Q in QA.
  split.
  - intros Hr. destruct (Z_lt_le_dec (100 * a) (80 * A)) as [C | C]; [exact C | exfalso].
    destruct (Z.eq_dec (5 * a) (4 * A)) as [E | N].
    + assert (E' : (5 * inject_Z a == 4 * inject_Z A)%Q).
      { apply (f_equal inject_Z) in E. rewrite !inject_Z_mult in E.
        change (inject_Z 5) with 5%Q in E. change (inject_Z 4) with 4%Q in E.
        rewrite E. reflexivity. }
      assert (round_pos x == inject_Z a)%Q; [| lra].
      apply round_pos_int_near; [lia | rewrite Ex; lra |].
      rewrite Ex. change (pow2 54) with 18014398509481984%Q. lra.
    + assert (C' : 4 * A + 1 <= 5 * a) by lia.
      to_Q C'. change (inject_Z 1) with 1%Q in C'. change (inject_Z 5) with 5%Q in C'.
      change (inject_Z 4) with 4%Q in C'.
      assert (round_pos x <= inject_Z a)%Q; [| lra].
      apply Up; [apply representable_int; lia | lra].
  - intros C. assert (C' : 5 * a + 1 <= 4 * A) by lia.
    to_Q C'. change (inject_Z 1) with 1%Q in C'. change (inject_Z 5) with 5%Q in C'.
    change (inject_Z 4) with 4%Q in C'.
    set (G := 8 * a + 1).
    assert (EG : (inject_Z G == 8 * inject_Z a + 1)%Q).
    { unfold G. rewrite inject_Z_plus, inject_Z_mult. reflexivity. }
    assert (P3 : (pow2 (-3) == 1 # 8)%Q) by reflexivity.
    assert (inject_Z G * pow2 (-3) <= round_pos x)%Q.
    { apply Lo; [apply representable_scaled; unfold G; lia |].
      rewrite P3, EG. lra. }
    rewrite P3, EG in H. lra.
Qed.

Lemma round_pos_enclosed x x' : (0 < x)%Q -> (x == x')%Q -> enclosed x' (round_pos x).
Proof.
  intros Hx E. split; intros g Hg Hle.
  - apply round_pos_lower; [exact Hx | exact Hg | rewrite E; exact Hle].
  - apply round_pos_upper; [exact Hx | exact Hg | rewrite E; exact Hle].
Qed.

Lemma ratio_times w h : 0 < h -> (inject_Z w / inject_Z h * inject_Z h == inject_Z w)%Q.
Proof.
  intros Hh. field. intros C.
  pose proof (inject_Z_pos h Hh) as P. rewrite C in P. discriminate.
Qed.

Lemma truediv_pos w h : 0 < w < 2 ^ 44 -> 0 < h ->
  truediv (Int w) (Int h)
  = Ok (Float (Finite (round_pos (inject_Z w / inject_Z h)))).
Proof.
  intros Hw Hh. unfold truediv.
  destruct (Z.eqb_spec h 0) as [-> | _]; [lia |].
  pose proof (inject_Z_pos w ltac:(lia)) as Pw.
  pose proof (inject_Z_pos h Hh) as Ph.
  pose proof (ratio_times w h Hh) as E.
  assert (Hx : (0 < inject_Z w / inject_Z h)%Q) by (apply Qlt_shift_div_l; lra).
  rewrite fl_pos; [reflexivity | exact Hx |].
  apply Qle_trans with (pow2 44); [| apply pow2_le; lia].
  rewrite pow2_Z by lia.
  assert (inject_Z w <= inject_Z (2 ^ 44))%Q by (rewrite <- Zle_Qle; lia).
  assert (1 <= inject_Z h)%Q by (change 1%Q with (inject_Z 1); rewrite <- Zle_Qle; lia).
  apply Qle_shift_div_r; [exact Ph |].
  assert (0 <= inject_Z (2 ^ 44))%Q by (change 0%Q with (inject_Z 0); rewrite <- Zle_Qle; lia).
  nra.
Qed.

Lemma aspect_above_03 w h x :
  0 < w -> 0 < h < 2 ^ 44 -> (x == inject_Z w / inject_Z h)%Q ->
  ((c03 < round_pos x)%Q <-> 3 * h < 10 * w).
Proof.
  intros Hw Hh Ex. unfold c03.
  pose proof (inject_Z_pos w Hw) as Pw.
  pose proof (inject_Z_pos h ltac:(lia)) as Ph.
  assert (E : (x * inject_Z h == inject_Z w)%Q) by (rewrite Ex; apply ratio_times; lia).
  assert (Hx : (0 < x)%Q) by (rewrite Ex; apply Qlt_shift_div_l; lra).
  assert (Qh : (inject_Z h < inject_Z (2 ^ 44))%Q) by (rewrite <- Zlt_Qlt; lia).
  change (inject_Z (2 ^ 44)) with 17592186044416%Q in Qh.
  assert (P54 : (pow2 (-54) == 1 # 18014398509481984)%Q) by reflexivity.
  assert (P55 : (pow2 (-54 - 1) == 1 # 36028797018963968)%Q) by reflexivity.
  destruct (round_pos_enclosed x x Hx (Qeq_refl x)) as [Lo Up].
  split.
  - intros Hr. destruct (Z_lt_le_dec (3 * h) (10 * w)) as [C | C]; [exact C | exfalso].
    to_Q C. change (inject_Z 10) with 10%Q in C. change (inject_Z 3) with 3%Q in C.
    assert (Hx3 : (x <= 3 # 10)%Q).
    { apply (Qmult_le_cancel_pos _ _ (inject_Z h) Ph). rewrite E. lra. }
    destruct (Qlt_le_dec (5404319552844595 # 18014398509481984) x) as [D | D].
    + assert (round_pos x == inject_Z 5404319552844595 * pow2 (-54))%Q.
      { apply round_pos_near;
          [lia | left; lia | rewrite P54; numerals; lra | rewrite P54, P55; numerals; lra]. }
      rewrite P54 in H. numerals. lra.
    + assert (round_pos x <= inject_Z 5404319552844595 * pow2 (-54))%Q.
      { apply Up; [apply representable_scaled; lia | rewrite P54; numerals; lra]. }
      rewrite P54 in H. numerals. lra.
  - intros C. assert (C' : 3 * h + 1 <= 10 * w) by lia.
    to_Q C'. change (inject_Z 10) with 10%Q in C'. change (inject_Z 3) with 3%Q in C'.
    change (inject_Z 1) with 1%Q in C'.
    assert (inject_Z 5404319552844596 * pow2 (-54) <= round_pos x)%Q.
    { apply Lo; [apply representable_scaled; lia |].
      apply (Qmult_le_cancel_pos _ _ (inject_Z h) Ph). rewrite E, P54. numerals. lra. }
    rewrite P54 in H. numerals. lra.
Qed.

Lemma aspect_below_3 w h x :
  0 < w -> 0 < h < 2 ^ 44 -> (x == inject_Z w / inject_Z h)%Q ->
  ((round_pos x < c3)%Q <-> w < 3 * h).
Proof.
  intros Hw Hh Ex. unfold c3.
  pose proof (inject_Z_pos w Hw) as Pw.
  pose proof (inject_Z_pos h ltac:(lia)) as Ph.
  assert (E : (x * inject_Z h == inject_Z w)%Q) by (rewrite Ex; apply ratio_times; lia).
  assert (Hx : (0 < x)%Q) by (rewrite Ex; apply Qlt_shift_div_l; lra).
  assert (Qh : (inject_Z h < inject_Z (2 ^ 44))%Q) by (rewrite <- Zlt_Qlt; lia).
  change (inject_Z (2 ^ 44)) with 17592186044416%Q in Qh.
  assert (P44 : (pow2 (-44) == 1 # 17592186044416)%Q) by reflexivity.
  destruct (round_pos_enclosed x x Hx (Qeq_refl x)) as [Lo Up].
  split.
  - intros Hr. destruct (Z_lt_le_dec w (3 * h)) as [C | C]; [exact C | exfalso].
    to_Q C. change (inject_Z 3) with 3%Q in C.
    assert (inject_Z 3 <= round_pos x)%Q.
    { apply Lo; [apply representable_int; lia |].
      apply (Qmult_le_cancel_pos _ _ (inject_Z h) Ph). rewrite E.
      change (inject_Z 3) with 3%Q. lra. }
    change (inject_Z 3) with 3%Q in H. lra.
  - intros C. assert (C' : w + 1 <= 3 * h) by lia.
    to_Q C'. change (inject_Z 3) with 3%Q in C'. change (inject_Z 1) with 1%Q in C'.
    assert (round_pos x <= inject_Z (3 * 2 ^ 44 - 1) * pow2 (-44))%Q.
    { apply Up; [apply representable_scaled; lia |].
      apply (Qmult_le_cancel_pos _ _ (inject_Z h) Ph). rewrite E, P44.
      change (inject_Z (3 * 2 ^ 44 - 1)) with 52776558133247%Q. lra. }
    rewrite P44 in H. change (inject_Z (3 * 2 ^ 44 - 1)) with 52776558133247%Q in H. lra.
Qed.

(** *** The filter *)

Lemma within_thresholds_Z img_width img_height w h : 0 < h ->
  within_thresholds img_width img_height w h <->
  2 * (img_width * img_height) < 100 * (w * h)
  /\ 100 * (w * h) < 80 * (img_width * img_height)
  /\ 3 * h < 10 * w /\ w < 3 * h.
Proof.
  intros Hh. unfold within_thresholds.
  pose proof (inject_Z_pos h Hh) as Ph.
  pose proof (ratio_times w h Hh) as E.
  set (x := (inject_Z w / inject_Z h)%Q) in *.
  assert (A1 : forall A a, (0.02 * inject_Z A < inject_Z a)%Q <-> 2 * A < 100 * a).
  { intros A a. unfold Qlt, Qmult, inject_Z. cbn [Qnum Qden]. lia. }
  assert (A2 : forall A a, (inject_Z a < 0.8 * inject_Z A)%Q <-> 100 * a < 80 * A).
  { intros A a. unfold Qlt, Qmult, inject_Z. cbn [Qnum Qden]. lia. }
  assert (A3 : (0.3 < x)%Q <-> 3 * h < 10 * w).
  { rewrite <- (Qmult_lt_r _ _ (inject_Z h) Ph), E.
    unfold Qlt, Qmult, inject_Z. cbn [Qnum Qden]. lia. }
  assert (A4 : (x < 3.0)%Q <-> w < 3 * h).
  { rewrite <- (Qmult_lt_r _ _ (inject_Z h) Ph), E.
    unfold Qlt, Qmult, inject_Z. cbn [Qnum Qden]. lia. }
  rewrite A1, A2, A3, A4. reflexivity.
Qed.

Lemma lt_float_int r a : lt (Float (Finite r)) (Int a) = Qlt_bool r (inject_Z a).
Proof. reflexivity. Qed.

Lemma lt_int_float r a : lt (Int a) (Float (Finite r)) = Qlt_bool (inject_Z a) r.
Proof. reflexivity. Qed.

Lemma lt_float_float p q : lt (Float (Finite p)) (Float (Finite q)) = Qlt_bool p q.
Proof. reflexivity. Qed.

(** The filter decides the four exact inequalities. *)
Lemma accepts_decides img_width img_height w h :
  1 <= img_width -> 1 <= img_height -> img_width * img_height < 2 ^ 44 ->
  1 <= w <= img_width -> 1 <= h <= img_height ->
  exists min_area max_area accepted,
    area_limits img_width img_height = Ok (min_area, max_area)
    /\ accepts min_area max_area w h = Ok accepted
    /\ (accepted = true <->
        2 * (img_width * img_height) < 100 * (w * h)
        /\ 100 * (w * h) < 80 * (img_width * img_height)
        /\ 3 * h < 10 * w /\ w < 3 * h).
Proof.
  intros HW HH HA Hw Hh.
  assert (A0 : 0 < img_width * img_height < 2 ^ 44) by nia.
  assert (a0 : 0 < w * h <= img_width * img_height) by nia.
  assert (Wb : img_width < 2 ^ 44) by nia.
  assert (Hb : img_height < 2 ^ 44) by nia.
  destruct (mul_int_literal (img_width * img_height) c002 ltac:(lia)
              ltac:(reflexivity) ltac:(unfold c002, Qle; cbn; lia))
    as (r1 & E1 & _ & Enc1).
  destruct (mul_int_literal (img_width * img_height) c08 ltac:(lia)
              ltac:(reflexivity) ltac:(unfold c08, Qle; cbn; lia))
    as (r2 & E2 & (x2 & Ex2 & ->) & Enc2).
  pose proof (min_area_test _ _ _ A0 a0 Enc1) as T1.
  pose proof (max_area_test _ _ _ A0 a0 Ex2 Enc2) as T2.
  pose proof (aspect_above_03 w h _ ltac:(lia) ltac:(lia) (Qeq_refl _)) as T3.
  pose proof (aspect_below_3 w h _ ltac:(lia) ltac:(lia) (Qeq_refl _)) as T4.
  rewrite <- Qlt_bool_iff in T1, T2, T3, T4.
  exists (Float (Finite r1)), (Float (Finite (round_pos x2))).
  exists (Qlt_bool r1 (inject_Z (w * h))
          && Qlt_bool (inject_Z (w * h)) (round_pos x2)
          && (Qlt_bool c03 (round_pos (inject_Z w / inject_Z h))
              && Qlt_bool (round_pos (inject_Z w / inject_Z h)) c3))%bool.
  split; [| split].
  - unfold area_limits. rewrite literal_002, literal_08, E1, E2. reflexivity.
  - unfold accepts. rewrite lt_float_int, lt_int_float.
    destruct (Qlt_bool r1 (inject_Z (w * h))
              && Qlt_bool (inject_Z (w * h)) (round_pos x2))%bool; [| reflexivity].
    rewrite truediv_pos by lia. cbn [rbind].
    rewrite literal_03, literal_3, !lt_float_float. reflexivity.
  - rewrite !andb_true_iff, T1, T2, T3, T4. tauto.
Qed.

(** C5. For an image below [2^44] pixels and a bounding rectangle that fits
    in it, the filter accepts exactly when
    [0.02 * imageArea < w*h < 0.8 * imageArea] and [0.3 < w/h < 3.0], all
    four strict; so a rectangle of a tenth of the area and aspect ratio 1.5
    is accepted, one of 95 percent of the area is rejected, and a 1 by 50
    sliver is rejected. *)
Theorem contour_filter_thresholds (img_width img_height w h : Z) :
  1 <= img_width -> 1 <= img_height -> img_width * img_height < 2 ^ 44 ->
  1 <= w <= img_width -> 1 <= h <= img_height ->
  exists min_area max_area accepted,
    area_limits img_width img_height = Ok (min_area, max_area)
    /\ accepts min_area max_area w h = Ok accepted
    /\ (accepted = true <-> within_thresholds img_width img_height w h)
    /\ (10 * (w * h) = img_width * img_height -> 2 * w = 3 * h -> accepted = true)
    /\ (100 * (w * h) = 95 * (img_width * img_height) -> accepted = false)
    /\ (w = 1 -> h = 50 -> accepted = false).
Proof.
  intros HW HH HA Hw Hh.
  destruct (accepts_decides img_width img_height w h HW HH HA Hw Hh)
    as (mn & mx & acc & E1 & E2 & Hiff).
  exists mn, mx, acc.
  split; [exact E1 |]. split; [exact E2 |].
  split; [split |]; [| | split; [| split]].
  - intros Hacc. apply within_thresholds_Z; [lia |]. apply Hiff, Hacc.
  - intros Hth. apply Hiff. apply within_thresholds_Z in Hth; [exact Hth | lia].
  - intros Ha Hr. apply Hiff. nia.
  - intros Ha. destruct acc; [| reflexivity].
    destruct Hiff as [Hiff _]. specialize (Hiff eq_refl). nia.
  - intros -> ->. destruct acc; [| reflexivity].
    destruct Hiff as [Hiff _]. specialize (Hiff eq_refl). lia.
Qed.

Lemma contour_filter_thresholds_witness :
  exists min_area max_area accepted,
    area_limits 1000 600 = Ok (min_area, max_area)
    /\ accepts min_area max_area 300 200 = Ok accepted
    /\ (accepted = true <-> within_thresholds 1000 600 300 200)
    /\ (10 * (300 * 200) = 1000 * 600 -> 2 * 300 = 3 * 200 -> accepted = true)
    /\ (100 * (300 * 200) = 95 * (1000 * 600) -> accepted = false)
    /\ (300 = 1 -> 200 = 50 -> accepted = false).
Proof. apply (contour_filter_thresholds 1000 600 300 200); lia. Defined.

(** The three cases on a 1000 by 600 image, and the sliver on an image so
    small that only its shape rejects it. *)
Example tenth_of_the_frame_accepted : filter_rect 1000 600 300 200 = Ok true.
Proof. vm_compute. reflexivity. Qed.

Example nearly_whole_frame_rejected : filter_rect 1000 600 950 600 = Ok false.
Proof. vm_compute. reflexivity. Qed.

Example sliver_rejected : filter_rect 1000 600 1 50 = Ok false.
Proof. vm_compute. reflexivity. Qed.

Example sliver_rejected_by_shape :
  filter_rect 40 60 1 50 = Ok false
  /\ (c <~ area_limits 40 60 ;; Ok (lt (fst c) (Int 50) && lt (Int 50) (snd c)))%py
     = Ok true.
Proof. split; vm_compute; reflexivity. Qed.

(** *** The loops and what they write *)

(** The loop of the fallback writes figure files, at most one per contour,
    and returns their paths. *)
Lemma fallback_loop_written min_area max_area output_folder base contours :
  forall figure_count acc,
  let run := fallback_loop min_area max_area output_folder base figure_count
                           contours acc in
  (exists ks, written (events run) = map (figure_path output_folder base) ks
              /\ (List.length ks <= List.length contours)%nat)
  /\ (forall paths, outcome run = Ok paths ->
                    paths = (acc ++ written (events run))%list).
Proof.
  induction contours as [| [[[x y] w] h] rest IH]; intros figure_count acc; cbn zeta.
  - split.
    + exists []. split; [reflexivity | apply Nat.le_refl].
    + cbn. intros paths [= <-]. rewrite app_nil_r. reflexivity.
  - cbn [fallback_loop].
    destruct (accepts min_area max_area w h) as [[|] | e].
    + destruct (IH (S figure_count)
                   (acc ++ [figure_path output_folder base figure_count])%list)
        as [(ks & Hks & Hlen) Hout].
      split.
      * exists (figure_count :: ks). run_step. unfold written in *.
        cbn [imwrites app map fst].
        rewrite Hks. split; [reflexivity | cbn [List.length]; lia].
      * intros paths. run_step.
        destruct (outcome (fallback_loop _ _ _ _ (S figure_count) rest _)) eqn:O;
          [| discriminate].
        intros [= <-]. rewrite (Hout _ eq_refl). unfold written.
        rewrite <- app_assoc. reflexivity.
    + destruct (IH figure_count acc) as [(ks & Hks & Hlen) Hout].
      split.
      * exists ks. run_step. split; [exact Hks | cbn [List.length]; lia].
      * intros paths. run_step. apply Hout.
    + split.
      * exists []. split; [reflexivity | apply Nat.le_0_l].
      * intros paths. run_step. discriminate.
Qed.

Lemma extract_images_opencv_fallback_written W input_image_path output_folder :
  let run := extract_images_opencv_fallback W input_image_path output_folder in
  (exists ks,
     written (events run)
     = map (figure_path output_folder (base_filename input_image_path)) ks
     /\ (List.length ks <= List.length (bounding_rects W input_image_path))%nat)
  /\ (forall paths, outcome run = Ok paths -> paths = written (events run)).
Proof.
  cbn zeta. unfold extract_images_opencv_fallback.
  destruct (imread W input_image_path) as [[img_height img_width] |].
  - destruct (area_limits img_width img_height) as [[mn mx] | e].
    + destruct (fallback_loop_written mn mx output_folder
                  (base_filename input_image_path)
                  (bounding_rects W input_image_path) 0%nat [])
        as [(ks & Hks & Hlen) Hout].
      cbn zeta in *. run_step. split.
      * exists ks. split; [exact Hks | exact Hlen].
      * intros paths Hp. apply Hout in Hp. exact Hp.
    + run_step. split.
      * exists []. split; [reflexivity | apply Nat.le_0_l].
      * discriminate.
  - run_step. split.
    + exists []. split; [reflexivity | apply Nat.le_0_l].
    + discriminate.
Qed.

Lemma write_blocks_written output_folder base image_blocks : forall i acc,
  exists ks,
    written (events (write_blocks output_folder base i image_blocks acc))
    = map (figure_path output_folder base) ks.
Proof.
  induction image_blocks as [| b rest IH]; intros i acc.
  - exists []. reflexivity.
  - destruct (IH (S i) (acc ++ [figure_path output_folder base i])%list) as [ks Hks].
    exists (i :: ks). cbn [write_blocks]. run_step. unfold written in *.
    cbn [map fst]. rewrite Hks. reflexivity.
Qed.

Lemma with_layout_model_written W input_image_path output_folder :
  exists ks,
    written (events (with_layout_model W input_image_path output_folder))
    = map (figure_path output_folder (base_filename input_image_path)) ks.
Proof.
  unfold with_layout_model.
  destruct (layout_model W) as [[] | e]; run_step; [| exists []; reflexivity].
  destruct (imread W input_image_path) as [dims |]; [| exists []; reflexivity].
  destruct (detect W input_image_path) as [layout | e]; run_step;
    [| exists []; reflexivity].
  apply write_blocks_written.
Qed.

(** Everything [extract_images_from_note] writes is a figure file of the
    input's base name. *)
Lemma extract_images_from_note_written W input_image_path output_folder path :
  In path (written (events (extract_images_from_note W input_image_path
                                                     output_folder))) ->
  exists i, path = figure_path output_folder (base_filename input_image_path) i.
Proof.
  unfold extract_images_from_note.
  destruct (with_layout_model_written W input_image_path output_folder) as [ks Hks].
  destruct (extract_images_opencv_fallback_written W input_image_path output_folder)
    as [(ks' & Hks' & _) _].
  assert (Hin : forall l, In path (map (figure_path output_folder
                                          (base_filename input_image_path)) l) ->
                exists i, path = figure_path output_folder
                                   (base_filename input_image_path) i).
  { intros l H. apply in_map_iff in H as (i & <- & _). exists i. reflexivity. }
  intros H. apply written_bind_in in H as [[] | ([] & _ & H)].
  destruct (with_layout_model W input_image_path output_folder) as [evs [paths | e]];
    cbn [events fst] in Hks.
  - apply (Hin ks). rewrite <- Hks. exact H.
  - destruct e; try (apply (Hin ks); rewrite <- Hks; exact H);
      (apply written_bind_in in H as [H | ([] & _ & H)];
       [apply (Hin ks); rewrite <- Hks; exact H |];
       apply written_bind_in in H as [[] | ([] & _ & H)];
       apply (Hin ks'); rewrite <- Hks'; exact H).
Qed.

(** Through the base64 entry point the image itself is written first. *)
Lemma extract_from_base64_written W base64_data output_folder filename path :
  In path (written (events (extract_from_base64 W base64_data output_folder
                                                filename))) ->
  path = join output_folder (filename ++ "_original.jpg")
  \/ exists i,
       path = figure_path output_folder
                (base_filename (join output_folder (filename ++ "_original.jpg"))) i.
Proof.
  unfold extract_from_base64.
  intros H. apply written_bind_in in H as [[] | ([] & _ & H)].
  apply written_bind_in in H as [[] | (image & _ & H)].
  destruct image as [dims |]; [| destruct H].
  apply written_bind_in in H as [[<- | []] | ([] & _ & H)]; [left; reflexivity |].
  right. apply extract_images_from_note_written in H. exact H.
Qed.

Lemma main_written W input_path output_folder :
  written (fst (main W input_path output_folder))
  = written (events (extract_images_from_note W input_path output_folder)).
Proof.
  unfold main.
  destruct (extract_images_from_note W input_path output_folder) as [evs [paths | e]];
    cbn [fst events]; rewrite EffectsFacts.written_app;
    apply app_nil_r.
Qed.

End FindImageFacts.

(** ** Both pipelines: how many files *)

Module Pipelines.

Import Py Json OsPath OsPathFacts Effects EffectsFacts.
Local Open Scope string_scope.
Local Open Scope Z_scope.

Lemma remote_written W image_path output_folder padding_percent :
  written (events (ExtractImagesOpenai.extract_figures_from_image
                     W image_path output_folder padding_percent))
  = match ExtractImagesOpenai.imread W image_path with
    | Some (img_height, img_width) =>
        map (fun ir => figure_path output_folder (base_filename image_path) (fst ir))
            (ExtractImagesOpenai.kept img_width img_height padding_percent 0
               (ExtractImagesOpenai.provided W image_path))
    | None => []
    end.
Proof.
  unfold written. rewrite ExtractImagesOpenaiFacts.extract_figures_imwrites.
  destruct (ExtractImagesOpenai.imread W image_path) as [[img_height img_width] |];
    [| reflexivity].
  rewrite map_map. reflexivity.
Qed.

(** C3. The files written never outnumber the regions of the provider, the
    paths reported are those of the files written, and a region whose width
    or height is not positive after clamping gets no file and no path; in
    the contour fallback, too, the files never outnumber the contours. *)
Theorem output_within_provider_regions :
  (forall (W : ExtractImagesOpenai.world) (image_path output_folder : string)
          (padding_percent : num),
     let run := ExtractImagesOpenai.extract_figures_from_image
                  W image_path output_folder padding_percent in
     (List.length (written (events run))
      <= List.length (ExtractImagesOpenai.provided W image_path))%nat
     /\ (forall paths, outcome run = Ok paths -> paths = written (events run))
     /\ (forall img_height img_width i figure r,
           ExtractImagesOpenai.imread W image_path = Some (img_height, img_width) ->
           nth_error (ExtractImagesOpenai.provided W image_path) i = Some figure ->
           ExtractImagesOpenai.normalize figure img_width img_height padding_percent
           = Ok r ->
           ExtractImagesOpenai.w r <= 0 \/ ExtractImagesOpenai.h r <= 0 ->
           ~ In (figure_path output_folder (base_filename image_path) i)
                (written (events run))))
  /\ (forall (W : FindImage.world) (input_image_path output_folder : string),
     let run := FindImage.extract_images_opencv_fallback
                  W input_image_path output_folder in
     (List.length (written (events run))
      <= List.length (FindImage.bounding_rects W input_image_path))%nat
     /\ (forall paths, outcome run = Ok paths -> paths = written (events run))).
Proof.
  split.
  - intros W image_path output_folder padding_percent run. subst run.
    split; [| split].
    + rewrite remote_written.
      destruct (ExtractImagesOpenai.imread W image_path) as [[img_height img_width] |];
        [| apply Nat.le_0_l].
      rewrite length_map. apply ExtractImagesOpenaiFacts.kept_length.
    + apply ExtractImagesOpenaiFacts.extract_figures_outcome.
    + intros img_height img_width i figure r Him Hnth Hn Hdrop Hin.
      rewrite remote_written, Him in Hin.
      apply in_map_iff in Hin as [[j r'] [E Hk]]. cbn [fst] in E.
      apply figure_path_inj in E. subst j.
      destruct (ExtractImagesOpenaiFacts.kept_sound _ _ _ _ _ _ _ Hk)
        as (figure' & _ & Hnth' & Hn' & Hs).
      rewrite Nat.sub_0_r, Hnth in Hnth'. injection Hnth' as <-.
      rewrite Hn in Hn'. injection Hn' as <-.
      apply ExtractImagesOpenaiFacts.survives_true in Hs. lia.
  - intros W input_image_path output_folder run. subst run.
    destruct (FindImageFacts.extract_images_opencv_fallback_written
                W input_image_path output_folder) as [(ks & Hks & Hlen) Hout].
    cbn zeta in *. split; [| exact Hout].
    rewrite Hks, length_map. exact Hlen.
Qed.

Lemma output_within_provider_regions_witness :
  ~ In (figure_path "out" (base_filename "notes.jpg") 1)
       (written (events (ExtractImagesOpenai.extract_figures_from_image
                           (Samples.remote_world
                              (Obj [("figures", Arr [Samples.chart; Samples.empty_width])]))
                           "notes.jpg" "out" (Int 8)))).
Proof.
  apply (proj2 (proj2 (proj1 output_within_provider_regions
                         (Samples.remote_world
                            (Obj [("figures", Arr [Samples.chart; Samples.empty_width])]))
                         "notes.jpg" "out" (Int 8)))
               1000 1000 1%nat Samples.empty_width
               (ExtractImagesOpenai.Region 500 0 0 1000)).
  - reflexivity.
  - reflexivity.
  - vm_compute. reflexivity.
  - left. cbn. lia.
Defined.

End Pipelines.

(** ** Cleaning the response *)

Module TextFacts.

Import Py Json Text ExtractImagesOpenai.
Local Open Scope N_scope.
Local Open Scope list_scope.

(** *** [replace]: occurrences and what follows the text *)

Lemma starts_with_length old u :
  starts_with old u = true -> (List.length old <= List.length u)%nat.
Proof.
  revert u. induction old as [| a old IH]; intros u H; [apply Nat.le_0_l |].
  destruct u as [| c u]; [discriminate |]. cbn in H.
  apply andb_true_iff in H as [_ H]. apply IH in H. cbn. lia.
Qed.

Lemma starts_with_app_r old u t :
  starts_with old u = true -> starts_with old (u ++ t) = true.
Proof.
  revert u. induction old as [| a old IH]; intros u H; [reflexivity |].
  destruct u as [| c u]; [discriminate |]. cbn in *.
  apply andb_true_iff in H as [H1 H2]. rewrite H1, (IH _ H2). reflexivity.
Qed.

Lemma starts_with_in_last o z t : starts_with (o ++ [z]) t = true -> In z t.
Proof.
  revert t. induction o as [| a o IH]; intros t H.
  - destruct t as [| c t]; [discriminate |]. cbn in H.
    apply andb_true_iff in H as [H _]. apply N.eqb_eq in H. left. symmetry. exact H.
  - destruct t as [| c t]; [discriminate |]. cbn in H.
    apply andb_true_iff in H as [_ H]. right. apply IH, H.
Qed.

Lemma starts_with_app_last o z u t :
  ~ In z t -> starts_with (o ++ [z]) (u ++ t) = true ->
  starts_with (o ++ [z]) u = true.
Proof.
  intros Hz. revert u. induction o as [| a o IH]; intros u H.
  - destruct u as [| c u].
    + apply starts_with_in_last with (o := []) in H. contradiction.
    + cbn in *. apply andb_true_iff in H as [H _]. rewrite H. reflexivity.
  - destruct u as [| c u].
    + apply starts_with_in_last with (o := a :: o) in H. contradiction.
    + cbn in *. apply andb_true_iff in H as [H1 H2]. rewrite H1, (IH _ H2). reflexivity.
Qed.

(** A text without the last character of [old] has no occurrence. *)
Lemma replace_from_no_last o z new t :
  ~ In z t -> replace_from (o ++ [z]) new 0 t = t.
Proof.
  induction t as [| c t IH]; intros Hz; [reflexivity |].
  cbn [replace_from].
  destruct (starts_with (o ++ [z]) (c :: t)) eqn:E.
  - apply starts_with_in_last in E. contradiction.
  - rewrite IH; [reflexivity |]. intros H. apply Hz. right. exact H.
Qed.

(** What follows the text and lacks the last character of [old] is left as
    it is, and no occurrence reaches into it. *)
Lemma replace_from_tail o z new t : ~ In z t ->
  forall s k, (k <= List.length s)%nat ->
  replace_from (o ++ [z]) new k (s ++ t) = replace_from (o ++ [z]) new k s ++ t.
Proof.
  intros Hz. induction s as [| c s IH]; intros k Hk.
  - cbn in Hk. replace k with 0%nat by lia. cbn [app].
    rewrite replace_from_no_last by exact Hz. reflexivity.
  - cbn [app replace_from]. destruct k as [| k].
    + destruct (starts_with (o ++ [z]) (c :: s ++ t)) eqn:E.
      * pose proof (starts_with_app_last o z (c :: s) t Hz E) as E'.
        rewrite E'. rewrite IH; [rewrite app_assoc; reflexivity |].
        apply starts_with_length in E'. cbn in E'. lia.
      * destruct (starts_with (o ++ [z]) (c :: s)) eqn:E'.
        -- apply starts_with_app_r with (t := t) in E'. cbn [app] in E'. congruence.
        -- rewrite IH by apply Nat.le_0_l. reflexivity.
    + apply IH. cbn in Hk. lia.
Qed.

(** No occurrence begins in white space when [old] begins otherwise. *)
Lemma replace_from_spaces a old new ws u :
  is_space a = false -> spaces ws ->
  replace_from (a :: old) new 0 (ws ++ u) = ws ++ replace_from (a :: old) new 0 u.
Proof.
  intros Ha Hws. induction Hws as [| c ws Hc _ IH]; [reflexivity |].
  cbn [app replace_from starts_with].
  destruct (N.eqb_spec a c) as [-> | _]; [congruence |].
  cbn [andb]. rewrite IH. reflexivity.
Qed.

(** *** The two fences *)

Lemma of_string_fence : of_string "```" = fence.
Proof. reflexivity. Qed.

Lemma of_string_fence_json : of_string "```json" = fence_json.
Proof. reflexivity. Qed.

Lemma space_not_tick c : is_space c = true -> c <> tick.
Proof. intros H ->. discriminate. Qed.

Lemma space_not_n c : is_space c = true -> c <> 110.
Proof. intros H ->. discriminate. Qed.

Lemma unfence_json_opening u : unfence_json (fence_json ++ u) = unfence_json u.
Proof. reflexivity. Qed.

Lemma unfence_json_spaces ws u :
  spaces ws -> unfence_json (ws ++ u) = ws ++ unfence_json u.
Proof.
  apply (replace_from_spaces tick [tick; tick; 106; 115; 111; 110] [] ws u eq_refl).
Qed.

Lemma unfence_json_tail s t :
  ~ In 110 t -> unfence_json (s ++ t) = unfence_json s ++ t.
Proof.
  intros Hn.
  apply (replace_from_tail [tick; tick; tick; 106; 115; 111] 110 [] t Hn
           s 0%nat (Nat.le_0_l _)).
Qed.

Lemma unfence_spaces ws u : spaces ws -> unfence (ws ++ u) = ws ++ unfence u.
Proof. apply (replace_from_spaces tick [tick; tick] [] ws u eq_refl). Qed.

Lemma unfence_fence : unfence fence = [].
Proof. reflexivity. Qed.

Lemma unfence_other c u : c <> tick -> unfence (c :: u) = c :: unfence u.
Proof.
  intros H. unfold unfence. cbn [replace_from starts_with fence].
  destruct (N.eqb_spec tick c) as [E | _]; [congruence | reflexivity].
Qed.

Lemma unfence_tick_other c u :
  c <> tick -> unfence (tick :: c :: u) = tick :: c :: unfence u.
Proof.
  intros H. unfold unfence. cbn [replace_from starts_with fence]. rewrite N.eqb_refl.
  destruct (N.eqb_spec tick c) as [E | _]; [congruence | reflexivity].
Qed.

Lemma unfence_tick_tick_other c u :
  c <> tick -> unfence (tick :: tick :: c :: u) = tick :: tick :: c :: unfence u.
Proof.
  intros H. unfold unfence. cbn [replace_from starts_with fence]. rewrite !N.eqb_refl.
  destruct (N.eqb_spec tick c) as [E | _]; [congruence | reflexivity].
Qed.

Lemma unfence_three u : unfence (tick :: tick :: tick :: u) = unfence u.
Proof. reflexivity. Qed.

(** The closing fence, with white space before it, disappears; the ticks
    that end the text before it stay as they were. *)
Lemma unfence_closing ws : spaces ws -> forall s,
  unfence (s ++ ws ++ fence) = unfence s ++ ws
  /\ unfence (tick :: s ++ ws ++ fence) = unfence (tick :: s) ++ ws
  /\ unfence (tick :: tick :: s ++ ws ++ fence) = unfence (tick :: tick :: s) ++ ws.
Proof.
  intros Hws.
  assert (B0 : unfence (ws ++ fence) = ws).
  { rewrite unfence_spaces, unfence_fence by exact Hws. apply app_nil_r. }
  assert (B1 : unfence (tick :: ws ++ fence) = tick :: ws).
  { destruct Hws as [| c ws Hc Hws]; [reflexivity |].
    cbn [app] in *. rewrite unfence_tick_other by (apply space_not_tick, Hc).
    rewrite unfence_spaces, unfence_fence by exact Hws. rewrite app_nil_r. reflexivity. }
  assert (B2 : unfence (tick :: tick :: ws ++ fence) = tick :: tick :: ws).
  { destruct Hws as [| c ws Hc Hws]; [reflexivity |].
    cbn [app] in *. rewrite unfence_tick_tick_other by (apply space_not_tick, Hc).
    rewrite unfence_spaces, unfence_fence by exact Hws. rewrite app_nil_r. reflexivity. }
  induction s as [| c s (IH0 & IH1 & IH2)].
  - cbn [app]. rewrite B0, B1, B2. repeat split; reflexivity.
  - cbn [app]. destruct (N.eq_dec c tick) as [-> | Hc].
    + split; [exact IH1 |]. split; [exact IH2 |].
      rewrite !unfence_three. exact IH0.
    + assert (G0 : unfence (c :: s ++ ws ++ fence) = unfence (c :: s) ++ ws).
      { rewrite !unfence_other by exact Hc. cbn [app]. f_equal. exact IH0. }
      split; [exact G0 |]. split.
      * rewrite !unfence_tick_other by exact Hc. cbn [app]. do 2 f_equal. exact IH0.
      * rewrite !unfence_tick_tick_other by exact Hc. cbn [app]. do 3 f_equal. exact IH0.
Qed.

(** *** [strip] *)

Lemma lstrip_spaces ws u : spaces ws -> lstrip (ws ++ u) = lstrip u.
Proof.
  intros Hws. induction Hws as [| c ws Hc _ IH]; [reflexivity |].
  cbn [app lstrip]. rewrite Hc. exact IH.
Qed.

Lemma spaces_rev ws : spaces ws -> spaces (rev ws).
Proof. apply Forall_rev. Qed.

Lemma rstrip_spaces u ws : spaces ws -> rstrip (u ++ ws) = rstrip u.
Proof.
  intros Hws. unfold rstrip. rewrite rev_app_distr.
  rewrite lstrip_spaces by (apply spaces_rev, Hws). reflexivity.
Qed.

Lemma strip_padding ws1 ws2 u :
  spaces ws1 -> spaces ws2 -> strip (ws1 ++ u ++ ws2) = strip u.
Proof.
  intros H1 H2. unfold strip. rewrite lstrip_spaces by exact H1.
  induction u as [| c u IH].
  - cbn [app]. rewrite <- (app_nil_r ws2), lstrip_spaces by exact H2. reflexivity.
  - cbn [app lstrip]. destruct (is_space c); [exact IH |].
    change (c :: u ++ ws2) with ((c :: u) ++ ws2).
    apply rstrip_spaces, H2.
Qed.

(** *** The cleaned content *)

Lemma clean_content_fenced before after content :
  spaces before -> spaces after ->
  clean_content (fenced before after content) = clean_content content.
Proof.
  intros Hb Ha. unfold clean_content, fenced.
  rewrite of_string_fence, of_string_fence_json.
  change (replace fence_json []) with unfence_json.
  change (replace fence []) with unfence.
  assert (Hn : ~ In 110 (after ++ fence)).
  { rewrite in_app_iff. intros [H | H].
    - unfold spaces in Ha. rewrite Forall_forall in Ha. apply Ha in H. discriminate.
    - cbn in H. intuition discriminate. }
  rewrite unfence_json_opening, unfence_json_spaces, unfence_json_tail by assumption.
  rewrite unfence_spaces by exact Hb.
  destruct (unfence_closing after Ha (unfence_json content))
    as [E _].
  rewrite E. apply strip_padding; assumption.
Qed.

Example clean_fenced_lines :
  clean_content (fenced [10] [10] (of_string "{a}")) = of_string "{a}".
Proof. vm_compute. reflexivity. Qed.

End TextFacts.

(** ** Runs of the remote script *)

Module RemoteRuns.

Import Py Json OsPath OsPathFacts Effects EffectsFacts ExtractImagesOpenai
       ExtractImagesOpenaiFacts.
Local Open Scope string_scope.
Local Open Scope Z_scope.

Lemma reports_app l1 l2 : reports (l1 ++ l2) = (reports l1 ++ reports l2)%list.
Proof.
  induction l1 as [| ev l1 IH]; [reflexivity |].
  destruct ev; cbn [app reports]; rewrite IH; reflexivity.
Qed.

(** The run on an answer whose [figures] is a list: the two first events,
    then the loop. *)
Lemma run_of_list W image_path output_folder padding_percent answer items
  img_height img_width :
  detect_figure_regions_with_openai W image_path = Ok (Obj answer) ->
  lookup "figures" answer = Some (Arr items) ->
  imread W image_path = Some (img_height, img_width) ->
  extract_figures_from_image W image_path output_folder padding_percent
  = (MakeDirs output_folder :: Stderr Analyzing
       :: events (extract_loop img_width img_height padding_percent output_folder
                               (base_filename image_path) 0 items []),
     outcome (extract_loop img_width img_height padding_percent output_folder
                           (base_filename image_path) 0 items [])).
Proof.
  intros Hd Hl Him. unfold extract_figures_from_image.
  rewrite Hd. cbn [emit lift bind get]. rewrite Hl.
  destruct items as [| figure rest]; [reflexivity |].
  cbn [truthy List.length Nat.eqb negb]. rewrite Him. cbn [iterate lift bind app].
  destruct (extract_loop _ _ _ _ _ 0 (figure :: rest) []) as [l res]. reflexivity.
Qed.

Lemma extract_loop_reports img_width img_height padding_percent output_folder base
  figures : forall i acc,
  reports (events (extract_loop img_width img_height padding_percent
                                output_folder base i figures acc)) = [].
Proof.
  induction figures as [| figure rest IH]; intros i acc; [reflexivity |].
  rewrite extract_loop_cons.
  destruct (normalize figure img_width img_height padding_percent) as [r | e];
    [| reflexivity].
  destruct (survives r); [cbn [events fst reports] |]; apply IH.
Qed.

Lemma extract_figures_reports W image_path output_folder padding_percent :
  reports (events (extract_figures_from_image W image_path output_folder
                                              padding_percent)) = [].
Proof.
  unfold extract_figures_from_image.
  destruct (imread W image_path) as [[img_height img_width] |];
    run_step;
    (destruct (detect_figure_regions_with_openai W image_path) as [result |];
     run_step; [| reflexivity]);
    (destruct (get result "figures" (Arr [])) as [figures |];
     run_step; [| reflexivity]);
    destruct (truthy figures); run_step; try reflexivity.
  destruct (iterate figures) as [items |]; run_step; [| reflexivity].
  cbn [reports]. apply extract_loop_reports.
Qed.

Lemma extract_figures_head W image_path output_folder padding_percent :
  exists evs,
    events (extract_figures_from_image W image_path output_folder padding_percent)
    = MakeDirs output_folder :: Stderr Analyzing :: evs.
Proof.
  unfold extract_figures_from_image. run_step.
  destruct (outcome (lift (detect_figure_regions_with_openai W image_path)));
    eexists; reflexivity.
Qed.

(** The report of the [try] block, on arguments already read. *)
Lemma main_reports_once W input_path output_folder padding_percent :
  exists evs rep,
    main W input_path output_folder padding_percent
    = ((evs ++ [Stdout rep])%list,
       match rep with Success _ _ => 0 | Failure _ => 1 end)
    /\ reports evs = []
    /\ (exists tail, evs = MakeDirs output_folder :: Stderr Analyzing :: tail)
    /\ (forall n paths, rep = Success n paths ->
          n = List.length paths /\ paths = written evs).
Proof.
  unfold main.
  pose proof (extract_figures_reports W input_path output_folder (Int padding_percent))
    as Hr.
  pose proof (extract_figures_head W input_path output_folder (Int padding_percent))
    as Hh.
  pose proof (extract_figures_outcome W input_path output_folder (Int padding_percent))
    as Ho.
  destruct (extract_figures_from_image W input_path output_folder (Int padding_percent))
    as [evs [paths | e]]; cbn [events outcome fst snd] in *.
  - exists evs, (Success (List.length paths) paths).
    split; [reflexivity |]. split; [exact Hr |]. split; [exact Hh |].
    intros n paths' [= <- <-]. split; [reflexivity | apply Ho; reflexivity].
  - exists evs, (Failure e).
    split; [reflexivity |]. split; [exact Hr |]. split; [exact Hh |].
    intros n paths' H. discriminate.
Qed.

(** The script once its arguments are read and converted. *)
Lemma script_ended H W input_path output_folder padding_percent :
  exists evs status evs' rep,
    match os_makedirs H output_folder with
    | Raise e => Ended [Stdout (Failure e)] 1
    | Ok _ =>
        let (evs, status) := main W input_path output_folder padding_percent in
        Ended evs status
    end = Ended evs status
    /\ evs = (evs' ++ [Stdout rep])%list
    /\ reports evs' = []
    /\ status = match rep with Success _ _ => 0 | Failure _ => 1 end
    /\ (forall n paths, rep = Success n paths ->
          n = List.length paths /\ paths = written evs')
    /\ match os_makedirs H output_folder with
       | Raise e => evs' = [] /\ rep = Failure e
       | Ok _ =>
           (evs, status) = main W input_path output_folder padding_percent
           /\ exists tail,
                evs' = MakeDirs output_folder :: Stderr Analyzing :: tail
       end.
Proof.
  destruct (os_makedirs H output_folder) as [[] | e].
  - destruct (main_reports_once W input_path output_folder padding_percent)
      as (evs' & rep & E & Hr & Hh & Hs).
    rewrite E. eexists; eexists; exists evs', rep.
    split; [reflexivity |]. split; [reflexivity |]. split; [exact Hr |].
    split; [reflexivity |]. split; [exact Hs |]. split; [reflexivity | exact Hh].
  - eexists; eexists; exists [], (Failure e).
    split; [reflexivity |]. split; [reflexivity |]. split; [reflexivity |].
    split; [reflexivity |]. split; [discriminate |]. split; reflexivity.
Qed.

(** A run of the script that reaches the [try] either fails at
    [os.makedirs], or is the run of [main] on the arguments read. *)
Lemma script_runs_main H W argv evs status :
  script H W argv = Ended evs status ->
  (exists e, evs = [Stdout (Failure e)])
  \/ exists padding_percent,
       (evs, status)
       = main W (nth 1 argv "") (nth 2 argv "temp_image_storage") padding_percent.
Proof.
  assert (G : forall input_path output_folder padding_percent,
            match os_makedirs H output_folder with
            | Raise e => Ended [Stdout (Failure e)] 1
            | Ok _ =>
                let (evs, status) :=
                  main W input_path output_folder padding_percent in
                Ended evs status
            end = Ended evs status ->
            (exists e, evs = [Stdout (Failure e)])
            \/ (evs, status) = main W input_path output_folder padding_percent).
  { intros input_path output_folder padding_percent.
    destruct (os_makedirs H output_folder) as [[] | e].
    - destruct (main W input_path output_folder padding_percent) as [evs0 status0].
      intros [= <- <-]. right. reflexivity.
    - intros [= <- <-]. left. exists e. reflexivity. }
  destruct argv as [| a0 [| input_path [| folder [| padding rest]]]];
    cbn [script nth]; try discriminate; cbv zeta.
  - intros E. apply G in E as [E | E]; [left; exact E | right].
    exists 8. exact E.
  - intros E. apply G in E as [E | E]; [left; exact E | right].
    exists 8. exact E.
  - destruct (int_of_str H padding) as [padding_percent |]; [| discriminate].
    intros E. apply G in E as [E | E]; [left; exact E | right].
    exists padding_percent. exact E.
Qed.

(** X1. How a run of the remote script ends once its imports are done,
    for every argument list.  With fewer than two arguments it prints the
    usage text and no report.
    A third option that [int] rejects ends it with that exception,
    uncaught, before the [try]: no folder is created and no report is
    printed.  Every other run prints exactly one report, as its last
    output, and exits with 0 on a success report and 1 on a failure
    report; a success report counts and lists exactly the files written.
    When [os.makedirs] raises, as it does on an empty folder name, the
    report is that failure and nothing else is done; when it returns, the
    run is that of the [try] block on the input path, the folder given or
    [temp_image_storage], and the padding given or 8. *)
Theorem remote_script_reports_once (H : host) (W : world) (argv : list string) :
  let output_folder := nth 2 argv "temp_image_storage" in
  match script H W argv with
  | Usage => (List.length argv < 2)%nat
  | Uncaught e =>
      (2 <= List.length argv)%nat
      /\ exists padding,
           nth_error argv 3 = Some padding /\ int_of_str H padding = Raise e
  | Ended evs status =>
      (2 <= List.length argv)%nat
      /\ exists padding_percent evs' rep,
           match nth_error argv 3 with
           | Some padding => int_of_str H padding = Ok padding_percent
           | None => padding_percent = 8
           end
           /\ evs = (evs' ++ [Stdout rep])%list
           /\ reports evs' = []
           /\ status = match rep with Success _ _ => 0 | Failure _ => 1 end
           /\ (forall n paths, rep = Success n paths ->
                 n = List.length paths /\ paths = written evs')
           /\ match os_makedirs H output_folder with
              | Raise e => evs' = [] /\ rep = Failure e
              | Ok _ =>
                  (evs, status)
                  = main W (nth 1 argv "") output_folder padding_percent
                  /\ exists tail,
                       evs' = MakeDirs output_folder :: Stderr Analyzing :: tail
              end
  end.
Proof.
  cbn zeta.
  destruct argv as [| a0 [| input_path [| folder [| padding rest]]]];
    cbn [script List.length nth nth_error].
  - lia.
  - lia.
  - cbv zeta.
    destruct (script_ended H W input_path "temp_image_storage" 8)
      as (evs & status & evs' & rep & E & K).
    rewrite E. split; [lia |]. exists 8, evs', rep.
    split; [reflexivity | exact K].
  - cbv zeta.
    destruct (script_ended H W input_path folder 8)
      as (evs & status & evs' & rep & E & K).
    rewrite E. split; [lia |]. exists 8, evs', rep.
    split; [reflexivity | exact K].
  - cbv zeta. destruct (int_of_str H padding) as [padding_percent | e] eqn:P.
    + destruct (script_ended H W input_path folder padding_percent)
        as (evs & status & evs' & rep & E & K).
      rewrite E. split; [lia |]. exists padding_percent, evs', rep.
      split; [reflexivity | exact K].
    + split; [lia |]. exists padding. split; [reflexivity | exact P].
Qed.

(** X2. Without an API key (unset or empty) the run fails with
    [ValueError] whatever the file, the network or the image would have
    given: the folder is created, the analysis announced, nothing is
    written, the report is a failure and the exit status 1. *)
Theorem missing_api_key_fails
  (W : world) (image_path output_folder : string) (padding_percent : Z) :
  api_key W = None \/ api_key W = Some "" ->
  detect_figure_regions_with_openai W image_path = Raise ValueError
  /\ main W image_path output_folder padding_percent
     = ([MakeDirs output_folder; Stderr Analyzing; Stdout (Failure ValueError)], 1).
Proof.
  intros Hk.
  assert (Hd : detect_figure_regions_with_openai W image_path = Raise ValueError).
  { unfold detect_figure_regions_with_openai. destruct Hk as [-> | ->]; reflexivity. }
  split; [exact Hd |].
  unfold main, extract_figures_from_image. rewrite Hd. reflexivity.
Qed.

Lemma missing_api_key_fails_witness :
  main Samples.no_key_world "notes.jpg" "out" 8
  = ([MakeDirs "out"; Stderr Analyzing; Stdout (Failure ValueError)], 1).
Proof.
  apply (missing_api_key_fails Samples.no_key_world "notes.jpg" "out" 8).
  left. reflexivity.
Defined.

(** X3. A response whose status is not 200 makes the run fail, whatever
    its body: nothing is parsed, no image is read, nothing is written, the
    report is a failure and the exit status 1. *)
Theorem http_error_fails
  (W : world) (image_path output_folder : string) (padding_percent : Z)
  (key : string) (status : Z) (body : result Text.text) :
  api_key W = Some key -> key <> "" ->
  open_image W image_path = Ok tt ->
  post W = Ok (status, body) -> status <> 200 ->
  main W image_path output_folder padding_percent
  = ([MakeDirs output_folder; Stderr Analyzing; Stdout (Failure OtherError)], 1).
Proof.
  intros Hk Hne Ho Hp Hs.
  assert (Hd : detect_figure_regions_with_openai W image_path = Raise OtherError).
  { unfold detect_figure_regions_with_openai. rewrite Hk.
    destruct key as [| c key]; [congruence |].
    rewrite Ho, Hp. cbn [rbind fst snd].
    destruct (Z.eqb_spec status 200) as [E | _]; [contradiction | reflexivity]. }
  unfold main, extract_figures_from_image. rewrite Hd. reflexivity.
Qed.

Lemma http_error_fails_witness :
  main (Samples.status_world 429) "notes.jpg" "out" 8
  = ([MakeDirs "out"; Stderr Analyzing; Stdout (Failure OtherError)], 1).
Proof.
  apply (http_error_fails (Samples.status_world 429) "notes.jpg" "out" 8
           "sk-test" 429 (Ok (Text.of_string "{}")));
    try reflexivity; discriminate.
Defined.

(** *** The figures kept, when figures normalize *)

Lemma kept_app img_width img_height padding_percent pre : forall i l,
  Forall (normalizes img_width img_height padding_percent) pre ->
  kept img_width img_height padding_percent i (pre ++ l)
  = (kept img_width img_height padding_percent i pre
     ++ kept img_width img_height padding_percent (i + List.length pre) l)%list.
Proof.
  induction pre as [| figure pre IH]; intros i l Hall.
  - cbn. rewrite Nat.add_0_r. reflexivity.
  - inversion Hall as [| ? ? [r Hr] Hall' ]; subst.
    cbn [app kept List.length]. rewrite Hr.
    rewrite (IH (S i) l Hall'). replace (S i + List.length pre)%nat
      with (i + S (List.length pre))%nat by lia.
    destruct (survives r); reflexivity.
Qed.

Lemma kept_filter_length img_width img_height padding_percent figures : forall i,
  Forall (normalizes img_width img_height padding_percent) figures ->
  List.length (kept img_width img_height padding_percent i figures)
  = List.length (filter (keeps img_width img_height padding_percent) figures).
Proof.
  induction figures as [| figure rest IH]; intros i Hall; [reflexivity |].
  inversion Hall as [| ? ? [r Hr] Hall' ]; subst.
  cbn [kept filter]. unfold keeps at 1. rewrite Hr.
  destruct (survives r); cbn [List.length]; rewrite (IH (S i) Hall'); reflexivity.
Qed.

Lemma kept_fst_ge img_width img_height padding_percent figures : forall i j,
  In j (map fst (kept img_width img_height padding_percent i figures)) -> (i <= j)%nat.
Proof.
  induction figures as [| figure rest IH]; intros i j; [intros [] |].
  cbn [kept].
  destruct (normalize figure img_width img_height padding_percent) as [r |];
    [| intros []].
  destruct (survives r).
  - cbn [map fst In]. intros [<- | H]; [lia | apply IH in H; lia].
  - intros H. apply IH in H. lia.
Qed.

Lemma kept_fst_NoDup img_width img_height padding_percent figures : forall i,
  NoDup (map fst (kept img_width img_height padding_percent i figures)).
Proof.
  induction figures as [| figure rest IH]; intros i; [constructor |].
  cbn [kept].
  destruct (normalize figure img_width img_height padding_percent) as [r |];
    [| constructor].
  destruct (survives r); [| apply IH].
  cbn [map fst]. constructor; [| apply IH].
  intros H. apply kept_fst_ge in H. lia.
Qed.

(** With every figure normalizing, the kept indices are the positions of
    the figures that survive. *)
Lemma kept_complete img_width img_height padding_percent figures : forall i k figure,
  Forall (normalizes img_width img_height padding_percent) figures ->
  nth_error figures k = Some figure ->
  keeps img_width img_height padding_percent figure = true ->
  In (i + k)%nat (map fst (kept img_width img_height padding_percent i figures)).
Proof.
  induction figures as [| f rest IH]; intros i k figure Hall Hn Hk.
  - destruct k; discriminate.
  - inversion Hall as [| ? ? [r Hr] Hall' ]; subst. cbn [kept]. rewrite Hr.
    destruct k as [| k].
    + injection Hn as ->. unfold keeps in Hk. rewrite Hr in Hk. rewrite Hk.
      left. cbn. lia.
    + cbn [nth_error] in Hn.
      pose proof (IH (S i) k figure Hall' Hn Hk) as H.
      replace (S i + k)%nat with (i + S k)%nat in H by lia.
      destruct (survives r); [right |]; exact H.
Qed.

Lemma NoDup_map_inj {A B} (f : A -> B) (l : list A) :
  (forall a b, f a = f b -> a = b) -> NoDup l -> NoDup (map f l).
Proof.
  intros Hf Hl. induction Hl as [| a l Hn Hl IH]; [constructor |].
  cbn. constructor; [| exact IH].
  intros H. apply in_map_iff in H as (b & E & Hb). apply Hf in E. subst b. contradiction.
Qed.

(** *** The outcome of the loop *)

Lemma extract_loop_ok img_width img_height padding_percent output_folder base
  figures : forall i acc,
  Forall (normalizes img_width img_height padding_percent) figures ->
  outcome (extract_loop img_width img_height padding_percent output_folder base
                        i figures acc)
  = Ok (acc ++ map (figure_path output_folder base)
                   (map fst (kept img_width img_height padding_percent i figures)))%list.
Proof.
  induction figures as [| figure rest IH]; intros i acc Hall.
  - cbn. rewrite app_nil_r. reflexivity.
  - inversion Hall as [| ? ? [r Hr] Hall' ]; subst.
    rewrite extract_loop_cons. cbn [kept]. rewrite Hr.
    destruct (survives r).
    + cbn [outcome snd map fst]. rewrite (IH _ _ Hall'), <- app_assoc. reflexivity.
    + apply IH, Hall'.
Qed.

Lemma extract_loop_raise img_width img_height padding_percent output_folder base
  pre bad rest e : forall i acc,
  Forall (normalizes img_width img_height padding_percent) pre ->
  normalize bad img_width img_height padding_percent = Raise e ->
  outcome (extract_loop img_width img_height padding_percent output_folder base
                        i (pre ++ bad :: rest) acc) = Raise e.
Proof.
  induction pre as [| figure pre IH]; intros i acc Hall Hbad.
  - cbn [app]. rewrite extract_loop_cons, Hbad. reflexivity.
  - inversion Hall as [| ? ? [r Hr] Hall' ]; subst.
    cbn [app]. rewrite extract_loop_cons, Hr.
    destruct (survives r); [cbn [outcome snd] |]; apply IH; assumption.
Qed.

Lemma kept_stops img_width img_height padding_percent pre bad rest e i :
  Forall (normalizes img_width img_height padding_percent) pre ->
  normalize bad img_width img_height padding_percent = Raise e ->
  kept img_width img_height padding_percent i (pre ++ bad :: rest)
  = kept img_width img_height padding_percent i pre.
Proof.
  intros Hall Hbad. rewrite kept_app by exact Hall.
  cbn [kept]. rewrite Hbad. apply app_nil_r.
Qed.

Lemma main_of_run W input_path output_folder padding_percent :
  main W input_path output_folder padding_percent
  = let run := extract_figures_from_image W input_path output_folder
                                          (Int padding_percent) in
    match outcome run with
    | Ok extracted =>
        ((events run ++ [Stdout (Success (List.length extracted) extracted)])%list, 0)
    | Raise e => ((events run ++ [Stdout (Failure e)])%list, 1)
    end.
Proof.
  unfold main.
  destruct (extract_figures_from_image W input_path output_folder (Int padding_percent))
    as [evs [paths | e]]; reflexivity.
Qed.

(** X4. The loop ends at the first figure that raises: the crops of the
    surviving figures before it are written and stay on disk, nothing is
    written for the figures after it, and the run reports the failure with
    exit status 1 and no list of paths. *)
Theorem first_failing_figure_ends_the_run
  (W : world) (image_path output_folder : string) (padding_percent : Z)
  (answer : list (string * value)) (pre : list value) (bad : value)
  (rest : list value) (img_height img_width : Z) (e : exn) :
  detect_figure_regions_with_openai W image_path = Ok (Obj answer) ->
  lookup "figures" answer = Some (Arr (pre ++ bad :: rest)) ->
  imread W image_path = Some (img_height, img_width) ->
  Forall (normalizes img_width img_height (Int padding_percent)) pre ->
  normalize bad img_width img_height (Int padding_percent) = Raise e ->
  let run := extract_figures_from_image W image_path output_folder
                                        (Int padding_percent) in
  outcome run = Raise e
  /\ written (events run)
     = map (figure_path output_folder (base_filename image_path))
           (map fst (kept img_width img_height (Int padding_percent) 0 pre))
  /\ List.length (written (events run))
     = List.length (filter (keeps img_width img_height (Int padding_percent)) pre)
  /\ main W image_path output_folder padding_percent
     = ((events run ++ [Stdout (Failure e)])%list, 1).
Proof.
  intros Hd Hl Him Hall Hbad run.
  assert (Ho : outcome run = Raise e).
  { subst run. rewrite (run_of_list _ _ _ _ _ _ _ _ Hd Hl Him). cbn [outcome snd].
    apply extract_loop_raise; assumption. }
  assert (Hw : written (events run)
               = map (figure_path output_folder (base_filename image_path))
                     (map fst (kept img_width img_height (Int padding_percent) 0 pre))).
  { subst run. unfold written. rewrite extract_figures_imwrites, Him.
    unfold provided. rewrite Hd. cbn [get]. rewrite Hl. cbn [iterate].
    rewrite (kept_stops _ _ _ _ _ _ _ _ Hall Hbad), !map_map. reflexivity. }
  split; [exact Ho |]. split; [exact Hw |]. split.
  - rewrite Hw, !length_map. apply kept_filter_length, Hall.
  - rewrite main_of_run. fold run. cbn zeta. rewrite Ho. reflexivity.
Qed.

Lemma first_failing_figure_ends_the_run_witness :
  let run := extract_figures_from_image
               (Samples.remote_world
                  (Obj [("figures", Arr [Samples.chart; Str "oops"; Samples.chart])]))
               "notes.jpg" "out" (Int 8) in
  outcome run = Raise AttributeError
  /\ written (events run)
     = map (figure_path "out" (base_filename "notes.jpg"))
           (map fst (kept 1000 1000 (Int 8) 0 [Samples.chart]))
  /\ List.length (written (events run))
     = List.length (filter (keeps 1000 1000 (Int 8)) [Samples.chart])
  /\ main (Samples.remote_world
             (Obj [("figures", Arr [Samples.chart; Str "oops"; Samples.chart])]))
          "notes.jpg" "out" 8
     = ((events run ++ [Stdout (Failure AttributeError)])%list, 1).
Proof.
  apply (first_failing_figure_ends_the_run
           (Samples.remote_world
              (Obj [("figures", Arr [Samples.chart; Str "oops"; Samples.chart])]))
           "notes.jpg" "out" 8
           [("figures", Arr [Samples.chart; Str "oops"; Samples.chart])]
           [Samples.chart] (Str "oops") [Samples.chart] 1000 1000 AttributeError).
  - reflexivity.
  - reflexivity.
  - reflexivity.
  - constructor; [| constructor]. eexists. vm_compute. reflexivity.
  - reflexivity.
Defined.

(** X5. When every figure of the answer normalizes, the run succeeds: the
    report counts the figures whose region survives, and a path with index
    [i] is reported exactly when the figure at position [i] of the answer
    survives, so dropped figures leave gaps in the numbering. *)
Theorem all_figures_normalize_success
  (W : world) (image_path output_folder : string) (padding_percent : Z)
  (answer : list (string * value)) (items : list value)
  (img_height img_width : Z) :
  detect_figure_regions_with_openai W image_path = Ok (Obj answer) ->
  lookup "figures" answer = Some (Arr items) ->
  imread W image_path = Some (img_height, img_width) ->
  Forall (normalizes img_width img_height (Int padding_percent)) items ->
  exists evs paths,
    main W image_path output_folder padding_percent
    = ((evs ++ [Stdout (Success (List.length paths) paths)])%list, 0)
    /\ written evs = paths
    /\ List.length paths
       = List.length (filter (keeps img_width img_height (Int padding_percent)) items)
    /\ forall i,
         In (figure_path output_folder (base_filename image_path) i) paths
         <-> exists figure,
               nth_error items i = Some figure
               /\ keeps img_width img_height (Int padding_percent) figure = true.
Proof.
  intros Hd Hl Him Hall.
  set (run := extract_figures_from_image W image_path output_folder (Int padding_percent)).
  set (ks := map fst (kept img_width img_height (Int padding_percent) 0 items)).
  assert (Ho : outcome run
               = Ok (map (figure_path output_folder (base_filename image_path)) ks)).
  { subst run. rewrite (run_of_list _ _ _ _ _ _ _ _ Hd Hl Him). cbn [outcome snd].
    rewrite extract_loop_ok by exact Hall. reflexivity. }
  exists (events run), (map (figure_path output_folder (base_filename image_path)) ks).
  split; [| split; [| split]].
  - rewrite main_of_run. fold run. cbn zeta. rewrite Ho. reflexivity.
  - symmetry. apply extract_figures_outcome. exact Ho.
  - unfold ks. rewrite !length_map. apply kept_filter_length, Hall.
  - intros i. split.
    + intros H. apply in_map_iff in H as (j & E & Hj).
      apply figure_path_inj in E. subst j.
      unfold ks in Hj. apply in_map_iff in Hj as ([j r] & E & Hk). cbn [fst] in E. subst j.
      destruct (kept_sound _ _ _ _ _ _ _ Hk) as (figure & _ & Hn & Hr & Hs).
      exists figure. rewrite Nat.sub_0_r in Hn. split; [exact Hn |].
      unfold keeps. rewrite Hr. exact Hs.
    + intros (figure & Hn & Hk). apply in_map. unfold ks.
      apply (kept_complete _ _ _ _ 0%nat i figure Hall Hn Hk).
Qed.

Lemma all_figures_normalize_success_witness :
  exists evs paths,
    main (Samples.remote_world
            (Obj [("figures", Arr [Samples.empty_width; Samples.chart])]))
         "notes.jpg" "out" 8
    = ((evs ++ [Stdout (Success (List.length paths) paths)])%list, 0)
    /\ written evs = paths
    /\ List.length paths
       = List.length (filter (keeps 1000 1000 (Int 8))
                             [Samples.empty_width; Samples.chart])
    /\ forall i,
         In (figure_path "out" (base_filename "notes.jpg") i) paths
         <-> exists figure,
               nth_error [Samples.empty_width; Samples.chart] i = Some figure
               /\ keeps 1000 1000 (Int 8) figure = true.
Proof.
  apply (all_figures_normalize_success
           (Samples.remote_world
              (Obj [("figures", Arr [Samples.empty_width; Samples.chart])]))
           "notes.jpg" "out" 8
           [("figures", Arr [Samples.empty_width; Samples.chart])]
           [Samples.empty_width; Samples.chart] 1000 1000).
  - reflexivity.
  - reflexivity.
  - reflexivity.
  - repeat constructor; eexists; vm_compute; reflexivity.
Defined.

(** X6. No run writes to the same path twice: the paths written by the
    remote script are pairwise distinct, so no crop of a run overwrites
    another crop of that run. *)
Theorem remote_paths_distinct
  (W : world) (image_path output_folder : string) (padding_percent : num) :
  NoDup (written (events (extract_figures_from_image W image_path output_folder
                                                     padding_percent))).
Proof.
  unfold written. rewrite extract_figures_imwrites.
  destruct (imread W image_path) as [[img_height img_width] |]; [| constructor].
  rewrite map_map.
  change (map (fun ir => fst (crop_of output_folder (base_filename image_path) ir)))
    with (map (fun ir : nat * region =>
                 figure_path output_folder (base_filename image_path) (fst ir))).
  rewrite <- (map_map fst (figure_path output_folder (base_filename image_path))).
  apply NoDup_map_inj; [apply figure_path_inj | apply kept_fst_NoDup].
Qed.

(** *** Answers of another shape *)

(** X7. Any [figures] value that Python counts as false ([null], [false],
    [0], [0.0], an empty string, list or object) ends the run as an empty
    list does: the image is not even read, nothing is written, and the
    report is a success with [extracted_count] 0. *)
Theorem falsy_figures_is_empty_success
  (W : world) (image_path output_folder : string) (padding_percent : Z)
  (answer : list (string * value)) (figures : value) :
  detect_figure_regions_with_openai W image_path = Ok (Obj answer) ->
  lookup "figures" answer = Some figures ->
  truthy figures = false ->
  extract_figures_from_image W image_path output_folder (Int padding_percent)
  = ([MakeDirs output_folder; Stderr Analyzing], Ok [])
  /\ main W image_path output_folder padding_percent
     = ([MakeDirs output_folder; Stderr Analyzing; Stdout (Success 0 [])], 0).
Proof.
  intros Hd Hl Ht.
  assert (E : extract_figures_from_image W image_path output_folder (Int padding_percent)
              = ([MakeDirs output_folder; Stderr Analyzing], Ok [])).
  { unfold extract_figures_from_image. rewrite Hd. cbn [emit lift bind get].
    rewrite Hl, Ht. reflexivity. }
  split; [exact E |]. unfold main. rewrite E. reflexivity.
Qed.

Lemma falsy_figures_is_empty_success_witness :
  main (Samples.remote_world (Obj [("figures", Null)])) "notes.jpg" "out" 8
  = ([MakeDirs "out"; Stderr Analyzing; Stdout (Success 0 [])], 0).
Proof.
  apply (falsy_figures_is_empty_success
           (Samples.remote_world (Obj [("figures", Null)])) "notes.jpg" "out" 8
           [("figures", Null)] Null); reflexivity.
Defined.

(** X8. An answer that is valid JSON but not an object (a list of figures,
    a string, a number) makes the run fail with [AttributeError]: nothing
    is written and the exit status is 1. *)
Theorem answer_not_an_object_fails
  (W : world) (image_path output_folder : string) (padding_percent : Z)
  (answer : value) :
  detect_figure_regions_with_openai W image_path = Ok answer ->
  (forall kv, answer <> Obj kv) ->
  main W image_path output_folder padding_percent
  = ([MakeDirs output_folder; Stderr Analyzing; Stdout (Failure AttributeError)], 1).
Proof.
  intros Hd Hn. unfold main, extract_figures_from_image. rewrite Hd.
  destruct answer; try reflexivity. exfalso. apply (Hn kv). reflexivity.
Qed.

Lemma answer_not_an_object_fails_witness :
  main (Samples.remote_world (Arr [Samples.chart])) "notes.jpg" "out" 8
  = ([MakeDirs "out"; Stderr Analyzing; Stdout (Failure AttributeError)], 1).
Proof.
  apply (answer_not_an_object_fails
           (Samples.remote_world (Arr [Samples.chart])) "notes.jpg" "out" 8
           (Arr [Samples.chart])); [reflexivity | discriminate].
Defined.

(** X9. A [figures] value that is true but no list makes the run fail once
    the image has been read, with nothing written: a number or [true]
    cannot be iterated ([TypeError]); a string or an object is iterated,
    and its first character or key has no [get] ([AttributeError]). *)
Theorem figures_not_a_list_fails
  (W : world) (image_path output_folder : string) (padding_percent : Z)
  (answer : list (string * value)) (figures : value) (dims : Z * Z) :
  detect_figure_regions_with_openai W image_path = Ok (Obj answer) ->
  lookup "figures" answer = Some figures ->
  truthy figures = true ->
  (forall l, figures <> Arr l) ->
  imread W image_path = Some dims ->
  main W image_path output_folder padding_percent
  = ([MakeDirs output_folder; Stderr Analyzing;
      Stdout (Failure match figures with
                      | Num _ | Bool _ => TypeError
                      | _ => AttributeError
                      end)], 1).
Proof.
  intros Hd Hl Ht Hn Him. destruct dims as [img_height img_width].
  unfold main, extract_figures_from_image. rewrite Hd. cbn [emit lift bind get].
  rewrite Hl, Ht, Him. cbn [negb].
  destruct figures as [| b | n | s | l | kv]; cbn [iterate lift bind app];
    try reflexivity; try discriminate.
  - destruct s as [| c s]; [discriminate | reflexivity].
  - exfalso. apply (Hn l). reflexivity.
  - destruct kv as [| [k v] kv]; [discriminate | reflexivity].
Qed.

Lemma figures_not_a_list_fails_witness :
  main (Samples.remote_world (Obj [("figures", Samples.chart)])) "notes.jpg" "out" 8
  = ([MakeDirs "out"; Stderr Analyzing; Stdout (Failure AttributeError)], 1).
Proof.
  apply (figures_not_a_list_fails
           (Samples.remote_world (Obj [("figures", Samples.chart)])) "notes.jpg" "out" 8
           [("figures", Samples.chart)] Samples.chart (1000, 1000));
    try reflexivity. discriminate.
Defined.

(** X23. The remote script writes a file only after the provider's answer
    was obtained and parsed, its [figures] value is true, and the image
    could be read: in every other run the output folder is created and
    nothing is written into it. *)
Theorem files_written_only_after_detection
  (W : world) (image_path output_folder : string) (padding_percent : Z)
  (path : string) :
  In path (written (fst (main W image_path output_folder padding_percent))) ->
  exists answer figures dims,
    detect_figure_regions_with_openai W image_path = Ok answer
    /\ get answer "figures" (Arr []) = Ok figures
    /\ truthy figures = true
    /\ imread W image_path = Some dims.
Proof.
  unfold main.
  assert (E : forall (m : M (list string)),
            written (fst (match m with
                          | (evs, Ok extracted) =>
                              ((evs ++ [Stdout (Success (List.length extracted)
                                                        extracted)])%list, 0)
                          | (evs, Raise e) => ((evs ++ [Stdout (Failure e)])%list, 1)
                          end)) = written (events m)).
  { intros [evs [paths | e]]; cbn [fst events]; rewrite written_app; apply app_nil_r. }
  rewrite E. clear E. unfold extract_figures_from_image.
  destruct (detect_figure_regions_with_openai W image_path) as [answer | e];
    cbn [emit lift bind app]; [| intros []].
  destruct (get answer "figures" (Arr [])) as [figures | e] eqn:Hg;
    cbn [emit lift bind app]; [| intros []].
  destruct (truthy figures) eqn:Ht; cbn [negb]; [| intros []].
  destruct (imread W image_path) as [dims |] eqn:Hi; [| intros []].
  intros _. exists answer, figures, dims. repeat split; assumption.
Qed.

Lemma files_written_only_after_detection_witness :
  exists answer figures dims,
    detect_figure_regions_with_openai
      (Samples.remote_world (Obj [("figures", Arr [Samples.chart])])) "notes.jpg"
    = Ok answer
    /\ get answer "figures" (Arr []) = Ok figures
    /\ truthy figures = true
    /\ imread (Samples.remote_world (Obj [("figures", Arr [Samples.chart])]))
              "notes.jpg" = Some dims.
Proof.
  apply (files_written_only_after_detection
           (Samples.remote_world (Obj [("figures", Arr [Samples.chart])]))
           "notes.jpg" "out" 8 (figure_path "out" (base_filename "notes.jpg") 0)).
  vm_compute. left. reflexivity.
Defined.

(** *** The notices on standard error *)

Lemma extract_loop_announced img_width img_height padding_percent output_folder base
  figures : forall i acc,
  announced (events (extract_loop img_width img_height padding_percent
                                  output_folder base i figures acc))
  = map fst (kept img_width img_height padding_percent i figures).
Proof.
  induction figures as [| figure rest IH]; intros i acc; [reflexivity |].
  rewrite extract_loop_cons. cbn [kept].
  destruct (normalize figure img_width img_height padding_percent) as [r | e];
    [| reflexivity].
  destruct (survives r).
  - cbn [events fst announced map]. rewrite IH. reflexivity.
  - apply IH.
Qed.

Lemma extract_figures_announced W image_path output_folder padding_percent :
  announced (events (extract_figures_from_image W image_path output_folder
                                                padding_percent)) =
  match imread W image_path with
  | Some (img_height, img_width) =>
      map fst (kept img_width img_height padding_percent 0 (provided W image_path))
  | None => []
  end.
Proof.
  unfold extract_figures_from_image, provided.
  destruct (imread W image_path) as [[img_height img_width] |];
    run_step;
    (destruct (detect_figure_regions_with_openai W image_path) as [result |];
     run_step; [| reflexivity]);
    (destruct (get result "figures" (Arr [])) as [figures |];
     run_step; [| reflexivity]);
    destruct (truthy figures) eqn:T; run_step;
    try rewrite (falsy_provides_nothing _ T); try reflexivity.
  destruct (iterate figures) as [items |]; run_step; [| reflexivity].
  cbn [announced]. apply extract_loop_announced.
Qed.

(** X24. Every file the remote script writes is announced on standard
    error by a notice that carries the index in the file's name; no notice
    is printed for a figure that is dropped or fails, so the indices
    announced are those of the files written, in order. *)
Theorem every_crop_is_announced
  (W : world) (image_path output_folder : string) (padding_percent : num) :
  let run := extract_figures_from_image W image_path output_folder padding_percent in
  written (events run)
  = map (figure_path output_folder (base_filename image_path))
        (announced (events run)).
Proof.
  cbn zeta. unfold written.
  rewrite extract_figures_imwrites, extract_figures_announced.
  destruct (imread W image_path) as [[img_height img_width] |]; [| reflexivity].
  rewrite !map_map. reflexivity.
Qed.

End RemoteRuns.

(** ** Region arithmetic of the remote script *)

Module RegionArithmetic.

Import Binary64 Binary64Facts Py PyFacts Json OsPath Effects EffectsFacts
       ExtractImagesOpenai ExtractImagesOpenaiFacts.
Local Open Scope string_scope.
Local Open Scope Z_scope.

Lemma quot_100_bounds a : 0 <= a -> 0 <= Z.quot a 100 /\ 100 * Z.quot a 100 <= a.
Proof.
  intros Ha. rewrite Z.quot_div_nonneg by lia.
  pose proof (Z.div_mod a 100 ltac:(lia)).
  pose proof (Z.mod_pos_bound a 100 ltac:(lia)).
  split; [apply Z.div_pos; lia | lia].
Qed.

Lemma quot_100_nonpos a : a <= 0 -> Z.quot a 100 <= 0.
Proof.
  intros Ha. replace a with (- (- a)) by lia.
  rewrite Z.quot_opp_l by lia.
  pose proof (quot_100_bounds (- a) ltac:(lia)). lia.
Qed.

(** X10. Percentages that describe a rectangle inside the image (each at
    least 0, [x + width <= 100], [y + height <= 100]) give, with padding 0,
    exactly their truncated pixel values: clamping changes nothing, and the
    region lies inside the image. *)
Theorem valid_percentages_need_no_clamp
  (figure bbox : list (string * value)) (px py pw ph : Z)
  (img_width img_height : Z) :
  lookup "bbox" figure = Some (Obj bbox) ->
  lookup "x" bbox = Some (Num (Int px)) ->
  lookup "y" bbox = Some (Num (Int py)) ->
  lookup "width" bbox = Some (Num (Int pw)) ->
  lookup "height" bbox = Some (Num (Int ph)) ->
  0 <= px -> 0 <= pw -> px + pw <= 100 ->
  0 <= py -> 0 <= ph -> py + ph <= 100 ->
  0 <= img_width -> 0 <= img_height ->
  100 * img_width < 2 ^ 52 -> 100 * img_height < 2 ^ 52 ->
  let r := Region (Z.quot (px * img_width) 100) (Z.quot (py * img_height) 100)
                  (Z.quot (pw * img_width) 100) (Z.quot (ph * img_height) 100) in
  normalize (Obj figure) img_width img_height (Int 0) = Ok r
  /\ 0 <= x r /\ 0 <= y r /\ 0 <= w r /\ 0 <= h r
  /\ x r + w r <= img_width /\ y r + h r <= img_height.
Proof.
  intros Lb Lx Ly Lw Lh Hx Hw Hxw Hy Hh Hyh HW HH BW BH r.
  pose proof (quot_100_bounds (px * img_width) ltac:(nia)) as [X0 X1].
  pose proof (quot_100_bounds (py * img_height) ltac:(nia)) as [Y0 Y1].
  pose proof (quot_100_bounds (pw * img_width) ltac:(nia)) as [W0 W1].
  pose proof (quot_100_bounds (ph * img_height) ltac:(nia)) as [H0 H1].
  assert (Bx : x r + w r <= img_width) by (subst r; cbn [x w]; nia).
  assert (By : y r + h r <= img_height) by (subst r; cbn [y h]; nia).
  split; [| subst r; cbn [x y w h] in *; lia].
  unfold normalize. cbn [get rbind]. rewrite Lb.
  unfold percent_to_pixels. cbn [get rbind]. rewrite Lx, Ly, Lw, Lh.
  rewrite !to_pixels_int by (rewrite Z.abs_eq; nia). cbn [rbind].
  unfold pad_and_clamp, apply_padding. cbn [x y w h].
  rewrite !padding_int by (rewrite Z.mul_0_r; cbn; lia).
  rewrite !Z.mul_0_r. cbn [rbind Z.quot Z.quotrem fst Z.mul].
  unfold clamp. cbn [x y w h]. subst r. cbn [x y w h] in *.
  f_equal. f_equal; lia.
Qed.

Lemma valid_percentages_need_no_clamp_witness :
  let r := Region (Z.quot (10 * 1000) 100) (Z.quot (20 * 1000) 100)
                  (Z.quot (30 * 1000) 100) (Z.quot (40 * 1000) 100) in
  normalize Samples.chart 1000 1000 (Int 0) = Ok r
  /\ 0 <= x r /\ 0 <= y r /\ 0 <= w r /\ 0 <= h r
  /\ x r + w r <= 1000 /\ y r + h r <= 1000.
Proof.
  apply (valid_percentages_need_no_clamp
           [("type", Str "bar_chart"); ("description", Str "sales by month");
            ("bbox", Samples.bbox_10_20_30_40)]
           [("x", Num (Int 10)); ("y", Num (Int 20));
            ("width", Num (Int 30)); ("height", Num (Int 40))]
           10 20 30 40 1000 1000); try reflexivity; lia.
Defined.

(** X11. With a non-negative padding percent the crop contains every image
    pixel of the padded rectangle, hence of the detected rectangle: padding
    and clamping never cut content that is in the image. *)
Theorem padded_crop_contains_rectangle
  (r c : region) (p img_width img_height : Z) :
  0 <= w r -> 0 <= h r -> 0 <= p ->
  w r * p < 2 ^ 52 -> h r * p < 2 ^ 52 ->
  pad_and_clamp r (Int p) img_width img_height = Ok c ->
  let padding_x := Z.quot (w r * p) 100 in
  let padding_y := Z.quot (h r * p) 100 in
  0 <= padding_x /\ 0 <= padding_y
  /\ (forall col, x r - padding_x <= col < x r + w r + padding_x ->
                  0 <= col < img_width -> x c <= col < x c + w c)
  /\ (forall row, y r - padding_y <= row < y r + h r + padding_y ->
                  0 <= row < img_height -> y c <= row < y c + h c).
Proof.
  intros Hw Hh Hp Bw Bh E padding_x padding_y.
  pose proof (quot_100_bounds (w r * p) ltac:(nia)) as [Px _].
  pose proof (quot_100_bounds (h r * p) ltac:(nia)) as [Py _].
  fold padding_x in Px. fold padding_y in Py.
  unfold pad_and_clamp, apply_padding in E.
  rewrite !padding_int in E by (rewrite Z.abs_eq; nia).
  cbn [rbind] in E. injection E as <-.
  fold padding_x padding_y. unfold clamp. cbn [x y w h].
  split; [exact Px |]. split; [exact Py |]. split; intros t Ht Hi; lia.
Qed.

Lemma padded_crop_contains_rectangle_witness :
  let padding_x := Z.quot (300 * 8) 100 in
  let padding_y := Z.quot (400 * 8) 100 in
  0 <= padding_x /\ 0 <= padding_y
  /\ (forall col, 0 - padding_x <= col < 0 + 300 + padding_x ->
                  0 <= col < 1000 -> 0 <= col < 0 + 348)
  /\ (forall row, 700 - padding_y <= row < 700 + 400 + padding_y ->
                  0 <= row < 1000 -> 668 <= row < 668 + 332).
Proof.
  apply (padded_crop_contains_rectangle (Region 0 700 300 400) (Region 0 668 348 332)
           8 1000 1000); cbn [x y w h]; try lia.
  vm_compute. reflexivity.
Defined.

(** X12. Padding never revives an empty region: a rectangle whose width or
    height is not positive before padding is dropped, for every
    non-negative padding percent. *)
Theorem empty_region_stays_empty
  (r : region) (p img_width img_height : Z) :
  w r <= 0 \/ h r <= 0 -> 0 <= p ->
  Z.abs (w r * p) < 2 ^ 52 -> Z.abs (h r * p) < 2 ^ 52 ->
  exists c, pad_and_clamp r (Int p) img_width img_height = Ok c
            /\ survives c = false.
Proof.
  intros He Hp Bw Bh. unfold pad_and_clamp, apply_padding.
  rewrite !padding_int by assumption. cbn [rbind].
  eexists. split; [reflexivity |].
  unfold survives, clamp. cbn [x y w h].
  apply andb_false_iff. rewrite !Z.ltb_ge.
  destruct He as [He | He].
  - left. pose proof (quot_100_nonpos (w r * p) ltac:(nia)). lia.
  - right. pose proof (quot_100_nonpos (h r * p) ltac:(nia)). lia.
Qed.

Lemma empty_region_stays_empty_witness :
  exists c, pad_and_clamp (Region 500 0 0 1000) (Int 8) 1000 1000 = Ok c
            /\ survives c = false.
Proof.
  apply (empty_region_stays_empty (Region 500 0 0 1000) 8 1000 1000);
    cbn [x y w h]; lia.
Defined.

(** X25. Clamping moves the left edge without shortening the width: when
    the padded rectangle starts left of the image and its padded width
    fits, the crop starts at column 0 and is as wide as the whole padded
    rectangle, so it reaches further right than the padded rectangle does.
    Likewise for rows. *)
Theorem clipped_crop_keeps_padded_size
  (r c : region) (p img_width img_height : Z) :
  Z.abs (w r * p) < 2 ^ 52 -> Z.abs (h r * p) < 2 ^ 52 ->
  pad_and_clamp r (Int p) img_width img_height = Ok c ->
  let padding_x := Z.quot (w r * p) 100 in
  let padding_y := Z.quot (h r * p) 100 in
  (x r < padding_x -> w r + 2 * padding_x <= img_width ->
   x c = 0 /\ w c = w r + 2 * padding_x /\ x r + w r + padding_x < x c + w c)
  /\ (y r < padding_y -> h r + 2 * padding_y <= img_height ->
      y c = 0 /\ h c = h r + 2 * padding_y /\ y r + h r + padding_y < y c + h c).
Proof.
  intros Bw Bh E padding_x padding_y.
  unfold pad_and_clamp, apply_padding in E.
  rewrite !padding_int in E by assumption.
  cbn [rbind] in E. injection E as <-.
  fold padding_x padding_y. unfold clamp. cbn [x y w h].
  split; intros H1 H2; lia.
Qed.

Lemma clipped_crop_keeps_padded_size_witness :
  let padding_x := Z.quot (300 * 8) 100 in
  let padding_y := Z.quot (400 * 8) 100 in
  (10 < padding_x -> 300 + 2 * padding_x <= 1000 ->
   0 = 0 /\ 348 = 300 + 2 * padding_x /\ 10 + 300 + padding_x < 0 + 348)
  /\ (500 < padding_y -> 400 + 2 * padding_y <= 1000 ->
      468 = 0 /\ 464 = 400 + 2 * padding_y /\ 500 + 400 + padding_y < 468 + 464).
Proof.
  apply (clipped_crop_keeps_padded_size (Region 10 500 300 400) (Region 0 468 348 464)
           8 1000 1000); cbn [x y w h]; try lia.
  vm_compute. reflexivity.
Defined.

End RegionArithmetic.

(** ** Percentages given as floats *)

Module FloatPercentages.

Import Binary64 Binary64Facts Py PyFacts Json ExtractImagesOpenai
       ExtractImagesOpenaiFacts FindImageFacts.
Local Open Scope Z_scope.

(** A float that holds an integer of magnitude at most [2^53] exactly. *)
Lemma fl_integer x n :
  (x == inject_Z n)%Q -> Z.abs n <= 2 ^ 53 ->
  exists v, fl x = Finite v /\ (v == inject_Z n)%Q.
Proof.
  intros Ex Hn.
  assert (B : (pow2 53 <= pow2 1023)%Q) by (apply pow2_le; lia).
  assert (P : forall m, 0 < m <= 2 ^ 53 -> (inject_Z m <= pow2 1023)%Q).
  { intros m Hm. apply Qle_trans with (2 := B). rewrite pow2_Z by lia.
    rewrite <- Zle_Qle. lia. }
  destruct (Z.lt_trichotomy n 0) as [Neg | [Zero | Pos]].
  - assert (Em : (- x == inject_Z (- n))%Q) by (rewrite inject_Z_opp, Ex; reflexivity).
    pose proof (inject_Z_pos (- n) ltac:(lia)) as Hp.
    rewrite fl_neg.
    + eexists. split; [reflexivity |].
      rewrite round_pos_exact.
      * rewrite Ex. ring.
      * rewrite Em. exact Hp.
      * apply (representable_eq (inject_Z (- n))); [symmetry; exact Em |].
        apply representable_int. lia.
    + rewrite <- (Qopp_involutive x), Em.
      apply Qopp_lt_compat in Hp. exact Hp.
    + rewrite Em. apply P. lia.
  - subst n. rewrite fl_zero by exact Ex. exists 0%Q. split; reflexivity.
  - pose proof (inject_Z_pos n ltac:(lia)) as Hp.
    rewrite fl_pos.
    + eexists. split; [reflexivity |].
      rewrite round_pos_exact; [exact Ex | rewrite Ex; exact Hp |].
      apply (representable_eq (inject_Z n)); [symmetry; exact Ex |].
      apply representable_int. lia.
    + rewrite Ex. exact Hp.
    + rewrite Ex. apply P. lia.
Qed.

(** [int] of the float nearest to [n / 100] truncates the exact quotient. *)
Lemma int_fl_hundredth x n :
  Z.abs n < 2 ^ 52 -> (x == inject_Z n / 100)%Q ->
  int (Float (fl x)) = Ok (Z.quot n 100).
Proof.
  intros Hn Ex.
  assert (B : (pow2 52 <= pow2 1023)%Q) by (apply pow2_le; lia).
  assert (P : forall m, 0 < m < 2 ^ 52 -> (inject_Z m / 100 <= pow2 1023)%Q).
  { intros m Hm. apply Qle_trans with (2 := B). rewrite pow2_Z by lia.
    apply Qle_shift_div_r; [reflexivity |].
    assert (inject_Z m <= inject_Z (2 ^ 52))%Q by (rewrite <- Zle_Qle; lia).
    assert (0 <= inject_Z (2 ^ 52))%Q
      by (change 0%Q with (inject_Z 0); rewrite <- Zle_Qle; lia).
    lra. }
  assert (S : forall m, 0 < m -> (0 < inject_Z m / 100)%Q).
  { intros m Hm. pose proof (inject_Z_pos m Hm).
    apply Qlt_shift_div_l; [reflexivity | lra]. }
  destruct (Z.lt_trichotomy n 0) as [Neg | [Zero | Pos]].
  - set (m := - n).
    assert (Hm : 0 < m < 2 ^ 52) by (unfold m; lia).
    assert (Em : (- x == inject_Z m / 100)%Q).
    { unfold m. rewrite inject_Z_opp, Ex. field. }
    destruct (round_pos_hundredth m _ Hm Em) as [L U].
    pose proof (S m ltac:(lia)) as Sm.
    rewrite fl_neg.
    + cbn [int]. rewrite Qtrunc_opp.
      rewrite (Qtrunc_nonneg (m / 100)); try assumption.
      * f_equal. unfold m. rewrite <- Z.quot_div_nonneg by lia.
        rewrite Z.quot_opp_l by lia. lia.
      * apply Z.div_pos; lia.
    + rewrite <- (Qopp_involutive x), Em. lra.
    + rewrite Em. apply P. exact Hm.
  - subst n. rewrite fl_zero; [reflexivity |]. rewrite Ex. reflexivity.
  - assert (Hm : 0 < n < 2 ^ 52) by lia.
    destruct (round_pos_hundredth n _ Hm Ex) as [L U].
    pose proof (S n ltac:(lia)) as Sn.
    rewrite fl_pos.
    + cbn [int]. rewrite (Qtrunc_nonneg (n / 100)); try assumption.
      * f_equal. rewrite Z.quot_div_nonneg by lia. reflexivity.
      * apply Z.div_pos; lia.
    + rewrite Ex. exact Sn.
    + rewrite Ex. apply P. exact Hm.
Qed.

(** X13. A percentage that arrives as a float holding an integer, as in
    [10.0], gives the same pixel value as that integer: the truncated
    exact quotient. *)
Theorem integral_float_percent_as_int (q : Q) (pct dim : Z) :
  (q == inject_Z pct)%Q -> 0 < dim < 2 ^ 52 -> Z.abs (pct * dim) < 2 ^ 52 ->
  to_pixels (Num (Float (Finite q))) dim = Ok (Z.quot (pct * dim) 100)
  /\ to_pixels (Num (Float (Finite q))) dim = to_pixels (Num (Int pct)) dim.
Proof.
  intros Eq Hd Hn.
  assert (G : to_pixels (Num (Float (Finite q))) dim = Ok (Z.quot (pct * dim) 100)).
  { unfold to_pixels. cbn [as_num rbind mul as_float].
    destruct (float_of_int_exact dim ltac:(lia)) as (d & Ed & Hd').
    rewrite Ed. cbn [rbind fmul].
    destruct (fl_integer (q * d) (pct * dim)) as (v & Ev & Hv).
    { rewrite Eq, Hd', inject_Z_mult. reflexivity. }
    { lia. }
    rewrite Ev. cbn [truediv rbind as_float].
    destruct (float_of_int_exact 100 ltac:(lia)) as (c & Ec & Hc).
    rewrite Ec. cbn [rbind].
    assert (Cz : is_zero (Finite c) = false).
    { unfold is_zero. destruct (Qeq_bool c 0) eqn:Z0; [| reflexivity].
      apply Qeq_bool_eq in Z0. rewrite Hc in Z0. discriminate Z0. }
    rewrite Cz. cbn [fdiv].
    apply int_fl_hundredth; [exact Hn |].
    rewrite Hv, Hc. reflexivity. }
  split; [exact G |]. rewrite G. symmetry. apply to_pixels_int. exact Hn.
Qed.

Lemma integral_float_percent_as_int_witness :
  to_pixels (Num (Float (Finite (20 # 2)))) 1000 = Ok (Z.quot (10 * 1000) 100)
  /\ to_pixels (Num (Float (Finite (20 # 2)))) 1000 = to_pixels (Num (Int 10)) 1000.
Proof.
  apply (integral_float_percent_as_int (20 # 2) 10 1000);
    [reflexivity | lia | cbn; lia].
Defined.

End FloatPercentages.

(** ** Runs of the local script *)

Module LocalRuns.

Import Binary64 Binary64Facts Py Json OsPath OsPathFacts Effects EffectsFacts
       FindImage FindImageFacts.
Local Open Scope string_scope.
Local Open Scope Z_scope.

Lemma area_limits_finite img_width img_height :
  1 <= img_width -> 1 <= img_height -> img_width * img_height < 2 ^ 44 ->
  exists r1 r2,
    area_limits img_width img_height = Ok (Float (Finite r1), Float (Finite r2))
    /\ (0 <= r1)%Q.
Proof.
  intros HW HH HA.
  assert (A0 : 0 < img_width * img_height < 2 ^ 44) by nia.
  destruct (mul_int_literal (img_width * img_height) c002 ltac:(lia)
              ltac:(reflexivity) ltac:(unfold c002, Qle; cbn; lia))
    as (r1 & E1 & _ & [Lo1 _]).
  destruct (mul_int_literal (img_width * img_height) c08 ltac:(lia)
              ltac:(reflexivity) ltac:(unfold c08, Qle; cbn; lia))
    as (r2 & E2 & _ & _).
  exists r1, r2. split.
  - unfold area_limits. rewrite literal_002, literal_08, E1, E2. reflexivity.
  - apply (Lo1 (inject_Z 0)); [apply representable_int; lia |].
    pose proof (inject_Z_pos _ (proj1 A0)). unfold c002.
    change (inject_Z 0) with 0%Q.
    apply Qmult_le_0_compat; [lra | unfold Qle; cbn; lia].
Qed.

(** The filter on a rectangle that fits in the image. *)
Lemma filter_rect_fits (img_width img_height w h : Z) :
  1 <= img_width -> 1 <= img_height -> img_width * img_height < 2 ^ 44 ->
  0 <= w <= img_width -> 0 <= h <= img_height ->
  exists b, filter_rect img_width img_height w h = Ok b
            /\ (w = 0 \/ h = 0 -> b = false).
Proof.
  intros HW HH HA Hw Hh.
  destruct (Z.eq_dec (w * h) 0) as [Z0 | NZ].
  - destruct (area_limits_finite _ _ HW HH HA) as (r1 & r2 & E & P1).
    exists false. split; [| reflexivity].
    unfold filter_rect. rewrite E. cbn [rbind fst snd]. unfold accepts.
    rewrite Z0, lt_float_int.
    destruct (Qlt_bool r1 (inject_Z 0)) eqn:L; [| reflexivity].
    apply Qlt_bool_iff in L. change (inject_Z 0) with 0%Q in L. lra.
  - destruct (accepts_decides img_width img_height w h HW HH HA
                ltac:(nia) ltac:(nia)) as (mn & mx & b & E1 & E2 & _).
    exists b. split; [| nia].
    unfold filter_rect. rewrite E1. exact E2.
Qed.

(** X14. On a rectangle that fits in the image the filter of the fallback
    never raises; a rectangle of width or height 0 is rejected by the area
    test, before the division [w / h], and so is skipped by the loop. *)
Theorem fallback_filter_never_raises (img_width img_height : Z) (r : rect) :
  1 <= img_width -> 1 <= img_height -> img_width * img_height < 2 ^ 44 ->
  fits img_width img_height r ->
  (exists b, filter_rect img_width img_height (snd (fst r)) (snd r) = Ok b
             /\ accepted img_width img_height r = b)
  /\ (snd (fst r) = 0 \/ snd r = 0 -> accepted img_width img_height r = false).
Proof.
  intros HW HH HA. destruct r as [[[x y] w] h]. intros [Hw Hh]. cbn [fst snd].
  destruct (filter_rect_fits img_width img_height w h HW HH HA Hw Hh) as (b & Hb & Hz).
  unfold accepted. rewrite Hb. split; [exists b; split; reflexivity | exact Hz].
Qed.

Lemma fallback_filter_never_raises_witness :
  (exists b, filter_rect 1000 600 300 0 = Ok b
             /\ accepted 1000 600 (10, 20, 300, 0) = b)
  /\ (300 = 0 \/ 0 = 0 -> accepted 1000 600 (10, 20, 300, 0) = false).
Proof.
  apply (fallback_filter_never_raises 1000 600 (10, 20, 300, 0)); cbn; lia.
Defined.

Lemma numbered_written output_folder base crops : forall i,
  written (numbered output_folder base i crops)
  = map (figure_path output_folder base) (seq i (List.length crops)).
Proof.
  induction crops as [| c rest IH]; intros i; [reflexivity |].
  cbn [numbered List.length seq map]. unfold written in *. cbn [imwrites map fst].
  rewrite IH. reflexivity.
Qed.

Lemma numbered_reports output_folder base crops : forall i,
  reports (numbered output_folder base i crops) = [].
Proof. induction crops as [| c rest IH]; intros i; [reflexivity | apply IH]. Qed.

Lemma numbered_imwrites output_folder base crops : forall i,
  map snd (imwrites (numbered output_folder base i crops)) = crops.
Proof.
  induction crops as [| c rest IH]; intros i; [reflexivity |].
  cbn [numbered imwrites map snd]. rewrite IH. reflexivity.
Qed.

(** The loop of the fallback, when the filter answers on every rectangle. *)
Lemma fallback_loop_run img_width img_height mn mx output_folder base contours :
  area_limits img_width img_height = Ok (mn, mx) ->
  Forall (fun r => exists b, filter_rect img_width img_height (snd (fst r)) (snd r) = Ok b)
         contours ->
  forall figure_count acc,
  let crops := map crop_of_rect (filter (accepted img_width img_height) contours) in
  fallback_loop mn mx output_folder base figure_count contours acc
  = (numbered output_folder base figure_count crops,
     Ok (acc ++ map (figure_path output_folder base)
                    (seq figure_count (List.length crops)))%list).
Proof.
  intros E Hf. induction Hf as [| [[[x y] w] h] rest [b Hb] Hrest IH];
    intros figure_count acc; cbn zeta.
  - cbn. rewrite app_nil_r. reflexivity.
  - cbn [fallback_loop filter accepted]. cbn [fst snd] in Hb.
    rewrite Hb. unfold filter_rect in Hb. rewrite E in Hb. cbn [rbind fst snd] in Hb.
    rewrite Hb. cbn [lift bind app].
    destruct b.
    + cbn [map crop_of_rect List.length seq numbered emit bind app].
      cbn zeta in IH. rewrite IH. rewrite <- app_assoc. reflexivity.
    + cbn zeta in IH. rewrite IH. reflexivity.
Qed.

(** X15. On a readable image whose bounding rectangles fit in it, the
    fallback never fails: it writes the accepted rectangles in the order
    of the contours, numbered 0, 1, 2, ... without a gap, and returns
    those paths, which are pairwise distinct. *)
Theorem fallback_numbers_without_gaps
  (W : world) (input_image_path output_folder : string)
  (img_width img_height : Z) :
  imread W input_image_path = Some (img_height, img_width) ->
  1 <= img_width -> 1 <= img_height -> img_width * img_height < 2 ^ 44 ->
  Forall (fits img_width img_height) (bounding_rects W input_image_path) ->
  let base := base_filename input_image_path in
  let crops := map crop_of_rect
                   (filter (accepted img_width img_height)
                           (bounding_rects W input_image_path)) in
  let paths := map (figure_path output_folder base) (seq 0 (List.length crops)) in
  extract_images_opencv_fallback W input_image_path output_folder
  = (MakeDirs output_folder :: numbered output_folder base 0 crops, Ok paths)
  /\ NoDup paths.
Proof.
  intros Hread HW HH HA Hfit base crops paths.
  destruct (area_limits_finite _ _ HW HH HA) as (r1 & r2 & E & _).
  split.
  - unfold extract_images_opencv_fallback. rewrite Hread, E.
    cbn [lift emit bind app fst snd].
    rewrite (fallback_loop_run img_width img_height _ _ _ _ _ E).
    + reflexivity.
    + eapply Forall_impl; [| exact Hfit].
      intros [[[x y] w] h] [Hw Hh]. cbn [fst snd].
      destruct (filter_rect_fits img_width img_height w h HW HH HA Hw Hh)
        as (b & Hb & _). exists b. exact Hb.
  - apply RemoteRuns.NoDup_map_inj; [apply figure_path_inj | apply seq_NoDup].
Qed.

Lemma fallback_numbers_without_gaps_witness :
  let rects := [(0, 0, 300, 200); (5, 5, 1, 50); (400, 400, 300, 300)] in
  let base := base_filename "note.png" in
  let crops := map crop_of_rect (filter (accepted 1000 1000) rects) in
  let paths := map (figure_path "out" base) (seq 0 (List.length crops)) in
  extract_images_opencv_fallback (Samples.local_world rects) "note.png" "out"
  = (MakeDirs "out" :: numbered "out" base 0 crops, Ok paths)
  /\ NoDup paths.
Proof.
  apply (fallback_numbers_without_gaps
           (Samples.local_world [(0, 0, 300, 200); (5, 5, 1, 50); (400, 400, 300, 300)])
           "note.png" "out" 1000 1000); try reflexivity; try lia.
  repeat constructor; cbn; lia.
Defined.

Lemma write_blocks_run output_folder base image_blocks : forall i acc,
  write_blocks output_folder base i image_blocks acc
  = (numbered output_folder base i (map block_crop image_blocks),
     Ok (acc ++ map (figure_path output_folder base)
                    (seq i (List.length image_blocks)))%list).
Proof.
  induction image_blocks as [| b rest IH]; intros i acc.
  - cbn. rewrite app_nil_r. reflexivity.
  - cbn [write_blocks map List.length seq numbered emit bind app].
    rewrite IH, <- app_assoc. reflexivity.
Qed.

(** X16. With layoutparser available and a readable image, the blocks
    labelled [Figure], and only they, are written in the order of the
    layout, numbered from 0 without a gap; the fallback is not run and
    nothing is printed on standard error. *)
Theorem layout_run_writes_the_figure_blocks
  (W : world) (input_image_path output_folder : string)
  (dims : Z * Z) (layout : list block) :
  layout_model W = Ok tt ->
  imread W input_image_path = Some dims ->
  detect W input_image_path = Ok layout ->
  let base := base_filename input_image_path in
  let figures := filter is_figure layout in
  extract_images_from_note W input_image_path output_folder
  = (MakeDirs output_folder
       :: numbered output_folder base 0 (map block_crop figures),
     Ok (map (figure_path output_folder base) (seq 0 (List.length figures)))).
Proof.
  intros Hm Hr Hd base figures.
  unfold extract_images_from_note, with_layout_model.
  rewrite Hm, Hr, Hd. cbn [lift bind app emit].
  rewrite write_blocks_run. reflexivity.
Qed.

Lemma layout_run_writes_the_figure_blocks_witness :
  let layout := [ {| block_type := "Text"; block_crop := Crop 0 0 1000 100 |};
                  {| block_type := "Figure"; block_crop := Crop 100 200 300 400 |};
                  {| block_type := "Table"; block_crop := Crop 0 700 500 200 |};
                  {| block_type := "Figure"; block_crop := Crop 600 200 300 300 |} ] in
  let base := base_filename "note.png" in
  let figures := filter is_figure layout in
  extract_images_from_note (Samples.layout_world layout) "note.png" "out"
  = (MakeDirs "out" :: numbered "out" base 0 (map block_crop figures),
     Ok (map (figure_path "out" base) (seq 0 (List.length figures)))).
Proof.
  apply (layout_run_writes_the_figure_blocks
           (Samples.layout_world
              [ {| block_type := "Text"; block_crop := Crop 0 0 1000 100 |};
                {| block_type := "Figure"; block_crop := Crop 100 200 300 400 |};
                {| block_type := "Table"; block_crop := Crop 0 700 500 200 |};
                {| block_type := "Figure"; block_crop := Crop 600 200 300 300 |} ])
           "note.png" "out" (1000, 1000)); reflexivity.
Defined.

(** X18. A file that cannot be read as an image never gives a success: the
    run ends with an exception and writes nothing, and the script prints
    one failure object and exits with status 1.  The exception is the
    [ValueError] of the unreadable image unless building the layout model
    failed with an exception that the [except] clause does not catch. *)
Theorem unreadable_image_fails
  (W : world) (input_path output_folder : string) :
  imread W input_path = None ->
  exists evs e,
    extract_images_from_note W input_path output_folder = (evs, Raise e)
    /\ written evs = []
    /\ main W input_path output_folder = ((evs ++ [Stdout (Failure e)])%list, 1)
    /\ match layout_model W with
       | Ok _ | Raise ImportError | Raise AttributeError => e = ValueError
       | Raise e' => e = e'
       end.
Proof.
  intros Hr. unfold main, extract_images_from_note, with_layout_model,
    extract_images_opencv_fallback.
  rewrite Hr.
  destruct (layout_model W) as [[] | []]; cbn [lift emit raise bind app];
    eexists; eexists; (split; [reflexivity |]); repeat split.
Qed.

Lemma unreadable_image_fails_witness :
  exists evs e,
    extract_images_from_note (Samples.unreadable_world (Ok tt)) "note.txt" "out"
    = (evs, Raise e)
    /\ written evs = []
    /\ main (Samples.unreadable_world (Ok tt)) "note.txt" "out"
       = ((evs ++ [Stdout (Failure e)])%list, 1)
    /\ e = ValueError.
Proof.
  apply (unreadable_image_fails (Samples.unreadable_world (Ok tt)) "note.txt" "out").
  reflexivity.
Defined.

(** Whatever the filter does, the loop of the fallback only writes figure
    files, numbered upwards from its counter. *)
Lemma fallback_loop_numbered mn mx output_folder base contours :
  forall figure_count acc,
  let run := fallback_loop mn mx output_folder base figure_count contours acc in
  exists crops,
    events run = numbered output_folder base figure_count crops
    /\ forall paths, outcome run = Ok paths ->
         paths = (acc ++ map (figure_path output_folder base)
                            (seq figure_count (List.length crops)))%list.
Proof.
  induction contours as [| [[[x y] w] h] rest IH]; intros figure_count acc; cbn zeta.
  - exists []. split; [reflexivity |]. cbn. intros paths [= <-].
    rewrite app_nil_r. reflexivity.
  - cbn [fallback_loop]. destruct (accepts mn mx w h) as [[|] | e].
    + destruct (IH (S figure_count)
                   (acc ++ [figure_path output_folder base figure_count])%list)
        as (crops & Hev & Hout).
      exists (Crop x y w h :: crops). run_step. cbn [numbered].
      rewrite Hev. split; [reflexivity |].
      intros paths.
      destruct (outcome (fallback_loop _ _ _ _ (S figure_count) rest _)) eqn:O;
        [| discriminate].
      intros [= <-]. rewrite (Hout _ eq_refl), <- app_assoc. reflexivity.
    + destruct (IH figure_count acc) as (crops & Hev & Hout).
      exists crops. run_step. split; [exact Hev | exact Hout].
    + exists []. run_step. split; [reflexivity | discriminate].
Qed.

Lemma extract_images_from_note_numbered W input_image_path output_folder :
  let run := extract_images_from_note W input_image_path output_folder in
  let base := base_filename input_image_path in
  exists pre crops,
    events run = (MakeDirs output_folder :: pre
                    ++ numbered output_folder base 0 crops)%list
    /\ written pre = [] /\ reports pre = []
    /\ forall paths, outcome run = Ok paths ->
         paths = map (figure_path output_folder base) (seq 0 (List.length crops)).
Proof.
  cbn zeta.
  assert (F : exists pre crops,
    events (extract_images_opencv_fallback W input_image_path output_folder)
    = (pre ++ numbered output_folder (base_filename input_image_path) 0 crops)%list
    /\ written pre = [] /\ reports pre = []
    /\ forall paths,
         outcome (extract_images_opencv_fallback W input_image_path output_folder)
         = Ok paths ->
         paths = map (figure_path output_folder (base_filename input_image_path))
                     (seq 0 (List.length crops))).
  { unfold extract_images_opencv_fallback.
    destruct (imread W input_image_path) as [[img_height img_width] |].
    - destruct (area_limits img_width img_height) as [[mn mx] | e].
      + destruct (fallback_loop_numbered mn mx output_folder
                    (base_filename input_image_path)
                    (bounding_rects W input_image_path) 0%nat [])
          as (crops & Hev & Hout).
        exists [MakeDirs output_folder], crops. run_step. cbn [fst snd] in *.
        rewrite Hev. repeat split. exact Hout.
      + exists [MakeDirs output_folder], []. run_step. repeat split. discriminate.
    - exists [MakeDirs output_folder], []. run_step. repeat split. discriminate. }
  unfold extract_images_from_note, with_layout_model.
  destruct (layout_model W) as [[] | e].
  - cbn [lift bind app].
    destruct (imread W input_image_path) as [dims |].
    + destruct (detect W input_image_path) as [layout | e].
      * cbn [lift bind app]. rewrite write_blocks_run.
        exists [], (map block_crop (filter is_figure layout)).
        cbn [emit bind app events outcome fst snd]. repeat split.
        intros paths [= <-]. rewrite length_map. reflexivity.
      * destruct F as (pre & crops & Hev & Hw & Hr & Hout).
        destruct (extract_images_opencv_fallback W input_image_path output_folder)
          as [evs r]. cbn [events outcome fst snd] in Hev, Hout. subst evs.
        destruct e; cbn [lift raise emit bind app events outcome fst snd];
          try (exists [], []; repeat split; discriminate);
          (eexists (_ :: pre), crops;
           destruct r; cbn [app events outcome fst snd];
           (split; [reflexivity |]); repeat split; assumption).
    + cbn [raise emit bind app]. exists [], []. repeat split. discriminate.
  - destruct F as (pre & crops & Hev & Hw & Hr & Hout).
    destruct (extract_images_opencv_fallback W input_image_path output_folder)
      as [evs r]. cbn [events outcome fst snd] in Hev, Hout. subst evs.
    destruct e; cbn [lift raise emit bind app events outcome fst snd];
      try (exists [], []; repeat split; discriminate);
      (eexists (_ :: pre), crops;
       destruct r; cbn [app events outcome fst snd];
       (split; [reflexivity |]); repeat split; assumption).
Qed.

(** X19. Every run of the local script on an input path prints exactly
    one report, as its last event, and exits with 0 on a success report and 1 on a failure
    report.  The files written are pairwise distinct, and a success report
    counts and lists exactly them: the figure files of the input's base
    name numbered 0, 1, 2, ... without a gap. *)
Theorem local_main_reports_once (W : world) (input_path output_folder : string) :
  exists evs rep,
    main W input_path output_folder
    = ((evs ++ [Stdout rep])%list,
       match rep with Success _ _ => 0 | Failure _ => 1 end)
    /\ reports evs = []
    /\ NoDup (written evs)
    /\ (forall n paths, rep = Success n paths ->
          n = List.length paths /\ paths = written evs
          /\ paths = map (figure_path output_folder (base_filename input_path))
                         (seq 0 n)).
Proof.
  unfold main.
  destruct (extract_images_from_note_numbered W input_path output_folder)
    as (pre & crops & Hev & Hw & Hr & Hout).
  cbn zeta in *.
  assert (Ew : written (events (extract_images_from_note W input_path output_folder))
               = map (figure_path output_folder (base_filename input_path))
                     (seq 0 (List.length crops))).
  { rewrite Hev. change (MakeDirs output_folder :: pre ++ numbered _ _ 0 crops)%list
      with ([MakeDirs output_folder] ++ pre ++ numbered output_folder
                                           (base_filename input_path) 0 crops)%list.
    rewrite !written_app, Hw, numbered_written. reflexivity. }
  assert (Er : reports (events (extract_images_from_note W input_path output_folder))
               = []).
  { rewrite Hev. change (MakeDirs output_folder :: pre ++ numbered _ _ 0 crops)%list
      with ([MakeDirs output_folder] ++ pre ++ numbered output_folder
                                           (base_filename input_path) 0 crops)%list.
    rewrite !RemoteRuns.reports_app, Hr, numbered_reports. reflexivity. }
  assert (Nd : NoDup (written (events (extract_images_from_note W input_path
                                                                output_folder)))).
  { rewrite Ew. apply RemoteRuns.NoDup_map_inj;
      [apply figure_path_inj | apply seq_NoDup]. }
  destruct (extract_images_from_note W input_path output_folder) as [evs [paths | e]];
    cbn [events outcome fst snd] in *.
  - exists evs, (Success (List.length paths) paths).
    split; [reflexivity |]. split; [exact Er |]. split; [exact Nd |].
    intros n paths' [= <- <-]. specialize (Hout _ eq_refl).
    split; [reflexivity |]. split; [rewrite Ew; exact Hout |].
    rewrite Hout at 1. rewrite Hout, length_map, length_seq. reflexivity.
  - exists evs, (Failure e).
    split; [reflexivity |]. split; [exact Er |]. split; [exact Nd |].
    intros n paths' H. discriminate.
Qed.

End LocalRuns.

(** ** The base64 entry point of the local script *)

Module Base64Entry.

Import Py Json OsPath OsPathFacts Effects EffectsFacts FindImage FindImageFacts.
Local Open Scope string_scope.

Lemma take_while_all f (l rest : list ascii) :
  forallb f l = true ->
  match rest with [] => True | c :: _ => f c = false end ->
  take_while f (l ++ rest) = l.
Proof.
  intros Hl Hr. induction l as [| c l IH].
  - destruct rest as [| d rest]; [reflexivity |]. cbn. rewrite Hr. reflexivity.
  - cbn in Hl |- *. apply andb_true_iff in Hl as [Hc Hl].
    rewrite Hc, IH by exact Hl. reflexivity.
Qed.

Lemma forallb_rev {A} (f : A -> bool) l : forallb f (rev l) = forallb f l.
Proof.
  destruct (forallb f l) eqn:E.
  - rewrite forallb_forall in *. intros a Ha. apply E, in_rev, Ha.
  - destruct (forallb f (rev l)) eqn:E'; [| reflexivity].
    rewrite <- E. symmetry. rewrite forallb_forall in *.
    intros a Ha. apply E'. rewrite <- in_rev. exact Ha.
Qed.

Lemma string_of_list_app (a b : list ascii) :
  string_of_list_ascii (a ++ b) = string_of_list_ascii a ++ string_of_list_ascii b.
Proof. induction a as [| c a IH]; cbn; [reflexivity | rewrite IH; reflexivity]. Qed.

Lemma ends_with_sep_rev (a : string) :
  ends_with_sep a = true ->
  exists r, rev (list_ascii_of_string a) = "/"%char :: r.
Proof.
  induction a as [| c a IH]; [discriminate |].
  destruct a as [| d a'].
  - cbn. intros H. unfold is_sep in H. apply Ascii.eqb_eq in H. subst c.
    exists []. reflexivity.
  - intros H. change (ends_with_sep (String d a') = true) in H.
    destruct (IH H) as [r Hr].
    exists (r ++ [c])%list. cbn [list_ascii_of_string rev] in *.
    rewrite Hr. reflexivity.
Qed.

(** [os.path.join] puts a file name without separator after the folder,
    which then ends with a separator or is empty. *)
Lemma join_file_name (folder name : string) :
  starts_with_sep name = false ->
  exists pre, join folder name = pre ++ name
              /\ match rev (list_ascii_of_string pre) with
                 | [] => True
                 | c :: _ => is_sep c = true
                 end.
Proof.
  intros Hn. unfold join. rewrite Hn.
  destruct (String.eqb folder "") eqn:E0.
  - apply String.eqb_eq in E0. subst folder. exists "". split; reflexivity.
  - cbn [orb]. destruct (ends_with_sep folder) eqn:E1.
    + exists folder. split; [reflexivity |].
      destruct (ends_with_sep_rev folder E1) as [r ->]. reflexivity.
    + exists (folder ++ "/"). split; [rewrite append_assoc; reflexivity |].
      rewrite list_of_append, rev_app_distr. reflexivity.
Qed.

Lemma basename_join (folder name : string) :
  no_sep (list_ascii_of_string name) = true ->
  starts_with_sep name = false ->
  basename (join folder name) = name.
Proof.
  intros Hs Hn. destruct (join_file_name folder name Hn) as (pre & -> & Hpre).
  unfold basename. rewrite list_of_append, rev_app_distr.
  rewrite take_while_all.
  - rewrite rev_involutive. apply string_of_list_ascii_of_string.
  - unfold no_sep in Hs. rewrite forallb_rev. exact Hs.
  - destruct (rev (list_ascii_of_string pre)); [exact I |]. rewrite Hpre. reflexivity.
Qed.

Lemma base_filename_original (folder filename : string) :
  no_sep (list_ascii_of_string filename) = true ->
  base_filename (join folder (filename ++ "_original.jpg")) = filename ++ "_original".
Proof.
  intros Hs. unfold base_filename. rewrite basename_join.
  - unfold splitext_root. rewrite list_of_append, rev_app_distr.
    cbn [list_ascii_of_string rev app split_dot is_dot Ascii.eqb Bool.eqb
         existsb is_sep orb take_while negb].
    rewrite rev_involutive, <- !app_assoc. cbn [app].
    rewrite string_of_list_app, string_of_list_ascii_of_string. reflexivity.
  - unfold no_sep in *. rewrite list_of_append, forallb_app, Hs. reflexivity.
  - destruct filename as [| c s]; [reflexivity |].
    cbn in Hs |- *. apply andb_true_iff in Hs as [Hc _].
    destruct (is_sep c); [discriminate | reflexivity].
Qed.

(** X20. The base64 entry point, for a file name without a separator.
    When the data does not decode, nothing is written.  When it does, the
    image is first written as [<filename>_original.jpg] in the output
    folder; the crops that follow are named
    [<filename>_original_figure_<i>.jpg], numbered from 0 without a gap,
    and the paths returned are those of the crops, without the original. *)
Theorem base64_crops_named_after_original
  (W : world) (base64_data output_folder filename : string) :
  no_sep (list_ascii_of_string filename) = true ->
  let temp_path := join output_folder (filename ++ "_original.jpg") in
  let run := extract_from_base64 W base64_data output_folder filename in
  match imdecode W base64_data with
  | Raise e => run = ([MakeDirs output_folder], Raise e)
  | Ok None => run = ([MakeDirs output_folder], Raise ValueError)
  | Ok (Some dims) =>
      exists pre crops,
        events run
        = (MakeDirs output_folder :: ImWrite temp_path WholeImage
             :: MakeDirs output_folder
             :: pre ++ numbered output_folder (filename ++ "_original") 0 crops)%list
        /\ written pre = []
        /\ forall paths, outcome run = Ok paths ->
             paths = map (figure_path output_folder (filename ++ "_original"))
                         (seq 0 (List.length crops))
  end.
Proof.
  intros Hs temp_path run. subst run temp_path. unfold extract_from_base64.
  destruct (imdecode W base64_data) as [[dims |] | e]; try reflexivity.
  cbn zeta.
  set (temp_path := join output_folder (filename ++ "_original.jpg")).
  destruct (LocalRuns.extract_images_from_note_numbered
              (after_imwrite W temp_path dims) temp_path output_folder)
    as (pre & crops & Hev & Hw & _ & Hout).
  cbn zeta in Hev, Hout.
  assert (Eb : base_filename temp_path = filename ++ "_original")
    by (apply base_filename_original; exact Hs).
  rewrite Eb in Hev, Hout.
  exists pre, crops. cbn [emit lift bind app].
  destruct (extract_images_from_note (after_imwrite W temp_path dims) temp_path
                                     output_folder) as [evs r].
  cbn [events outcome fst snd] in Hev, Hout. subst evs.
  destruct r; cbn [emit lift bind app events outcome fst snd];
    (split; [reflexivity |]); (split; [exact Hw |]); [exact Hout | discriminate].
Qed.

Lemma base64_crops_named_after_original_witness :
  let W := Samples.local_world [] in
  let temp_path := join "out" ("uploaded_image" ++ "_original.jpg") in
  let run := extract_from_base64 W Samples.one_pixel_png "out" "uploaded_image" in
  exists pre crops,
    events run
    = (MakeDirs "out" :: ImWrite temp_path WholeImage :: MakeDirs "out"
         :: pre ++ numbered "out" ("uploaded_image" ++ "_original") 0 crops)%list
    /\ written pre = []
    /\ forall paths, outcome run = Ok paths ->
         paths = map (figure_path "out" ("uploaded_image" ++ "_original"))
                     (seq 0 (List.length crops)).
Proof.
  apply (base64_crops_named_after_original
           (Samples.local_world []) Samples.one_pixel_png "out" "uploaded_image").
  reflexivity.
Defined.

End Base64Entry.

(** ** The cleaned response content *)

Module CleanContent.

Import Py Json Text TextFacts ExtractImagesOpenai.
Local Open Scope N_scope.
Local Open Scope list_scope.

Lemma contains_cons old c s :
  contains old (c :: s) = starts_with old (c :: s) || contains old s.
Proof. reflexivity. Qed.

Lemma starts_with_app_l a b u :
  starts_with (a ++ b) u = true -> starts_with a u = true.
Proof.
  revert u. induction a as [| c a IH]; intros u H; [reflexivity |].
  destruct u as [| d u]; [discriminate |]. cbn in *.
  apply andb_true_iff in H as [H1 H2]. rewrite H1, (IH _ H2). reflexivity.
Qed.

Lemma contains_app_l a b u : contains a u = false -> contains (a ++ b) u = false.
Proof.
  induction u as [| c u IH].
  - cbn. rewrite !orb_false_r. intros H.
    destruct (starts_with (a ++ b) []) eqn:E; [| reflexivity].
    apply starts_with_app_l in E. congruence.
  - rewrite !contains_cons. intros H. apply orb_false_iff in H as [H1 H2].
    rewrite (IH H2), orb_false_r.
    destruct (starts_with (a ++ b) (c :: u)) eqn:E; [| reflexivity].
    apply starts_with_app_l in E. congruence.
Qed.

(** A text in which [old] does not occur is left as it is. *)
Lemma replace_from_absent old new s :
  contains old s = false -> replace_from old new 0 s = s.
Proof.
  induction s as [| c s IH]; [reflexivity |].
  rewrite contains_cons. intros H. apply orb_false_iff in H as [H1 H2].
  cbn [replace_from]. rewrite H1, (IH H2). reflexivity.
Qed.

Lemma contains_suffix old a b : contains old (a ++ b) = false -> contains old b = false.
Proof.
  induction a as [| c a IH]; [trivial |].
  cbn [app]. rewrite contains_cons. intros H.
  apply orb_false_iff in H as [_ H]. apply IH, H.
Qed.

Lemma contains_prefix old a b : contains old (a ++ b) = false -> contains old a = false.
Proof.
  induction a as [| c a IH].
  - intros H. cbn. rewrite orb_false_r.
    destruct old as [| o old]; [| reflexivity].
    destruct b; cbn in H; discriminate.
  - cbn [app]. rewrite !contains_cons. intros H.
    apply orb_false_iff in H as [H1 H2]. rewrite (IH H2), orb_false_r.
    destruct (starts_with old (c :: a)) eqn:E; [| reflexivity].
    apply starts_with_app_r with (t := b) in E. cbn [app] in E. congruence.
Qed.

Lemma lstrip_split s : exists ws, spaces ws /\ s = ws ++ lstrip s.
Proof.
  induction s as [| c s (ws & Hws & E)].
  - exists []. split; [constructor | reflexivity].
  - cbn [lstrip]. destruct (is_space c) eqn:Hc.
    + exists (c :: ws). split; [constructor; assumption |].
      cbn [app]. rewrite <- E. reflexivity.
    + exists []. split; [constructor | reflexivity].
Qed.

Lemma rstrip_split s : exists ws, spaces ws /\ s = rstrip s ++ ws.
Proof.
  destruct (lstrip_split (rev s)) as (ws & Hws & E).
  exists (rev ws). split; [apply spaces_rev, Hws |].
  unfold rstrip. rewrite <- rev_app_distr, <- E. symmetry. apply rev_involutive.
Qed.

Lemma strip_split s : exists ws1 ws2,
  spaces ws1 /\ spaces ws2 /\ s = ws1 ++ strip s ++ ws2.
Proof.
  destruct (lstrip_split s) as (ws1 & H1 & E1).
  destruct (rstrip_split (lstrip s)) as (ws2 & H2 & E2).
  exists ws1, ws2. split; [exact H1 |]. split; [exact H2 |].
  unfold strip. rewrite <- E2. exact E1.
Qed.

Lemma strip_idempotent s : strip (strip s) = strip s.
Proof.
  destruct (strip_split s) as (ws1 & ws2 & H1 & H2 & E).
  rewrite E at 2. symmetry. apply strip_padding; assumption.
Qed.

Lemma strip_keeps_absent old s : contains old s = false -> contains old (strip s) = false.
Proof.
  destruct (strip_split s) as (ws1 & ws2 & _ & _ & E). intros H.
  rewrite E in H. apply contains_suffix, contains_prefix in H. exact H.
Qed.

(** After the scan for the fence, no fence is left: the characters kept
    between two deleted fences never join into a new one. *)
Lemma unfence_no_fence s :
  contains fence (unfence s) = false
  /\ contains fence (unfence (tick :: s)) = false
  /\ contains fence (unfence (tick :: tick :: s)) = false.
Proof.
  assert (K : forall c r, c <> tick ->
            contains fence r = false -> contains fence (c :: r) = false).
  { intros c r Hc Hr. rewrite contains_cons, Hr. cbn [fence starts_with].
    destruct (N.eqb_spec tick c) as [E | _]; [congruence | reflexivity]. }
  assert (T : forall c r, c <> tick ->
            contains fence r = false -> contains fence (tick :: c :: r) = false).
  { intros c r Hc Hr. rewrite contains_cons, (K c r Hc Hr). cbn [fence starts_with].
    rewrite N.eqb_refl.
    destruct (N.eqb_spec tick c) as [E | _]; [congruence | reflexivity]. }
  assert (TT : forall c r, c <> tick ->
            contains fence r = false -> contains fence (tick :: tick :: c :: r) = false).
  { intros c r Hc Hr. rewrite contains_cons, (T c r Hc Hr). cbn [fence starts_with].
    rewrite !N.eqb_refl.
    destruct (N.eqb_spec tick c) as [E | _]; [congruence | reflexivity]. }
  induction s as [| c s (IH0 & IH1 & IH2)].
  - repeat split; reflexivity.
  - destruct (N.eq_dec c tick) as [-> | Hc].
    + split; [exact IH1 |]. split; [exact IH2 |].
      rewrite unfence_three. exact IH0.
    + rewrite unfence_other, unfence_tick_other, unfence_tick_tick_other by exact Hc.
      split; [apply K; assumption |]. split; [apply T | apply TT]; assumption.
Qed.

Lemma clean_content_unfold s :
  clean_content s = strip (unfence (unfence_json s)).
Proof.
  unfold clean_content. rewrite of_string_fence, of_string_fence_json. reflexivity.
Qed.

(** X21. The cleaned content holds no markdown fence, whatever the
    response was: the three backticks are deleted wherever they occur,
    and what is kept never joins into a new fence.  Cleaning a cleaned
    content changes nothing. *)
Theorem cleaned_content_has_no_fence (s : text) :
  contains (of_string "```") (clean_content s) = false
  /\ contains (of_string "```json") (clean_content s) = false
  /\ clean_content (clean_content s) = clean_content s.
Proof.
  rewrite of_string_fence, of_string_fence_json.
  assert (H : contains fence (clean_content s) = false).
  { rewrite clean_content_unfold. apply strip_keeps_absent.
    apply (unfence_no_fence (unfence_json s)). }
  assert (Hj : contains fence_json (clean_content s) = false).
  { apply (contains_app_l fence [106; 115; 111; 110]), H. }
  split; [exact H |]. split; [exact Hj |].
  rewrite (clean_content_unfold (clean_content s)).
  unfold unfence_json. rewrite (replace_from_absent _ _ _ Hj).
  unfold unfence. rewrite (replace_from_absent _ _ _ H).
  rewrite clean_content_unfold. apply strip_idempotent.
Qed.

(** X22. A content without three backticks in a row is only stripped of
    the white space at its ends; single and double backticks stay. *)
Theorem content_without_fence_is_stripped (s : text) :
  contains (of_string "```") s = false -> clean_content s = strip s.
Proof.
  rewrite of_string_fence. intros H.
  rewrite clean_content_unfold.
  unfold unfence_json.
  rewrite (replace_from_absent _ _ _ (contains_app_l fence [106; 115; 111; 110] s H)).
  unfold unfence. rewrite (replace_from_absent _ _ _ H). reflexivity.
Qed.

Lemma content_without_fence_is_stripped_witness :
  clean_content (of_string " {} `x` ") = strip (of_string " {} `x` ").
Proof.
  apply (content_without_fence_is_stripped (of_string " {} `x` ")).
  vm_compute. reflexivity.
Defined.

(** *** What reaches the parser *)

(** C7. A response content wrapped in markdown fences, [```json] before it
    and [```] after it, with or without line breaks or other white space
    between the fences and the content, parses to what the content without
    the fences parses to, whatever [json.loads] does: the fences are
    stripped before parsing.  What [json.loads] is given is the content
    with every fence deleted and the white space at its ends stripped; it
    holds no fence; and it is the stripped content itself when the content
    holds no fence. *)
Theorem fenced_content_parses_alike
  (loads : text -> result value) (before after content : text) :
  spaces before -> spaces after ->
  parse_content loads (fenced before after content) = parse_content loads content
  /\ parse_content loads (fenced before after content)
     = loads (strip (unfence (unfence_json content)))
  /\ contains (of_string "```") (strip (unfence (unfence_json content))) = false
  /\ (contains (of_string "```") content = false ->
      parse_content loads (fenced before after content) = loads (strip content))
  /\ (forall (W : world) (image_path key : string),
        api_key W = Some key -> key <> EmptyString ->
        open_image W image_path = Ok tt ->
        post W = Ok (200%Z, Ok (fenced before after content)) ->
        detect_figure_regions_with_openai W image_path
        = ExtractImagesOpenai.loads W (strip (unfence (unfence_json content)))).
Proof.
  intros Hb Ha. rewrite of_string_fence.
  assert (E : parse_content loads (fenced before after content)
              = loads (strip (unfence (unfence_json content)))).
  { unfold parse_content. rewrite clean_content_fenced by assumption.
    rewrite clean_content_unfold. reflexivity. }
  split; [| split; [exact E | split; [| split]]].
  - rewrite E. unfold parse_content. rewrite clean_content_unfold. reflexivity.
  - apply strip_keeps_absent. apply (unfence_no_fence (unfence_json content)).
  - intros H. rewrite E. unfold unfence_json.
    rewrite (replace_from_absent _ _ _
               (contains_app_l fence [106; 115; 111; 110] content H)).
    unfold unfence. rewrite (replace_from_absent _ _ _ H). reflexivity.
  - intros W image_path key Hk Hne Ho Hp.
    unfold detect_figure_regions_with_openai. rewrite Hk.
    destruct key as [| c key]; [congruence |].
    rewrite Ho, Hp. cbn [rbind fst snd Z.eqb Pos.eqb negb].
    unfold parse_content. rewrite clean_content_fenced by assumption.
    rewrite clean_content_unfold. reflexivity.
Qed.

Lemma fenced_content_parses_alike_witness :
  let loads := Samples.loads_empty_object in
  let content := of_string "{}" in
  parse_content loads (fenced [10] [10] content) = parse_content loads content
  /\ parse_content loads (fenced [10] [10] content)
     = loads (strip (unfence (unfence_json content)))
  /\ contains (of_string "```") (strip (unfence (unfence_json content))) = false
  /\ (contains (of_string "```") content = false ->
      parse_content loads (fenced [10] [10] content) = loads (strip content))
  /\ (forall (W : world) (image_path key : string),
        api_key W = Some key -> key <> EmptyString ->
        open_image W image_path = Ok tt ->
        post W = Ok (200%Z, Ok (fenced [10] [10] content)) ->
        detect_figure_regions_with_openai W image_path
        = ExtractImagesOpenai.loads W (strip (unfence (unfence_json content)))).
Proof.
  apply (fenced_content_parses_alike Samples.loads_empty_object [10] [10]
           (of_string "{}")); repeat constructor.
Defined.

(** The fenced answer is parsed; handed to the parser as it is, it would
    be rejected. *)
Example fenced_answer_parsed :
  parse_content Samples.loads_empty_object (fenced [10] [10] (of_string "{}"))
  = Ok (Obj [])
  /\ Samples.loads_empty_object (fenced [10] [10] (of_string "{}")) = Raise ValueError.
Proof. split; vm_compute; reflexivity. Qed.

End CleanContent.

(** ** The files a run writes *)

Module WrittenFiles.

Import Py Json OsPath OsPathFacts Effects EffectsFacts FindImage FindImageFacts
       Base64Entry.
Local Open Scope string_scope.

Lemma take_while_forallb (f : ascii -> bool) l : forallb f (take_while f l) = true.
Proof.
  induction l as [| c l IH]; [reflexivity |].
  cbn [take_while]. destruct (f c) eqn:E; [| reflexivity].
  cbn [forallb]. rewrite E, IH. reflexivity.
Qed.

Lemma no_sep_app (a b : string) :
  no_sep (list_ascii_of_string (a ++ b))
  = no_sep (list_ascii_of_string a) && no_sep (list_ascii_of_string b).
Proof. unfold no_sep. rewrite list_of_append. apply forallb_app. Qed.

Lemma no_sep_basename p : no_sep (list_ascii_of_string (basename p)) = true.
Proof.
  unfold basename, no_sep. rewrite list_ascii_of_string_of_list_ascii, forallb_rev.
  apply take_while_forallb.
Qed.

Lemma split_dot_some l : forall a b,
  split_dot l = Some (a, b) -> exists c, l = (a ++ c :: b)%list.
Proof.
  induction l as [| c l IH]; intros a b H; [discriminate |].
  cbn [split_dot] in H. destruct (is_dot c).
  - injection H as <- <-. exists c. reflexivity.
  - destruct (split_dot l) as [[a' b'] |]; [| discriminate].
    injection H as <- <-. destruct (IH a' b' eq_refl) as [d ->].
    exists d. reflexivity.
Qed.

Lemma no_sep_splitext_root s :
  no_sep (list_ascii_of_string s) = true ->
  no_sep (list_ascii_of_string (splitext_root s)) = true.
Proof.
  intros Hs. unfold splitext_root.
  destruct (split_dot (rev (list_ascii_of_string s))) as [[ext_rev root_rev] |] eqn:E;
    [| exact Hs].
  destruct (existsb is_sep ext_rev); [exact Hs |].
  destruct (existsb _ _); [| exact Hs].
  apply split_dot_some in E as [c E].
  unfold no_sep in *. rewrite list_ascii_of_string_of_list_ascii, forallb_rev.
  rewrite <- forallb_rev, E, forallb_app in Hs.
  apply andb_true_iff in Hs as [_ Hs]. cbn [forallb] in Hs.
  apply andb_true_iff in Hs as [_ Hs]. exact Hs.
Qed.

Lemma no_sep_base_filename p : no_sep (list_ascii_of_string (base_filename p)) = true.
Proof. apply no_sep_splitext_root, no_sep_basename. Qed.

Lemma no_sep_str i : no_sep (list_ascii_of_string (str i)) = true.
Proof.
  unfold str. generalize (Nat.to_uint i). intros d.
  induction d; cbn; try assumption; reflexivity.
Qed.

Lemma no_sep_figure_name base i :
  no_sep (list_ascii_of_string base) = true ->
  no_sep (list_ascii_of_string (figure_name base i)) = true.
Proof.
  intros Hb. unfold figure_name. rewrite !no_sep_app, Hb, no_sep_str. reflexivity.
Qed.

Lemma figure_name_not_empty base i : figure_name base i <> "".
Proof.
  unfold figure_name. destruct base; discriminate.
Qed.

(** [os.path.join] of a folder and a name without separator. *)
Lemma join_in_folder folder name :
  no_sep (list_ascii_of_string name) = true -> name <> "" ->
  in_folder folder name (join folder name).
Proof.
  intros Hs Hn. split; [exact Hs |]. split; [exact Hn |].
  unfold join.
  assert (S : starts_with_sep name = false).
  { destruct name as [| c name]; [reflexivity |].
    cbn in Hs |- *. apply andb_true_iff in Hs as [Hc _].
    destruct (is_sep c); [discriminate | reflexivity]. }
  rewrite S.
  destruct (String.eqb folder "" || ends_with_sep folder)%bool;
    [left | right]; reflexivity.
Qed.

Lemma figure_path_in_folder folder p i :
  in_folder folder (figure_name (base_filename p) i)
            (figure_path folder (base_filename p) i).
Proof.
  apply join_in_folder;
    [apply no_sep_figure_name, no_sep_base_filename | apply figure_name_not_empty].
Qed.

(** C9, as stated, fails: the base64 entry point first writes the decoded
    image itself, as [{filename}_original.jpg], which is no crop file. *)
Lemma base64_entry_writes_the_original :
  In "temp_image_storage/uploaded_image_original.jpg"
     (written (events (extract_from_base64
                         (Samples.local_world []) Samples.one_pixel_png
                         "temp_image_storage" "uploaded_image")))
  /\ ~ is_crop_file "temp_image_storage"
                    "temp_image_storage/uploaded_image_original.jpg".
Proof.
  split.
  - vm_compute. left. reflexivity.
  - intros (base & i & E).
    pose proof (figure_path_marked "temp_image_storage" base i) as M.
    rewrite <- E in M. vm_compute in M. discriminate.
Qed.

(** C9, amended. A run of either script writes only crop files: files
    named [{base}_figure_{index}.jpg] directly inside the output folder,
    [base] being the base name of the input.  The base64 entry point
    writes, besides such crop files, one more file whenever the data
    decodes to an image: the image itself, at
    [os.path.join(output_folder, '{filename}_original.jpg')].  For a file
    name without separator that is the file [{filename}_original.jpg]
    directly inside the output folder, and the crops are named
    [{filename}_original_figure_{index}.jpg]. *)
Theorem only_crops_and_the_original_written :
  (forall (W : ExtractImagesOpenai.world) (input_path output_folder : string)
          (padding_percent : Z) (path : string),
     In path (written (fst (ExtractImagesOpenai.main W input_path output_folder
                                                     padding_percent))) ->
     exists i, path = figure_path output_folder (base_filename input_path) i
               /\ in_folder output_folder
                            (figure_name (base_filename input_path) i) path)
  /\ (forall (H : ExtractImagesOpenai.host) (W : ExtractImagesOpenai.world)
            (argv : list string) (path : string),
     let input_path := nth 1 argv "" in
     let output_folder := nth 2 argv "temp_image_storage" in
     match ExtractImagesOpenai.script H W argv with
     | ExtractImagesOpenai.Ended evs _ =>
         In path (written evs) ->
         exists i, path = figure_path output_folder (base_filename input_path) i
                   /\ in_folder output_folder
                                (figure_name (base_filename input_path) i) path
     | _ => True
     end)
  /\ (forall (W : world) (input_path output_folder path : string),
     In path (written (fst (main W input_path output_folder))) ->
     exists i, path = figure_path output_folder (base_filename input_path) i
               /\ in_folder output_folder
                            (figure_name (base_filename input_path) i) path)
  /\ (forall (W : world) (base64_data output_folder filename path : string),
     let temp_path := join output_folder (filename ++ "_original.jpg") in
     In path (written (events (extract_from_base64
                                 W base64_data output_folder filename))) ->
     path = temp_path
     \/ exists i,
          path = figure_path output_folder (base_filename temp_path) i
          /\ in_folder output_folder (figure_name (base_filename temp_path) i) path)
  /\ (forall (W : world) (base64_data output_folder filename : string)
            (dims : Z * Z),
     imdecode W base64_data = Ok (Some dims) ->
     In (join output_folder (filename ++ "_original.jpg"))
        (written (events (extract_from_base64
                            W base64_data output_folder filename))))
  /\ (forall (output_folder filename : string),
     no_sep (list_ascii_of_string filename) = true ->
     let temp_path := join output_folder (filename ++ "_original.jpg") in
     in_folder output_folder (filename ++ "_original.jpg") temp_path
     /\ base_filename temp_path = filename ++ "_original")
  /\ (forall (W : world) (base64_data output_folder filename : string)
            (dims : Z * Z),
     let temp_path := join output_folder (filename ++ "_original.jpg") in
     imdecode W base64_data = Ok (Some dims) ->
     imwrite_ok W temp_path = false -> imread W temp_path = None ->
     exists e,
       outcome (extract_from_base64 W base64_data output_folder filename) = Raise e
       /\ written (events (extract_from_base64
                             W base64_data output_folder filename)) = [temp_path]).
Proof.
  assert (Remote : forall (W : ExtractImagesOpenai.world)
                          (input_path output_folder : string)
                          (padding_percent : Z) (path : string),
            In path (written (fst (ExtractImagesOpenai.main W input_path output_folder
                                                            padding_percent))) ->
            exists i, path = figure_path output_folder (base_filename input_path) i
                      /\ in_folder output_folder
                                   (figure_name (base_filename input_path) i) path).
  { intros W input_path output_folder padding_percent path.
    assert (E : written (fst (ExtractImagesOpenai.main W input_path output_folder
                                                       padding_percent))
                = written (events (ExtractImagesOpenai.extract_figures_from_image
                                     W input_path output_folder (Int padding_percent)))).
    { unfold ExtractImagesOpenai.main.
      destruct (ExtractImagesOpenai.extract_figures_from_image _ _ _ _)
        as [evs [paths | e]];
        cbn [fst events]; rewrite written_app; apply app_nil_r. }
    rewrite E, Pipelines.remote_written.
    destruct (ExtractImagesOpenai.imread W input_path) as [[img_height img_width] |];
      [| intros []].
    intros H. apply in_map_iff in H as ([i r] & <- & _). exists i.
    split; [reflexivity | apply figure_path_in_folder]. }
  split; [exact Remote |].
  split; [| split; [| split; [| split; [| split]]]].
  - intros H W argv path input_path output_folder.
    destruct (ExtractImagesOpenai.script H W argv) as [| e | evs status] eqn:S;
      try exact I.
    intros Hin.
    apply RemoteRuns.script_runs_main in S as [[e ->] | [p E]].
    + destruct Hin.
    + apply (Remote W input_path output_folder p path).
      fold input_path output_folder in E. rewrite <- E. exact Hin.
  - intros W input_path output_folder path H.
    rewrite main_written in H.
    apply extract_images_from_note_written in H as [i ->].
    exists i. split; [reflexivity | apply figure_path_in_folder].
  - intros W base64_data output_folder filename path temp_path H.
    apply extract_from_base64_written in H as [H | [i ->]]; [left; exact H |].
    right. exists i. split; [reflexivity | apply figure_path_in_folder].
  - intros W base64_data output_folder filename dims Hd.
    unfold extract_from_base64. rewrite Hd. cbn [emit lift bind app].
    destruct (extract_images_from_note _ _ _) as [evs r].
    destruct r; cbn [events fst]; left; reflexivity.
  - intros output_folder filename Hs temp_path. split.
    + apply join_in_folder.
      * rewrite no_sep_app. unfold no_sep in Hs |- *. rewrite Hs. reflexivity.
      * destruct filename; discriminate.
    + apply base_filename_original. exact Hs.
  - intros W base64_data output_folder filename dims temp_path Hd Hw Hr.
    unfold extract_from_base64. rewrite Hd. cbn [emit lift bind app].
    fold temp_path.
    unfold extract_images_from_note, with_layout_model,
      extract_images_opencv_fallback.
    cbn [after_imwrite layout_model imread].
    rewrite String.eqb_refl, Hw. cbn [andb]. rewrite Hr.
    destruct (layout_model W) as [[] | []];
      cbn [emit lift raise bind app outcome events fst snd];
      eexists; split; reflexivity.
Qed.

Lemma only_crops_and_the_original_written_witness :
  in_folder "temp_image_storage" ("uploaded_image" ++ "_original.jpg")
            (join "temp_image_storage" ("uploaded_image" ++ "_original.jpg"))
  /\ base_filename (join "temp_image_storage" ("uploaded_image" ++ "_original.jpg"))
     = "uploaded_image" ++ "_original".
Proof.
  apply (proj1 (proj2 (proj2 (proj2 (proj2 (proj2
                 only_crops_and_the_original_written)))))
               "temp_image_storage" "uploaded_image").
  reflexivity.
Defined.

End WrittenFiles.
